(** * WalletTransactionSender: the send pipeline of the wallet

    A shallow embedding of [src/wallet/WalletTransactionSender.cpp]:
    the needed-money count, the coin selector, the change and
    denomination splitter, the input preparer and the asynchronous send
    orchestrator, followed by the properties proved about them.

    Conventions.  A [uint64_t] is a [Z] in [0, 2^64) and every
    arithmetic result the source stores in one is wrapped with [u64];
    an [int64_t] is a [Z] in [-2^63, 2^63) and [to_int64] is the
    [static_cast<int64_t>].  Container sizes and indices ([size_t],
    [TransactionId], [TransferId]) are [nat].  Exceptions and the
    mutable members of the sender are threaded through a small
    state-and-exception monad; a C++ exception leaves the state as it
    was at the throw. *)

From Stdlib Require Import ZArith List Lia Bool Permutation Sorted Arith.
From Stdlib Require String Ascii.
Import ListNotations.
Open Scope Z_scope.

Import String.StringSyntax.
Abbreviation string := String.string.
Delimit Scope string_scope with string.

(** ** Machine integers *)

Definition two64 : Z := 2 ^ 64.
Definition two63 : Z := 2 ^ 63.

(** The value a [uint64_t] holds after an arithmetic result [z]. *)
Definition u64 (z : Z) : Z := z mod two64.

(** [static_cast<int64_t>] of a 64-bit pattern. *)
Definition to_int64 (z : Z) : Z :=
  let r := z mod two64 in if r <? two63 then r else r - two64.

(** ** Error codes

    The members of [cryptonote::error] the sender raises.  A
    [std::error_code] is [option error]: [None] is the empty (success)
    code.  [NODE_ERROR] stands for the codes the node layer hands to
    the callbacks. *)

Inductive error : Type :=
| ZERO_DESTINATION
| WRONG_AMOUNT
| SUM_OVERFLOW
| BAD_ADDRESS
| INTERNAL_WALLET_ERROR
| TRANSACTION_SIZE_TOO_BIG
| MIXIN_COUNT_TOO_BIG
| TX_CANCELLED
| NODE_ERROR (code : nat).

Definition error_code : Type := option error.

(** What a [try] block can catch: a [std::system_error] carrying a
    code, or some other [std::exception]. *)
Inductive exception : Type :=
| system_error (ec : error)
| std_exception.

(** Result of a computation that may throw.  [Undefined] marks what
    the C++ standard leaves undefined (an index past the end of a
    vector); no handler catches it. *)
Inductive result (A : Type) : Type :=
| Ok (a : A)
| Throw (x : exception)
| Undefined.
Arguments Ok {A} a.
Arguments Throw {A} x.
Arguments Undefined {A}.

(** [CryptoNote::throwIf(expr, ec)] *)
Definition throwIf (expr : bool) (ec : error) : result unit :=
  if expr then Throw (system_error ec) else Ok tt.

Definition rbind {A B} (r : result A) (k : A -> result B) : result B :=
  match r with
  | Ok a => k a
  | Throw x => Throw x
  | Undefined => Undefined
  end.

Notation "'let!' x ':=' c 'in' k" := (rbind c (fun x => k))
  (at level 10, x name, c at level 100, k at level 200).
Notation "'check!' c 'in' k" := (rbind c (fun _ => k))
  (at level 10, c at level 100, k at level 200).

(** ** Data model *)

Definition AccountPublicAddress : Type := string.
Definition public_key : Type := Z.
Definition TransactionHash : Type := Z.
Definition TransactionId : Type := nat.
Definition TransferId : Type := nat.

(** [CryptoNote::Transfer]; [amount] is an [int64_t]: the source tests
    [transfer.amount < 0] and compares it with a
    [static_cast<int64_t>]. *)
Record Transfer : Type := mkTransfer {
  address : string;
  amount : Z
}.

(** [TransactionOutputInformation], an owned output; the source calls
    a value of it [td] and reads [td.amount] (a [uint64_t]). *)
Record TransactionOutputInformation : Type := mkOutput {
  td_amount : Z;
  globalOutputIndex : Z;
  outputInTransaction : Z;
  transactionPublicKey : public_key;
  outputKey : public_key
}.

(** [cryptonote::tx_destination_entry] *)
Record tx_destination_entry : Type := mkDst {
  dst_amount : Z;
  addr : AccountPublicAddress
}.

(** [TxDustPolicy] *)
Record TxDustPolicy : Type := mkDustPolicy {
  dustThreshold : Z;
  addToFee : bool;
  addrForDust : AccountPublicAddress
}.

(** [COMMAND_RPC_GET_RANDOM_OUTPUTS_FOR_AMOUNTS::out_entry] and
    [::outs_for_amount] *)
Record out_entry : Type := mkOutEntry {
  global_amount_index : Z;
  out_key : public_key
}.

Record outs_for_amount : Type := mkOutsForAmount {
  ofa_amount : Z;
  ofa_outs : list out_entry
}.

(** [tx_source_entry::output_entry] is a pair (global index, key). *)
Definition output_entry : Type := (Z * public_key)%type.

(** [cryptonote::tx_source_entry] *)
Record tx_source_entry : Type := mkSource {
  outputs : list output_entry;
  real_output : nat;
  real_out_tx_key : public_key;
  real_output_in_tx_index : Z;
  src_amount : Z
}.

(** [cryptonote::account_keys] *)
Record account_keys : Type := mkKeys {
  m_account_address : AccountPublicAddress;
  m_spend_secret_key : Z;
  m_view_secret_key : Z
}.

(** [cryptonote::Transaction], as far as the sender determines it. *)
Record Transaction : Type := mkTransaction {
  tx_sources : list tx_source_entry;
  tx_destinations : list tx_destination_entry;
  tx_extra : list Ascii.ascii;
  tx_unlock_time : Z
}.

(** [SendTransactionContext] *)
Record SendTransactionContext : Type := mkContext {
  transactionId : TransactionId;
  outs : list outs_for_amount;
  foundMoney : Z;
  selectedTransfers : list TransactionOutputInformation;
  dustPolicy : TxDustPolicy;
  mixIn : Z
}.

(** The events pushed on the caller's deque. *)
Inductive WalletEvent : Type :=
| WalletSendTransactionCompletedEvent (id : TransactionId) (ec : error_code)
| WalletActualBalanceUpdatedEvent (balance : Z)
| WalletPendingBalanceUpdatedEvent (balance : Z).

(** The two requests the sender hands to the driver.  The callback
    bound into each is fixed by its kind:
    [sendTransactionRandomOutsByAmount] for the first,
    [relayTransactionCallback] for the second, both on [context]. *)
Inductive WalletRequest : Type :=
| WalletGetRandomOutsByAmountsRequest
    (amounts : list Z) (outsCount : Z) (context : SendTransactionContext)
| WalletRelayTransactionRequest
    (tx : Transaction) (context : SendTransactionContext).

(** ** Collaborators

    The currency, the cryptographic primitives and the declarations of
    the headers the sender includes.  They are an interface: every
    result below holds for each implementation of it. *)
Class Externals : Type := {
  (** [Currency::parseAccountAddressString(str, addr)]: [None] is the
      [false] return. *)
  parseAccountAddressString : string -> option AccountPublicAddress;
  blockGrantedFullRewardZone : Z;
  minerTxBlobReservedSize : Z;
  (** [cryptonote::construct_tx]: [None] is the [false] return. *)
  construct_tx :
    account_keys -> list tx_source_entry -> list tx_destination_entry ->
    list Ascii.ascii -> Z -> option Transaction;
  get_object_blobsize : Transaction -> Z;
  get_transaction_hash : Transaction -> TransactionHash;
  (** The dust policy of a default-constructed [SendTransactionContext]
      (declared in a header outside the sources). *)
  defaultDustPolicy : TxDustPolicy
}.

(** ** The transactions cache *)

(** Modelled from the spec: the sending state of the Transaction Record
    ([WalletUserTransactionsCache] is an external collaborator).  A
    record is [Pending] from its creation until a send result is
    marked on it. *)
Inductive SendingState : Type :=
| Pending
| Finalized (ec : error_code).

(** Modelled from the spec: the Transaction Record of section 3, with
    the field names [doSendTransaction] reads ([TransactionInfo] is
    declared outside the sources). *)
Record TransactionInfo : Type := mkTransactionInfo {
  firstTransferId : TransferId;
  transferCount : nat;
  totalAmount : Z;
  tx_fee : Z;
  hash : TransactionHash;
  extra : string;
  unlockTime : Z;
  state : SendingState
}.

(** Modelled from the spec: what [updateTransaction] records for an
    assembled, not yet confirmed transaction: its amount and the coins
    it spends. *)
Record UnconfirmedTransferDetails : Type := mkUnconfirmed {
  u_transactionId : TransactionId;
  u_tx : Transaction;
  u_amount : Z;
  u_usedOutputs : list TransactionOutputInformation
}.

(** Modelled from the spec: [WalletUserTransactionsCache], "a mapping
    keyed by transaction/transfer identifiers"; identifiers are
    positions in the two vectors. *)
Record WalletUserTransactionsCache : Type := mkCache {
  m_transactions : list TransactionInfo;
  m_transfers : list Transfer;
  m_unconfirmedTransactions : list UnconfirmedTransferDetails
}.

Definition TransactionOutputInformation_eqb
  (a b : TransactionOutputInformation) : bool :=
  (td_amount a =? td_amount b) && (globalOutputIndex a =? globalOutputIndex b)
  && (outputInTransaction a =? outputInTransaction b)
  && (transactionPublicKey a =? transactionPublicKey b)
  && (outputKey a =? outputKey b).

(** Modelled from the spec: [isUsed] is "isCoinReserved(coin)": the
    coin is among the coins some unconfirmed transaction spends. *)
Definition isUsed (cache : WalletUserTransactionsCache)
  (out : TransactionOutputInformation) : bool :=
  existsb (fun u => existsb (TransactionOutputInformation_eqb out) (u_usedOutputs u))
          (m_unconfirmedTransactions cache).

(** Modelled from the spec: [addNewTransaction] is
    "addPendingTransaction(amount, fee, extra, transfers, unlockTime)
    -> transactionId"; the record's total amount is signed, "negative
    = net spend". *)
Definition addNewTransaction (cache : WalletUserTransactionsCache)
  (amount fee : Z) (extra : string) (transfers : list Transfer) (unlockTime : Z)
  : TransactionId * WalletUserTransactionsCache :=
  let info := {| firstTransferId := length (m_transfers cache);
                 transferCount := length transfers;
                 totalAmount := to_int64 (- to_int64 amount);
                 tx_fee := fee;
                 hash := 0;
                 extra := extra;
                 unlockTime := unlockTime;
                 state := Pending |} in
  (length (m_transactions cache),
   {| m_transactions := m_transactions cache ++ [info];
      m_transfers := m_transfers cache ++ transfers;
      m_unconfirmedTransactions := m_unconfirmedTransactions cache |}).

(** Modelled from the spec: [getTransaction(id)] and
    [getTransfer(idx)]; an unknown identifier raises a
    [std::exception]. *)
Definition getTransaction (cache : WalletUserTransactionsCache)
  (id : TransactionId) : result TransactionInfo :=
  match nth_error (m_transactions cache) id with
  | Some info => Ok info
  | None => Throw std_exception
  end.

Definition getTransfer (cache : WalletUserTransactionsCache)
  (idx : TransferId) : result Transfer :=
  match nth_error (m_transfers cache) idx with
  | Some tr => Ok tr
  | None => Throw std_exception
  end.

(** [vec[i] = x] on a vector; nothing to do past the end. *)
Fixpoint replace_nth {A} (i : nat) (x : A) (l : list A) : list A :=
  match l, i with
  | [], _ => []
  | _ :: t, O => x :: t
  | h :: t, S i' => h :: replace_nth i' x t
  end.

Definition update_transaction (cache : WalletUserTransactionsCache)
  (id : TransactionId) (f : TransactionInfo -> TransactionInfo)
  : WalletUserTransactionsCache :=
  match nth_error (m_transactions cache) id with
  | Some info =>
      {| m_transactions := replace_nth id (f info) (m_transactions cache);
         m_transfers := m_transfers cache;
         m_unconfirmedTransactions := m_unconfirmedTransactions cache |}
  | None => cache
  end.

(** Modelled from the spec: [updateTransactionSendingState] is
    "markSendResult(id, errorCode)". *)
Definition updateTransactionSendingState (cache : WalletUserTransactionsCache)
  (id : TransactionId) (ec : error_code) : WalletUserTransactionsCache :=
  update_transaction cache id
    (fun info => {| firstTransferId := firstTransferId info;
                    transferCount := transferCount info;
                    totalAmount := totalAmount info;
                    tx_fee := tx_fee info;
                    hash := hash info;
                    extra := extra info;
                    unlockTime := unlockTime info;
                    state := Finalized ec |}).

(** The write through the reference [transaction.hash] in
    [doSendTransaction]. *)
Definition set_transaction_hash (cache : WalletUserTransactionsCache)
  (id : TransactionId) (h : TransactionHash) : WalletUserTransactionsCache :=
  update_transaction cache id
    (fun info => {| firstTransferId := firstTransferId info;
                    transferCount := transferCount info;
                    totalAmount := totalAmount info;
                    tx_fee := tx_fee info;
                    hash := h;
                    extra := extra info;
                    unlockTime := unlockTime info;
                    state := state info |}).

(** Modelled from the spec: [updateTransaction] "marks coins as spent":
    it records the assembled transaction with the coins it uses. *)
Definition updateTransaction (cache : WalletUserTransactionsCache)
  (id : TransactionId) (tx : Transaction) (amount : Z)
  (usedOutputs : list TransactionOutputInformation)
  : WalletUserTransactionsCache :=
  {| m_transactions := m_transactions cache;
     m_transfers := m_transfers cache;
     m_unconfirmedTransactions :=
       m_unconfirmedTransactions cache
       ++ [ {| u_transactionId := id; u_tx := tx; u_amount := amount;
               u_usedOutputs := usedOutputs |} ] |}.

(** Modelled from the spec: the "unconfirmed outflow" figures of the
    balance notifications: the value of the reserved coins and the
    amounts of the unconfirmed transactions. *)
Definition unconfrimedOutsAmount (cache : WalletUserTransactionsCache) : Z :=
  fold_left (fun acc u =>
               fold_left (fun a o => u64 (a + td_amount o)) (u_usedOutputs u) acc)
            (m_unconfirmedTransactions cache) 0.

Definition unconfirmedTransactionsAmount (cache : WalletUserTransactionsCache) : Z :=
  fold_left (fun acc u => u64 (acc + u_amount u)) (m_unconfirmedTransactions cache) 0.

(** Modelled from the spec: [ITransfersContainer], the "owned-outputs
    source": the unlocked outputs and the balance under the two
    filters. *)
Record ITransfersContainer : Type := mkContainer {
  getOutputs_IncludeKeyUnlocked : list TransactionOutputInformation;
  balance_IncludeKeyUnlocked : Z;
  balance_IncludeKeyNotUnlocked : Z
}.

(** ** The sender

    The members of [WalletTransactionSender] ([m_currency] is
    [Externals]) together with [events], the deque every entry point
    receives by reference. *)
Record Wallet : Type := mkWallet {
  m_transactionsCache : WalletUserTransactionsCache;
  m_isStoping : bool;
  m_keys : account_keys;
  m_transferDetails : ITransfersContainer;
  m_upperTransactionSizeLimit : Z;
  events : list WalletEvent
}.

Definition with_cache (w : Wallet) (cache : WalletUserTransactionsCache) : Wallet :=
  {| m_transactionsCache := cache;
     m_isStoping := m_isStoping w;
     m_keys := m_keys w;
     m_transferDetails := m_transferDetails w;
     m_upperTransactionSizeLimit := m_upperTransactionSizeLimit w;
     events := events w |}.

Definition push_back_event (w : Wallet) (e : WalletEvent) : Wallet :=
  {| m_transactionsCache := m_transactionsCache w;
     m_isStoping := m_isStoping w;
     m_keys := m_keys w;
     m_transferDetails := m_transferDetails w;
     m_upperTransactionSizeLimit := m_upperTransactionSizeLimit w;
     events := events w ++ [e] |}.

(** The constructor. *)
Definition WalletTransactionSender `{Externals}
  (transactionsCache : WalletUserTransactionsCache) (keys : account_keys)
  (transfersContainer : ITransfersContainer) : Wallet :=
  {| m_transactionsCache := transactionsCache;
     m_isStoping := false;
     m_keys := keys;
     m_transferDetails := transfersContainer;
     m_upperTransactionSizeLimit :=
       u64 (blockGrantedFullRewardZone * 2 - minerTxBlobReservedSize);
     events := [] |}.

Definition stop (w : Wallet) : Wallet :=
  {| m_transactionsCache := m_transactionsCache w;
     m_isStoping := true;
     m_keys := m_keys w;
     m_transferDetails := m_transferDetails w;
     m_upperTransactionSizeLimit := m_upperTransactionSizeLimit w;
     events := events w |}.

(** ** countNeededMoney *)

Fixpoint countNeededMoney_loop (needed_money : Z) (transfers : list Transfer)
  : result Z :=
  match transfers with
  | [] => Ok needed_money
  | transfer :: rest =>
      check! throwIf (amount transfer =? 0) ZERO_DESTINATION in
      check! throwIf (amount transfer <? 0) WRONG_AMOUNT in
      let needed_money := u64 (needed_money + amount transfer) in
      check! throwIf (to_int64 needed_money <? amount transfer) SUM_OVERFLOW in
      countNeededMoney_loop needed_money rest
  end.

Definition countNeededMoney (fee : Z) (transfers : list Transfer) : result Z :=
  countNeededMoney_loop fee transfers.

(** The exact sum of the transfer amounts. *)
Definition sum_amounts (transfers : list Transfer) : Z :=
  fold_right (fun t acc => amount t + acc) 0 transfers.

(** ** createChangeDestinations *)

Definition createChangeDestinations (address : AccountPublicAddress)
  (neededMoney foundMoney : Z) (changeDts : tx_destination_entry)
  : tx_destination_entry :=
  if neededMoney <? foundMoney
  then {| dst_amount := u64 (foundMoney - neededMoney); addr := address |}
  else changeDts.

(** [AUTO_VAL_INIT(changeDts)]: the value-initialised entry. *)
Definition AUTO_VAL_INIT_changeDts : tx_destination_entry :=
  {| dst_amount := 0; addr := String.EmptyString |}.

(** ** constructTx *)

Definition constructTx `{Externals} (keys : account_keys)
  (sources : list tx_source_entry) (splittedDests : list tx_destination_entry)
  (extra : string) (unlockTimestamp sizeLimit : Z) : result Transaction :=
  let extraVec := String.list_ascii_of_string extra in
  match construct_tx keys sources splittedDests extraVec unlockTimestamp with
  | None => Throw (system_error INTERNAL_WALLET_ERROR)
  | Some tx =>
      check! throwIf (sizeLimit <=? get_object_blobsize tx) TRANSACTION_SIZE_TOO_BIG in
      Ok tx
  end.

(** ** makeCompleteEvent *)

Definition makeCompleteEvent (w : Wallet) (transactionId : TransactionId)
  (ec : error_code) : WalletEvent * Wallet :=
  (WalletSendTransactionCompletedEvent transactionId ec,
   with_cache w (updateTransactionSendingState (m_transactionsCache w) transactionId ec)).

(** [events.push_back(makeCompleteEvent(m_transactionsCache, id, ec))] *)
Definition push_complete_event (w : Wallet) (transactionId : TransactionId)
  (ec : error_code) : Wallet :=
  let (ev, w') := makeCompleteEvent w transactionId ec in
  push_back_event w' ev.

(** ** validateTransfersAddresses *)

Definition validateDestinationAddress `{Externals} (address : string) : bool :=
  match parseAccountAddressString address with
  | Some _ => true
  | None => false
  end.

Fixpoint validateTransfersAddresses `{Externals} (transfers : list Transfer)
  : result unit :=
  match transfers with
  | [] => Ok tt
  | tr :: rest =>
      if validateDestinationAddress (address tr)
      then validateTransfersAddresses rest
      else Throw (system_error BAD_ADDRESS)
  end.

(** ** The denomination splitter *)

(** A call the decomposition makes to one of its two handlers. *)
Inductive digit_call : Type :=
| chunk_handler (chunk : Z)
| dust_handler (a_dust : Z).

(** Modelled from the spec: the loop of [decompose_amount_into_digits]
    ([cryptonote_format_utils.h], not among the sources).  Section 4.2:
    the amount is decomposed into denomination-aligned chunks, one
    decimal digit times its power of ten each; the low-order chunks
    that together stay within the dust threshold form the single
    remainder, which goes to the dust handler; every other non-zero
    chunk goes to the chunk handler.  [fuel] bounds the number of
    digits. *)
Fixpoint decompose_loop (fuel : nat) (amount order dust : Z)
  (is_dust_handled : bool) (dust_threshold : Z) : list digit_call :=
  match fuel with
  | O => []
  | S fuel' =>
      if amount =? 0 then
        if negb is_dust_handled && negb (dust =? 0) then [dust_handler dust] else []
      else
        let chunk := (amount mod 10) * order in
        if dust + chunk <=? dust_threshold then
          decompose_loop fuel' (amount / 10) (order * 10) (dust + chunk)
                         is_dust_handled dust_threshold
        else
          (if negb is_dust_handled && negb (dust =? 0) then [dust_handler dust] else [])
          ++ (if chunk =? 0 then [] else [chunk_handler chunk])
          ++ decompose_loop fuel' (amount / 10) (order * 10) dust
                            (is_dust_handled || negb (dust =? 0)) dust_threshold
  end.

(** Modelled from the spec: [decompose_amount_into_digits(amount,
    dust_threshold, chunk_handler, dust_handler)], as the sequence of
    handler calls it makes.  A zero amount makes none.  An amount has
    at most [log2 amount + 1] digits, and one more round sees the zero
    that ends the loop. *)
Definition decompose_amount_into_digits (amount dust_threshold : Z)
  : list digit_call :=
  if amount =? 0 then []
  else decompose_loop (S (S (Z.to_nat (Z.log2 amount)))) amount 1 0 false
                      dust_threshold.

(** The two lambdas [digitSplitStrategy] passes for a transfer: both
    push an entry to [addr]. *)
Definition transfer_handlers (addr : AccountPublicAddress)
  (splitted_dsts : list tx_destination_entry) (c : digit_call)
  : list tx_destination_entry :=
  match c with
  | chunk_handler chunk => splitted_dsts ++ [ {| dst_amount := chunk; addr := addr |} ]
  | dust_handler a_dust => splitted_dsts ++ [ {| dst_amount := a_dust; addr := addr |} ]
  end.

(** The two lambdas passed for the change: a chunk is pushed, the dust
    is stored in [dust]. *)
Definition change_handlers (change_addr : AccountPublicAddress)
  (st : list tx_destination_entry * Z) (c : digit_call)
  : list tx_destination_entry * Z :=
  match c with
  | chunk_handler chunk =>
      (fst st ++ [ {| dst_amount := chunk; addr := change_addr |} ], snd st)
  | dust_handler a_dust => (fst st, a_dust)
  end.

(** A sum of two [size_t], which wraps at [2^64]. *)
Definition size_t_add (a b : nat) : nat :=
  Z.to_nat (u64 (Z.of_nat a + Z.of_nat b)).

(** The rounds of [for (idx = firstTransferId; idx < firstTransferId +
    transfersCount; ++idx)]: [idx] runs from [firstTransferId] up to
    the sum, which is taken in [size_t].  When the sum wraps it lies
    below [firstTransferId] and the body never runs. *)
Definition transfer_rounds (firstTransferId : TransferId) (transfersCount : nat)
  : nat :=
  (size_t_add firstTransferId transfersCount - firstTransferId)%nat.

(** The body of the [for] loop of [digitSplitStrategy], for [count]
    rounds from [idx]. *)
Fixpoint digitSplitStrategy_transfers `{Externals}
  (cache : WalletUserTransactionsCache) (idx : TransferId) (count : nat)
  (dust_threshold : Z) (splitted_dsts : list tx_destination_entry)
  : result (list tx_destination_entry) :=
  match count with
  | O => Ok splitted_dsts
  | S count' =>
      let! de := getTransfer cache idx in
      match parseAccountAddressString (address de) with
      | None => Throw (system_error BAD_ADDRESS)
      | Some addr =>
          digitSplitStrategy_transfers cache (S idx) count' dust_threshold
            (fold_left (transfer_handlers addr)
               (decompose_amount_into_digits (u64 (amount de)) dust_threshold)
               splitted_dsts)
      end
  end.

(** [digitSplitStrategy]: returns [splitted_dsts] and [dust]. *)
Definition digitSplitStrategy `{Externals} (cache : WalletUserTransactionsCache)
  (firstTransferId : TransferId) (transfersCount : nat)
  (change_dst : tx_destination_entry) (dust_threshold : Z)
  : result (list tx_destination_entry * Z) :=
  let! splitted_dsts :=
    digitSplitStrategy_transfers cache firstTransferId
      (transfer_rounds firstTransferId transfersCount) dust_threshold [] in
  Ok (fold_left (change_handlers (addr change_dst))
        (decompose_amount_into_digits (dst_amount change_dst) dust_threshold)
        (splitted_dsts, 0)).

(** [splitDestinations]: returns [splittedDests]. *)
(** What [splitDestinations] does with [splittedDests] and [dust] once
    [digitSplitStrategy] has filled them. *)
Definition splitDestinations_dust (dustPolicy : TxDustPolicy)
  (splittedDests : list tx_destination_entry) (dust : Z)
  : result (list tx_destination_entry) :=
  check! throwIf (dustThreshold dustPolicy <? dust) INTERNAL_WALLET_ERROR in
  if negb (dust =? 0) && negb (addToFee dustPolicy)
  then Ok (splittedDests ++ [ {| dst_amount := dust; addr := addrForDust dustPolicy |} ])
  else Ok splittedDests.

Definition splitDestinations `{Externals} (cache : WalletUserTransactionsCache)
  (firstTransferId : TransferId) (transfersCount : nat)
  (changeDts : tx_destination_entry) (dustPolicy : TxDustPolicy)
  : result (list tx_destination_entry) :=
  let! r := digitSplitStrategy cache firstTransferId transfersCount changeDts
                               (dustThreshold dustPolicy) in
  splitDestinations_dust dustPolicy (fst r) (snd r).

(** The value a handler call carries, and the total over calls. *)
Definition call_amount (c : digit_call) : Z :=
  match c with
  | chunk_handler chunk => chunk
  | dust_handler a_dust => a_dust
  end.

Definition sum_calls (calls : list digit_call) : Z :=
  fold_right (fun c acc => call_amount c + acc) 0 calls.

Definition is_dust_call (c : digit_call) : bool :=
  match c with
  | dust_handler _ => true
  | chunk_handler _ => false
  end.

(** The transfers the cache holds at the [rounds] positions from
    [first] on. *)
Definition transfers_from (cache : WalletUserTransactionsCache)
  (first : TransferId) (rounds : nat) : list Transfer :=
  firstn rounds (skipn first (m_transfers cache)).

(** The transfers of the range [first, first + count) of the cache,
    the range the loop of [digitSplitStrategy] runs over: it is empty
    when the sum wraps. *)
Definition transfer_range (cache : WalletUserTransactionsCache)
  (first : TransferId) (count : nat) : list Transfer :=
  transfers_from cache first (transfer_rounds first count).

Definition sum_dsts (l : list tx_destination_entry) : Z :=
  fold_right (fun d acc => dst_amount d + acc) 0 l.

(** What one transfer contributes: the entries of its decomposition,
    all to its parsed address. *)
Definition transfer_part `{Externals} (thr : Z) (tr : Transfer)
  (part : list tx_destination_entry) : Prop :=
  exists a, parseAccountAddressString (address tr) = Some a
            /\ part = map (fun c => {| dst_amount := call_amount c; addr := a |})
                          (decompose_amount_into_digits (u64 (amount tr)) thr).

(** ** The input preparer *)

(** [std::list::sort] with the comparison on [global_amount_index]:
    a stable sort, here by insertion. *)
Fixpoint sort_insert (x : out_entry) (l : list out_entry) : list out_entry :=
  match l with
  | [] => [x]
  | y :: t =>
      if global_amount_index x <? global_amount_index y
      then x :: y :: t
      else y :: sort_insert x t
  end.

Definition sort_outs (l : list out_entry) : list out_entry :=
  fold_left (fun acc x => sort_insert x acc) l [].

(** The inner [for] loop of [prepareInputs]: copies decoys into
    [src.outputs] until it holds [mixIn] of them. *)
Fixpoint paste_mixin (td : TransactionOutputInformation) (mixIn : Z)
  (daemon_outs : list out_entry) (src_outputs : list output_entry)
  : list output_entry :=
  match daemon_outs with
  | [] => src_outputs
  | daemon_oe :: rest =>
      if globalOutputIndex td =? global_amount_index daemon_oe
      then paste_mixin td mixIn rest src_outputs
      else
        let src_outputs :=
          src_outputs ++ [(global_amount_index daemon_oe, out_key daemon_oe)] in
        if mixIn <=? Z.of_nat (length src_outputs)
        then src_outputs
        else paste_mixin td mixIn rest src_outputs
  end.

(** [std::find_if] for the first entry whose index is not below the
    real one, as a position ([length] is [end()]). *)
Fixpoint find_insert_position (td : TransactionOutputInformation)
  (src_outputs : list output_entry) : nat :=
  match src_outputs with
  | [] => O
  | a :: rest =>
      if globalOutputIndex td <=? fst a then O
      else S (find_insert_position td rest)
  end.

(** [vector::insert(begin() + pos, x)] *)
Definition insert_at {A} (pos : nat) (x : A) (l : list A) : list A :=
  firstn pos l ++ x :: skipn pos l.

(** The body of the outer loop for the coin [td], the [i]-th one.
    Returns [outs] (whose [i]-th list it sorts in place) and the new
    source entry. *)
Definition prepareInput (td : TransactionOutputInformation) (i : nat)
  (outs : list outs_for_amount) (mixIn : Z)
  : result (list outs_for_amount * tx_source_entry) :=
  let! pasted :=
    match outs with
    | [] => Ok (outs, [])
    | _ :: _ =>
        match nth_error outs i with
        | None => Undefined
        | Some o =>
            let sorted := sort_outs (ofa_outs o) in
            Ok (replace_nth i {| ofa_amount := ofa_amount o; ofa_outs := sorted |} outs,
                paste_mixin td mixIn sorted [])
        end
    end in
  let src_outputs := snd pasted in
  let it_to_insert := find_insert_position td src_outputs in
  let real_oe := (globalOutputIndex td, outputKey td) in
  Ok (fst pasted,
      {| outputs := insert_at it_to_insert real_oe src_outputs;
         real_output := it_to_insert;
         real_out_tx_key := transactionPublicKey td;
         real_output_in_tx_index := outputInTransaction td;
         src_amount := td_amount td |}).

Fixpoint prepareInputs_loop (selectedTransfers : list TransactionOutputInformation)
  (i : nat) (outs : list outs_for_amount) (sources : list tx_source_entry)
  (mixIn : Z) : result (list outs_for_amount * list tx_source_entry) :=
  match selectedTransfers with
  | [] => Ok (outs, sources)
  | td :: rest =>
      let! r := prepareInput td i outs mixIn in
      prepareInputs_loop rest (S i) (fst r) (sources ++ [snd r]) mixIn
  end.

(** [prepareInputs]: returns [outs] and [sources] as it leaves them. *)
Definition prepareInputs (selectedTransfers : list TransactionOutputInformation)
  (outs : list outs_for_amount) (sources : list tx_source_entry) (mixIn : Z)
  : result (list outs_for_amount * list tx_source_entry) :=
  prepareInputs_loop selectedTransfers 0 outs sources mixIn.

(** The rank of a global index among candidates: how many of them lie
    strictly below it. *)
Definition rank (index : Z) (candidates : list output_entry) : nat :=
  length (filter (fun a => fst a <? index) candidates).

(** Ascending order of global indices, on decoys and on candidates. *)
Definition le_out (a b : out_entry) : Prop :=
  global_amount_index a <= global_amount_index b.

Definition le_entry (a b : output_entry) : Prop := fst a <= fst b.

(** The candidate a decoy becomes. *)
Definition entry_of (o : out_entry) : output_entry :=
  (global_amount_index o, out_key o).

(** The decoys of a set whose global index is not the coin's own. *)
Definition other_decoys (td : TransactionOutputInformation)
  (l : list out_entry) : list out_entry :=
  filter (fun o => negb (globalOutputIndex td =? global_amount_index o)) l.

(** The source entry of a coin that is given no decoys. *)
Definition lone_source (td : TransactionOutputInformation) : tx_source_entry :=
  {| outputs := [(globalOutputIndex td, outputKey td)];
     real_output := O;
     real_out_tx_key := transactionPublicKey td;
     real_output_in_tx_index := outputInTransaction td;
     src_amount := td_amount td |}.

(** ** The coin selector *)

(** [popRandomValue(randomGenerator, vec)]: [randomValue] is what the
    generator yields for this draw, and the uniform distribution over
    [0, size - 1] is its residue.  Returns the value and [vec] as left
    behind. *)
Definition popRandomValue (randomValue : nat) (vec : list nat) : nat * list nat :=
  match vec with
  | [] => (O, vec)
  | _ :: _ =>
      let idx := (randomValue mod length vec)%nat in
      let res := nth idx vec O in
      let vec := if (idx + 1 =? length vec)%nat then vec
                 else replace_nth idx (last vec O) vec in
      (res, removelast vec)
  end.

(** The first loop of [selectTransfersToSend]: the unused outputs are
    split, by position, into [unusedTransfers] and [unusedDust]. *)
Fixpoint collect_unused (cache : WalletUserTransactionsCache) (dust : Z)
  (outputs : list TransactionOutputInformation) (i : nat)
  (unusedTransfers unusedDust : list nat) : list nat * list nat :=
  match outputs with
  | [] => (unusedTransfers, unusedDust)
  | out :: rest =>
      if negb (isUsed cache out) then
        if dust <? td_amount out
        then collect_unused cache dust rest (S i) (unusedTransfers ++ [i]) unusedDust
        else collect_unused cache dust rest (S i) unusedTransfers (unusedDust ++ [i])
      else collect_unused cache dust rest (S i) unusedTransfers unusedDust
  end.

Definition is_empty {A} (l : list A) : bool :=
  match l with [] => true | _ :: _ => false end.

(** The [while] loop.  [randomGenerator n] is the value of the [n]-th
    draw; [None] is an exhausted [fuel] or an [outputs[idx]] past the
    end, neither of which happens (see [selectTransfersToSend_total]). *)
Fixpoint selectTransfersToSend_loop (fuel : nat) (randomGenerator : nat -> nat)
  (draw : nat) (outputs : list TransactionOutputInformation) (neededMoney : Z)
  (selectOneDust : bool) (unusedTransfers unusedDust : list nat)
  (foundMoney : Z) (selectedTransfers : list TransactionOutputInformation)
  : option (Z * list TransactionOutputInformation) :=
  if (foundMoney <? neededMoney)
     && (negb (is_empty unusedTransfers) || negb (is_empty unusedDust))
  then
    match fuel with
    | O => None
    | S fuel' =>
        let '(idx, unusedTransfers, unusedDust) :=
          if selectOneDust then
            let (idx, unusedDust) := popRandomValue (randomGenerator draw) unusedDust in
            (idx, unusedTransfers, unusedDust)
          else if negb (is_empty unusedTransfers) then
            let (idx, unusedTransfers) :=
              popRandomValue (randomGenerator draw) unusedTransfers in
            (idx, unusedTransfers, unusedDust)
          else
            let (idx, unusedDust) := popRandomValue (randomGenerator draw) unusedDust in
            (idx, unusedTransfers, unusedDust) in
        match nth_error outputs idx with
        | None => None
        | Some out =>
            selectTransfersToSend_loop fuel' randomGenerator (S draw) outputs
              neededMoney false unusedTransfers unusedDust
              (u64 (foundMoney + td_amount out)) (selectedTransfers ++ [out])
        end
    end
  else Some (foundMoney, selectedTransfers).

(** [selectTransfersToSend]: returns [foundMoney] and
    [selectedTransfers]. *)
Definition selectTransfersToSend (w : Wallet) (randomGenerator : nat -> nat)
  (neededMoney : Z) (addDust : bool) (dust : Z)
  (selectedTransfers : list TransactionOutputInformation)
  : option (Z * list TransactionOutputInformation) :=
  let outputs := getOutputs_IncludeKeyUnlocked (m_transferDetails w) in
  let '(unusedTransfers, unusedDust) :=
    collect_unused (m_transactionsCache w) dust outputs O [] [] in
  let selectOneDust := addDust && negb (is_empty unusedDust) in
  selectTransfersToSend_loop (S (length unusedTransfers + length unusedDust))
    randomGenerator O outputs neededMoney selectOneDust unusedTransfers unusedDust
    0 selectedTransfers.

Definition sum_outputs (l : list TransactionOutputInformation) : Z :=
  fold_right (fun o acc => td_amount o + acc) 0 l.

(** The positions, counted from [i], of the outputs the cache does not
    flag as used. *)
Fixpoint unused_from (cache : WalletUserTransactionsCache)
  (outputs : list TransactionOutputInformation) (i : nat) : list nat :=
  match outputs with
  | [] => []
  | out :: rest =>
      if negb (isUsed cache out) then i :: unused_from cache rest (S i)
      else unused_from cache rest (S i)
  end.

(** The unlocked outputs the cache does not flag as used. *)
Definition unused_outputs (cache : WalletUserTransactionsCache)
  (outputs : list TransactionOutputInformation)
  : list TransactionOutputInformation :=
  filter (fun o => negb (isUsed cache o)) outputs.

(** ** The orchestrator *)

(** A member function: from the wallet to a result and the wallet it
    leaves, also when it throws. *)
Definition M (A : Type) : Type := Wallet -> result A * Wallet.

Definition ret {A} (a : A) : M A := fun w => (Ok a, w).

Definition bind {A B} (m : M A) (k : A -> M B) : M B :=
  fun w =>
    match m w with
    | (Ok a, w') => k a w'
    | (Throw x, w') => (Throw x, w')
    | (Undefined, w') => (Undefined, w')
    end.

(** A computation that reads the wallet and may throw. *)
Definition lift {A} (f : Wallet -> result A) : M A := fun w => (f w, w).

Definition modify (f : Wallet -> Wallet) : M unit := fun w => (Ok tt, f w).

Notation "x <- c ;; k" := (bind c (fun x => k))
  (at level 61, c at next level, right associativity).
Notation "c ;;; k" := (bind c (fun _ => k))
  (at level 61, right associativity).

(** [notifyBalanceChanged] *)
Definition notifyBalanceChanged (w : Wallet) : Wallet :=
  let cache := m_transactionsCache w in
  let unconfirmedOutsAmount := unconfrimedOutsAmount cache in
  let change := u64 (unconfirmedOutsAmount - unconfirmedTransactionsAmount cache) in
  let actualBalance :=
    u64 (balance_IncludeKeyUnlocked (m_transferDetails w) - unconfirmedOutsAmount) in
  let pendingBalance :=
    u64 (balance_IncludeKeyNotUnlocked (m_transferDetails w) + change) in
  push_back_event
    (push_back_event w (WalletActualBalanceUpdatedEvent actualBalance))
    (WalletPendingBalanceUpdatedEvent pendingBalance).

(** [makeGetRandomOutsRequest] *)
Definition makeGetRandomOutsRequest (context : SendTransactionContext)
  : WalletRequest :=
  let outsCount := u64 (mixIn context + 1) in
  let amounts := map td_amount (selectedTransfers context) in
  WalletGetRandomOutsByAmountsRequest amounts outsCount context.

(** The context is one shared object: [prepareInputs] sorts its [outs]
    in place, and the relay callback is bound to that same object. *)
Definition with_outs (context : SendTransactionContext)
  (outs : list outs_for_amount) : SendTransactionContext :=
  {| transactionId := transactionId context;
     outs := outs;
     foundMoney := foundMoney context;
     selectedTransfers := selectedTransfers context;
     dustPolicy := dustPolicy context;
     mixIn := mixIn context |}.

(** The [try] block of [doSendTransaction]. *)
Definition doSendTransaction_try `{Externals} (context : SendTransactionContext)
  : M WalletRequest :=
  transaction <- lift (fun w => getTransaction (m_transactionsCache w)
                                               (transactionId context)) ;;
  prepared <- lift (fun _ => prepareInputs (selectedTransfers context)
                                           (outs context) [] (mixIn context)) ;;
  let sources := snd prepared in
  let totalAmount := u64 (- totalAmount transaction) in
  keys <- lift (fun w => Ok (m_keys w)) ;;
  let changeDts :=
    createChangeDestinations (m_account_address keys) totalAmount
                             (foundMoney context) AUTO_VAL_INIT_changeDts in
  splittedDests <- lift (fun w =>
    splitDestinations (m_transactionsCache w) (firstTransferId transaction)
                      (transferCount transaction) changeDts (dustPolicy context)) ;;
  tx <- lift (fun w =>
    constructTx keys sources splittedDests (extra transaction)
                (unlockTime transaction) (m_upperTransactionSizeLimit w)) ;;
  modify (fun w => with_cache w
    (set_transaction_hash (m_transactionsCache w) (transactionId context)
                          (get_transaction_hash tx))) ;;;
  modify (fun w => with_cache w
    (updateTransaction (m_transactionsCache w) (transactionId context) tx
                       totalAmount (selectedTransfers context))) ;;;
  modify notifyBalanceChanged ;;;
  ret (WalletRelayTransactionRequest tx (with_outs context (fst prepared))).

(** [doSendTransaction]: [None] is the empty [shared_ptr]. *)
Definition doSendTransaction `{Externals} (context : SendTransactionContext)
  : M (option WalletRequest) :=
  fun w =>
    if m_isStoping w then
      (Ok None, push_complete_event w (transactionId context) (Some TX_CANCELLED))
    else
      match doSendTransaction_try context w with
      | (Ok request, w') => (Ok (Some request), w')
      | (Throw (system_error ec), w') =>
          (Ok None, push_complete_event w' (transactionId context) (Some ec))
      | (Throw std_exception, w') =>
          (Ok None, push_complete_event w' (transactionId context)
                                        (Some INTERNAL_WALLET_ERROR))
      | (Undefined, w') => (Undefined, w')
      end.

(** [makeSendRequest]: returns [transactionId] and the request
    ([None] is the empty [shared_ptr]).  [randomGenerator] is the
    random source of the selector. *)
Definition makeSendRequest `{Externals} (randomGenerator : nat -> nat)
  (transfers : list Transfer) (fee : Z) (extra : string) (mixIn : Z)
  (unlockTimestamp : Z) : M (TransactionId * option WalletRequest) :=
  lift (fun _ => throwIf (is_empty transfers) ZERO_DESTINATION) ;;;
  lift (fun _ => validateTransfersAddresses transfers) ;;;
  neededMoney <- lift (fun _ => countNeededMoney fee transfers) ;;
  selection <- lift (fun w =>
    match selectTransfersToSend w randomGenerator neededMoney (mixIn =? 0)
                                (dustThreshold defaultDustPolicy) [] with
    | Some r => Ok r
    | None => Undefined
    end) ;;
  let foundMoney := fst selection in
  lift (fun _ => throwIf (foundMoney <? neededMoney) WRONG_AMOUNT) ;;;
  transactionId <- (fun w =>
    let (id, cache) := addNewTransaction (m_transactionsCache w) neededMoney fee
                                         extra transfers unlockTimestamp in
    (Ok id, with_cache w cache)) ;;
  let context :=
    {| transactionId := transactionId;
       outs := [];
       foundMoney := foundMoney;
       selectedTransfers := snd selection;
       dustPolicy := defaultDustPolicy;
       mixIn := mixIn |} in
  if negb (mixIn =? 0) then
    ret (transactionId, Some (makeGetRandomOutsRequest context))
  else
    request <- doSendTransaction context ;;
    ret (transactionId, request).

(** [sendTransactionRandomOutsByAmount]: returns [nextRequest]. *)
Definition sendTransactionRandomOutsByAmount `{Externals}
  (context : SendTransactionContext) (ec : error_code) : M (option WalletRequest) :=
  fun w =>
    let ec := if m_isStoping w then Some TX_CANCELLED else ec in
    match ec with
    | Some _ => (Ok None, push_complete_event w (transactionId context) ec)
    | None =>
        if existsb (fun out => Z.of_nat (length (ofa_outs out)) <? mixIn context)
                   (outs context)
        then (Ok None, push_complete_event w (transactionId context)
                                           (Some MIXIN_COUNT_TOO_BIG))
        else doSendTransaction context w
    end.

(** [relayTransactionCallback] *)
Definition relayTransactionCallback (context : SendTransactionContext)
  (ec : error_code) : M unit :=
  fun w =>
    if m_isStoping w then (Ok tt, w)
    else (Ok tt, push_complete_event w (transactionId context) ec).

(** ** The driver *)

(** Modelled from the spec: the external driver of section 5.  It
    holds the requests the sender has emitted and not yet resolved;
    resolving one removes it, runs the continuation bound into it once,
    and keeps the request the continuation hands back, if any. *)
Record System : Type := mkSystem {
  wallet : Wallet;
  requests : list WalletRequest
}.

(** Modelled from the spec: what can happen next, in any order: the
    caller starts a send, raises the stop signal, the node answers the
    [n]-th outstanding request (a decoy fetch or a relay), or the
    transfers container changes. *)
Inductive action : Type :=
| act_send (randomGenerator : nat -> nat) (transfers : list Transfer) (fee : Z)
           (extra : string) (mixIn : Z) (unlockTimestamp : Z)
| act_stop
| act_random_outs (n : nat) (outs : list outs_for_amount) (ec : error_code)
| act_relayed (n : nat) (ec : error_code)
| act_container (transfersContainer : ITransfersContainer).

Fixpoint remove_nth {A} (n : nat) (l : list A) : list A :=
  match l, n with
  | [], _ => []
  | _ :: t, O => t
  | h :: t, S n' => h :: remove_nth n' t
  end.

Definition option_list {A} (o : option A) : list A :=
  match o with Some a => [a] | None => [] end.

Definition with_container (w : Wallet) (c : ITransfersContainer) : Wallet :=
  {| m_transactionsCache := m_transactionsCache w;
     m_isStoping := m_isStoping w;
     m_keys := m_keys w;
     m_transferDetails := c;
     m_upperTransactionSizeLimit := m_upperTransactionSizeLimit w;
     events := events w |}.

(** Modelled from the spec: one step of the system.  An action that
    names no matching outstanding request changes nothing; an
    exception that leaves [makeSendRequest] goes to the caller; [None]
    is undefined behaviour of the source. *)
Definition step `{Externals} (a : action) (s : System) : option System :=
  match a with
  | act_send randomGenerator transfers fee extra mixIn unlockTimestamp =>
      match makeSendRequest randomGenerator transfers fee extra mixIn
                            unlockTimestamp (wallet s) with
      | (Ok (_, request), w') =>
          Some {| wallet := w'; requests := requests s ++ option_list request |}
      | (Throw _, w') => Some {| wallet := w'; requests := requests s |}
      | (Undefined, _) => None
      end
  | act_stop => Some {| wallet := stop (wallet s); requests := requests s |}
  | act_random_outs n outs ec =>
      match nth_error (requests s) n with
      | Some (WalletGetRandomOutsByAmountsRequest _ _ context) =>
          match sendTransactionRandomOutsByAmount (with_outs context outs) ec
                                                  (wallet s) with
          | (Ok nextRequest, w') =>
              Some {| wallet := w';
                      requests := remove_nth n (requests s) ++ option_list nextRequest |}
          | (Throw _, w') =>
              Some {| wallet := w'; requests := remove_nth n (requests s) |}
          | (Undefined, _) => None
          end
      | _ => Some s
      end
  | act_relayed n ec =>
      match nth_error (requests s) n with
      | Some (WalletRelayTransactionRequest _ context) =>
          match relayTransactionCallback context ec (wallet s) with
          | (_, w') => Some {| wallet := w'; requests := remove_nth n (requests s) |}
          end
      | _ => Some s
      end
  | act_container c =>
      Some {| wallet := with_container (wallet s) c; requests := requests s |}
  end.

Fixpoint run `{Externals} (actions : list action) (s : System) : option System :=
  match actions with
  | [] => Some s
  | a :: rest =>
      match step a s with
      | Some s' => run rest s'
      | None => None
      end
  end.

Definition is_completion (id : TransactionId) (e : WalletEvent) : bool :=
  match e with
  | WalletSendTransactionCompletedEvent id' _ => (id' =? id)%nat
  | _ => false
  end.

(** How many completion events for [id] the deque holds. *)
Definition completions (id : TransactionId) (evs : list WalletEvent) : nat :=
  length (filter (is_completion id) evs).

Definition request_id (r : WalletRequest) : TransactionId :=
  match r with
  | WalletGetRandomOutsByAmountsRequest _ _ context => transactionId context
  | WalletRelayTransactionRequest _ context => transactionId context
  end.

(** How many outstanding requests belong to the send [id]. *)
Definition outstanding (id : TransactionId) (rs : list WalletRequest) : nat :=
  length (filter (fun r => (request_id r =? id)%nat) rs).

(** The sending state the cache holds for [id]. *)
Definition sending_state (w : Wallet) (id : TransactionId) : option SendingState :=
  option_map state (nth_error (m_transactions (m_transactionsCache w)) id).

(** The coins some unconfirmed transaction has marked spent. *)
Definition spent_coins (w : Wallet) : list TransactionOutputInformation :=
  flat_map u_usedOutputs (m_unconfirmedTransactions (m_transactionsCache w)).

(** The system around a wallet that has emitted nothing yet. *)
Definition initial (w : Wallet) : System := {| wallet := w; requests := [] |}.

(** What a step of a send with identifier [id] may leave behind: the
    records of the cache stay in place, and among the events it pushes
    and the request it hands back there is exactly one thing of that
    send, a completion event or a request, and nothing of any other. *)
Definition emits (id : TransactionId) (r : option WalletRequest)
  (w w' : Wallet) : Prop :=
  length (m_transactions (m_transactionsCache w'))
  = length (m_transactions (m_transactionsCache w))
  /\ exists evs,
       events w' = events w ++ evs
       /\ forall id',
            (completions id' evs + outstanding id' (option_list r))%nat
            = if (id' =? id)%nat then 1%nat else 0%nat.

(** The invariant of the system: a send is either outstanding, as one
    request, or completed, by one event, never both and never twice;
    identifiers the cache has not handed out yet occur nowhere. *)
Definition at_most_once (s : System) : Prop :=
  forall id,
    (completions id (events (wallet s)) + outstanding id (requests s) <= 1)%nat
    /\ ((length (m_transactions (m_transactionsCache (wallet s))) <= id)%nat ->
        (completions id (events (wallet s)) + outstanding id (requests s))%nat = O).

(** Every outstanding decoy request belongs to a send with a positive
    mixin. *)
Definition decoy_requests_positive (rs : list WalletRequest) : Prop :=
  Forall (fun r => match r with
                   | WalletGetRandomOutsByAmountsRequest _ _ context =>
                       mixIn context <> 0
                   | WalletRelayTransactionRequest _ _ => True
                   end) rs.

(** A decoy response the preparer can index: no sets at all, or one
    for each coin of the send it answers. *)
Definition answers_request (s : System) (a : action) : Prop :=
  match a with
  | act_random_outs n outs _ =>
      forall amounts outsCount context,
        nth_error (requests s) n
        = Some (WalletGetRandomOutsByAmountsRequest amounts outsCount context) ->
        outs = [] \/ (length (selectedTransfers context) <= length outs)%nat
  | _ => True
  end.

(** What the events a call pushes say about the send [id]: the
    completion events among them are all for [id], and the record of
    [id] is finalized with the code each carries. *)
Definition faithful_report (id : TransactionId) (w w' : Wallet) : Prop :=
  exists evs,
    events w' = events w ++ evs
    /\ forall id' ec,
         In (WalletSendTransactionCompletedEvent id' ec) evs ->
         id' = id /\ sending_state w' id = Some (Finalized ec).

(** ** A concrete setting

    An implementation of the collaborators and a wallet, used to run
    the scenarios of the specification. *)

Definition scenarioExternals : Externals :=
  {| parseAccountAddressString :=
       fun s => if String.eqb s String.EmptyString then None else Some s;
     blockGrantedFullRewardZone := 10000;
     minerTxBlobReservedSize := 600;
     construct_tx := fun _ sources dests extra unlock =>
       Some {| tx_sources := sources; tx_destinations := dests;
               tx_extra := extra; tx_unlock_time := unlock |};
     get_object_blobsize := fun tx =>
       100 * Z.of_nat (length (tx_sources tx) + length (tx_destinations tx));
     get_transaction_hash := fun tx => Z.of_nat (length (tx_destinations tx));
     defaultDustPolicy :=
       {| dustThreshold := 0; addToFee := true; addrForDust := String.EmptyString |} |}.

Definition scenarioKeys : account_keys :=
  {| m_account_address := "wallet"%string;
     m_spend_secret_key := 11; m_view_secret_key := 12 |}.

Definition emptyCache : WalletUserTransactionsCache :=
  {| m_transactions := []; m_transfers := []; m_unconfirmedTransactions := [] |}.

Definition coin (amount index : Z) : TransactionOutputInformation :=
  {| td_amount := amount; globalOutputIndex := index; outputInTransaction := 0;
     transactionPublicKey := 100 + index; outputKey := 200 + index |}.

Definition scenarioWallet (coins : list TransactionOutputInformation) : Wallet :=
  @WalletTransactionSender scenarioExternals emptyCache scenarioKeys
    {| getOutputs_IncludeKeyUnlocked := coins;
       balance_IncludeKeyUnlocked := sum_outputs coins;
       balance_IncludeKeyNotUnlocked := 0 |}.

Definition firstIndex : nat -> nat := fun _ => O.

(** The cache of a wallet that has accepted one transfer of 1000 to
    "bob" with fee 10 (scenario A of the specification). *)
Definition scenarioCache : WalletUserTransactionsCache :=
  snd (addNewTransaction emptyCache 1010 10 String.EmptyString
                         [mkTransfer "bob"%string 1000] 0).

(** Four decoys for the amount 70, one of them at the global index 5. *)
Definition scenarioDecoys : list outs_for_amount :=
  [ {| ofa_amount := 70;
       ofa_outs := [ {| global_amount_index := 9; out_key := 209 |};
                     {| global_amount_index := 5; out_key := 205 |};
                     {| global_amount_index := 2; out_key := 202 |};
                     {| global_amount_index := 7; out_key := 207 |} ] |} ].

(** A wallet whose two coins are worth more than [2^64] together. *)
Definition richCoins : list TransactionOutputInformation :=
  [coin 9223372036854775806 1; coin 9223372036854775818 2].

(** Scenario A: a wallet with one coin of 2000 sends 1000 to "bob"
    with fee 10 and no mixin. *)
Definition scenarioA_send : action :=
  act_send firstIndex [mkTransfer "bob"%string 1000] 10 String.EmptyString 0 0.

(** What the send of scenario A returns and the wallet it leaves. *)
Definition scenarioA_sent
  : result (TransactionId * option WalletRequest) * Wallet :=
  makeSendRequest (H := scenarioExternals) firstIndex
    [mkTransfer "bob"%string 1000] 10 String.EmptyString 0 0
    (scenarioWallet [coin 2000 7]).

(** Scenario C: the same send with mixin 5; the node answers with
    three decoys for the one amount. *)
Definition scenarioC_send : action :=
  act_send firstIndex [mkTransfer "bob"%string 1000] 10 String.EmptyString 5 0.

Definition threeDecoys : list outs_for_amount :=
  [ {| ofa_amount := 2000;
       ofa_outs := [ {| global_amount_index := 3; out_key := 203 |};
                     {| global_amount_index := 1; out_key := 201 |};
                     {| global_amount_index := 2; out_key := 202 |} ] |} ].

(** The context of the send of scenario C once the decoys are in. *)
Definition scenarioC_context : SendTransactionContext :=
  {| transactionId := O;
     outs := threeDecoys;
     foundMoney := 2000;
     selectedTransfers := [coin 2000 7];
     dustPolicy := @defaultDustPolicy scenarioExternals;
     mixIn := 5 |}.

(** The wallet of scenario C while the decoy request is outstanding. *)
Definition scenarioC_wallet : Wallet :=
  with_cache (scenarioWallet [coin 2000 7]) scenarioCache.

(** The wallet of scenario A with a size limit of 300 bytes, below the
    size of the transaction the send assembles. *)
Definition tightWallet : Wallet :=
  {| m_transactionsCache := scenarioCache;
     m_isStoping := false;
     m_keys := scenarioKeys;
     m_transferDetails :=
       {| getOutputs_IncludeKeyUnlocked := [coin 2000 7];
          balance_IncludeKeyUnlocked := 2000;
          balance_IncludeKeyNotUnlocked := 0 |};
     m_upperTransactionSizeLimit := 300;
     events := [] |}.

(** The context of the send of scenario A. *)
Definition scenarioA_context : SendTransactionContext :=
  {| transactionId := O;
     outs := [];
     foundMoney := 2000;
     selectedTransfers := [coin 2000 7];
     dustPolicy := @defaultDustPolicy scenarioExternals;
     mixIn := 0 |}.

(** The value the sources of a transaction bring in. *)
Definition sum_sources (l : list tx_source_entry) : Z :=
  fold_right (fun s acc => src_amount s + acc) 0 l.

(** * Properties *)

(** ** Machine integers *)

Lemma two64_val : two64 = 18446744073709551616.
Proof. reflexivity. Qed.

Lemma two63_val : two63 = 9223372036854775808.
Proof. reflexivity. Qed.

Lemma u64_small z : 0 <= z < two64 -> u64 z = z.
Proof. intros Hz. unfold u64. apply Z.mod_small. exact Hz. Qed.

Lemma u64_range z : 0 <= u64 z < two64.
Proof. unfold u64. apply Z.mod_pos_bound. rewrite two64_val. lia. Qed.

Lemma u64_idem z : u64 (u64 z) = u64 z.
Proof. apply u64_small, u64_range. Qed.

Lemma u64_add_l a b : u64 (u64 a + b) = u64 (a + b).
Proof. unfold u64. apply Zplus_mod_idemp_l. Qed.

Lemma to_int64_small z : 0 <= z < two63 -> to_int64 z = z.
Proof.
  intros Hz. unfold to_int64. rewrite two63_val, two64_val in *.
  rewrite Z.mod_small by lia.
  destruct (z <? 9223372036854775808) eqn:E; [reflexivity|].
  apply Z.ltb_ge in E. lia.
Qed.

Lemma to_int64_high z : two63 <= z < two64 -> to_int64 z = z - two64.
Proof.
  intros Hz. unfold to_int64. rewrite two63_val, two64_val in *.
  rewrite Z.mod_small by lia.
  destruct (z <? 9223372036854775808) eqn:E; [|reflexivity].
  apply Z.ltb_lt in E. lia.
Qed.

(** ** The needed money *)

(** One round of the loop on a positive amount: the addition passes
    the overflow test exactly when the exact sum stays below [2^63]. *)
Lemma needed_step_accept n a :
  0 <= n < two64 -> 0 < a < two63 -> n + a < two63 ->
  u64 (n + a) = n + a /\ (to_int64 (u64 (n + a)) <? a) = false.
Proof.
  intros Hn Ha Hs.
  assert (E : u64 (n + a) = n + a).
  { apply u64_small. rewrite two63_val, two64_val in *. lia. }
  split; [exact E|]. rewrite E.
  rewrite to_int64_small by lia.
  apply Z.ltb_ge. lia.
Qed.

Lemma needed_step_reject n a :
  0 <= n < two64 -> 0 < a < two63 -> two63 <= n + a ->
  (to_int64 (u64 (n + a)) <? a) = true.
Proof.
  intros Hn Ha Hs. apply Z.ltb_lt.
  destruct (Z_lt_ge_dec (n + a) two64) as [Hlt|Hge].
  - rewrite u64_small by lia. rewrite to_int64_high by lia.
    rewrite two63_val, two64_val in *. lia.
  - assert (E : u64 (n + a) = n + a - two64).
    { unfold u64. rewrite two63_val, two64_val in *.
      symmetry. apply Z.mod_unique_pos with (q := 1); lia. }
    rewrite E. rewrite two63_val, two64_val in *.
    rewrite to_int64_small by (rewrite two63_val; lia). lia.
Qed.

Lemma sum_amounts_nonneg transfers :
  Forall (fun t => 0 < amount t < two63) transfers -> 0 <= sum_amounts transfers.
Proof.
  induction 1 as [|t rest Ht _ IH]; simpl; lia.
Qed.

Lemma countNeededMoney_loop_spec transfers :
  Forall (fun t => 0 < amount t < two63) transfers ->
  forall n, 0 <= n < two64 ->
    (n + sum_amounts transfers < two63 ->
     countNeededMoney_loop n transfers = Ok (n + sum_amounts transfers))
    /\ (transfers <> [] -> two63 <= n + sum_amounts transfers ->
        countNeededMoney_loop n transfers = Throw (system_error SUM_OVERFLOW)).
Proof.
  induction 1 as [|t rest Ht Hrest IH]; intros n Hn.
  - simpl. split; [intros _; f_equal; lia | intros Hne; contradiction].
  - pose proof (sum_amounts_nonneg rest Hrest) as Hpos.
    assert (E0 : (amount t =? 0) = false) by (apply Z.eqb_neq; lia).
    assert (E1 : (amount t <? 0) = false) by (apply Z.ltb_ge; lia).
    cbn [countNeededMoney_loop sum_amounts fold_right].
    fold (sum_amounts rest). rewrite E0, E1. cbn [throwIf rbind].
    destruct (Z_lt_ge_dec (n + amount t) two63) as [Hlt|Hge].
    + destruct (needed_step_accept n (amount t) Hn Ht Hlt) as [Eu Ec].
      rewrite Ec, Eu. cbn [throwIf rbind].
      assert (Hn' : 0 <= n + amount t < two64)
        by (rewrite two63_val, two64_val in *; lia).
      destruct (IH (n + amount t) Hn') as [IHok IHbad].
      split.
      * intros Hs. rewrite IHok by lia. f_equal. lia.
      * intros _ Hs. apply IHbad; [|lia].
        intros ->. simpl in Hs. lia.
    + rewrite (needed_step_reject n (amount t) Hn Ht) by lia.
      cbn [throwIf rbind]. split; [intros Hs; lia | reflexivity].
Qed.

(** An exception raised while the request is validated leaves
    [makeSendRequest] at once, with the wallet untouched. *)
Lemma makeSendRequest_count_throws `{Externals} rg transfers fee extra mixIn unlock w x :
  transfers <> [] ->
  validateTransfersAddresses transfers = Ok tt ->
  countNeededMoney fee transfers = Throw x ->
  makeSendRequest rg transfers fee extra mixIn unlock w = (Throw x, w).
Proof.
  intros Hne Hval Hcount. unfold makeSendRequest, bind, lift.
  destruct transfers as [|t rest]; [contradiction|].
  cbn [is_empty throwIf]. rewrite Hval, Hcount. reflexivity.
Qed.

(** C7.  For transfers with positive amounts, the needed money that
    [countNeededMoney] returns is exactly the fee plus the sum of the
    amounts, and it returns it whenever that sum is below [2^63]; a
    sum that is not (so every sum that wraps past [2^64]) is rejected
    with [SUM_OVERFLOW], and [makeSendRequest] then throws it for every
    wallet and every random source, leaving the wallet as it was: the
    selector has not run. *)
Theorem countNeededMoney_exact_or_overflow `{Externals}
  (fee : Z) (transfers : list Transfer) :
  0 <= fee < two64 ->
  Forall (fun t => 0 < amount t < two63) transfers ->
  (forall n, countNeededMoney fee transfers = Ok n ->
             n = fee + sum_amounts transfers)
  /\ (fee + sum_amounts transfers < two63 ->
      countNeededMoney fee transfers = Ok (fee + sum_amounts transfers))
  /\ (transfers <> [] -> two63 <= fee + sum_amounts transfers ->
      countNeededMoney fee transfers = Throw (system_error SUM_OVERFLOW))
  /\ (two64 <= fee + sum_amounts transfers ->
      countNeededMoney fee transfers = Throw (system_error SUM_OVERFLOW))
  /\ (validateTransfersAddresses transfers = Ok tt ->
      two64 <= fee + sum_amounts transfers ->
      forall rg extra mixIn unlock w,
        makeSendRequest rg transfers fee extra mixIn unlock w
        = (Throw (system_error SUM_OVERFLOW), w)).
Proof.
  intros Hfee Hpos.
  destruct (countNeededMoney_loop_spec transfers Hpos fee Hfee) as [Hok Hbad].
  assert (Hwrap : two64 <= fee + sum_amounts transfers -> transfers <> []).
  { intros Hs ->. simpl in Hs. lia. }
  assert (H6364 : two63 <= two64) by (rewrite two63_val, two64_val; lia).
  unfold countNeededMoney. repeat split.
  - intros n Hn.
    destruct (Z_lt_ge_dec (fee + sum_amounts transfers) two63) as [Hlt|Hge].
    + rewrite Hok in Hn by exact Hlt. congruence.
    + destruct transfers as [|t rest].
      * simpl in Hn |- *. inversion Hn. lia.
      * rewrite Hbad in Hn by (try discriminate; lia). discriminate.
  - exact Hok.
  - exact Hbad.
  - intros Hs. apply Hbad; [auto | lia].
  - intros Hval Hs rg extra mixIn unlock w.
    apply makeSendRequest_count_throws; [auto | exact Hval |].
    unfold countNeededMoney. apply Hbad; [auto | lia].
Qed.

Lemma countNeededMoney_exact_or_overflow_witness :
  countNeededMoney 10 [mkTransfer "bob"%string 1000] = Ok (10 + 1000)
  /\ forall w,
       makeSendRequest (H := scenarioExternals) firstIndex
         [mkTransfer "bob"%string 9223372036854775807;
          mkTransfer "carol"%string 9223372036854775807]
         2 String.EmptyString 0 0 w
       = (Throw (system_error SUM_OVERFLOW), w).
Proof.
  split.
  - apply (countNeededMoney_exact_or_overflow (H := scenarioExternals) 10
             [mkTransfer "bob"%string 1000]).
    + rewrite two64_val. lia.
    + repeat constructor; simpl; rewrite two63_val; lia.
    + simpl. rewrite two63_val. lia.
  - intros w.
    apply (countNeededMoney_exact_or_overflow (H := scenarioExternals) 2
             [mkTransfer "bob"%string 9223372036854775807;
              mkTransfer "carol"%string 9223372036854775807]).
    + rewrite two64_val. lia.
    + repeat constructor; simpl; rewrite two63_val; lia.
    + reflexivity.
    + simpl. rewrite two64_val. lia.
Defined.

(** ** The denomination splitter *)

Lemma sum_calls_app a b : sum_calls (a ++ b) = sum_calls a + sum_calls b.
Proof. induction a as [|c a IH]; simpl; [reflexivity | rewrite IH; lia]. Qed.

Lemma sum_dsts_app a b : sum_dsts (a ++ b) = sum_dsts a + sum_dsts b.
Proof. induction a as [|c a IH]; simpl; [reflexivity | rewrite IH; lia]. Qed.

Lemma decompose_loop_S fuel amount order dust handled thr :
  decompose_loop (S fuel) amount order dust handled thr =
  if amount =? 0 then
    if negb handled && negb (dust =? 0) then [dust_handler dust] else []
  else
    if dust + (amount mod 10) * order <=? thr then
      decompose_loop fuel (amount / 10) (order * 10)
                     (dust + (amount mod 10) * order) handled thr
    else
      (if negb handled && negb (dust =? 0) then [dust_handler dust] else [])
      ++ (if (amount mod 10) * order =? 0 then []
          else [chunk_handler ((amount mod 10) * order)])
      ++ decompose_loop fuel (amount / 10) (order * 10) dust
                        (handled || negb (dust =? 0)) thr.
Proof. reflexivity. Qed.

Lemma tenth_below_pow2 amount k :
  0 < amount < 2 ^ Z.of_nat (S k) -> 0 <= amount / 10 < 2 ^ Z.of_nat k.
Proof.
  intros Ha. rewrite Nat2Z.inj_succ, Z.pow_succ_r in Ha by lia.
  assert (0 < 2 ^ Z.of_nat k) by (apply Z.pow_pos_nonneg; lia).
  split.
  - apply Z.div_pos; lia.
  - apply Z.div_lt_upper_bound; lia.
Qed.

(** Conservation through the loop: with fuel for every digit, the
    calls carry the rest of the amount, at its order, and the pending
    remainder.  Once the remainder has been handed over, no chunk can
    fit under the threshold any more. *)
Lemma decompose_loop_sum k :
  forall amount order dust handled thr,
    0 <= amount < 2 ^ Z.of_nat k -> 0 < order ->
    (handled = true -> thr < dust + order) ->
    sum_calls (decompose_loop (S k) amount order dust handled thr)
    = amount * order + (if handled then 0 else dust).
Proof.
  induction k as [|k IH]; intros amount order dust handled thr Ha Ho Hh;
    rewrite decompose_loop_S.
  - assert (amount = 0) by (simpl in Ha; lia). subst amount. simpl.
    destruct handled; simpl; [reflexivity|].
    destruct (dust =? 0) eqn:E; simpl; [apply Z.eqb_eq in E|]; lia.
  - destruct (amount =? 0) eqn:Ea.
    + apply Z.eqb_eq in Ea. subst amount.
      destruct handled; simpl; [reflexivity|].
      destruct (dust =? 0) eqn:E; simpl; [apply Z.eqb_eq in E|]; lia.
    + apply Z.eqb_neq in Ea.
      assert (Ha' : 0 <= amount / 10 < 2 ^ Z.of_nat k)
        by (apply tenth_below_pow2; lia).
      pose proof (Z.div_mod amount 10 ltac:(lia)) as Hdm.
      pose proof (Z.mod_pos_bound amount 10 ltac:(lia)) as Hm.
      set (m := amount mod 10) in *. set (q := amount / 10) in *.
      clearbody m q.
      destruct (dust + m * order <=? thr) eqn:Et.
      * apply Z.leb_le in Et.
        rewrite IH; [| exact Ha' | lia | intros Hhandled; specialize (Hh Hhandled); nia].
        destruct handled.
        -- specialize (Hh eq_refl).
           assert (m = 0) by nia. subst amount. nia.
        -- subst amount. nia.
      * apply Z.leb_gt in Et.
        rewrite !sum_calls_app.
        rewrite IH; [| exact Ha' | lia | intros _; nia].
        assert (Hc : sum_calls (if m * order =? 0 then []
                                else [chunk_handler (m * order)]) = m * order).
        { destruct (m * order =? 0) eqn:Ec; simpl; [apply Z.eqb_eq in Ec|]; lia. }
        rewrite Hc.
        destruct handled; simpl.
        -- subst amount. nia.
        -- destruct (dust =? 0) eqn:E; simpl;
             [apply Z.eqb_eq in E|]; subst amount; nia.
Qed.

Lemma log2_fuel amount :
  0 < amount -> 0 <= amount < 2 ^ Z.of_nat (S (Z.to_nat (Z.log2 amount))).
Proof.
  intros Ha. split; [lia|].
  rewrite Nat2Z.inj_succ, Z2Nat.id by apply Z.log2_nonneg.
  apply Z.log2_spec. exact Ha.
Qed.

(** Modelled decomposition: the calls add up to the amount. *)
Lemma decompose_amount_into_digits_sum amount thr :
  0 <= amount -> sum_calls (decompose_amount_into_digits amount thr) = amount.
Proof.
  intros Ha. unfold decompose_amount_into_digits.
  destruct (amount =? 0) eqn:E.
  - apply Z.eqb_eq in E. subst. reflexivity.
  - apply Z.eqb_neq in E.
    rewrite decompose_loop_sum; [lia | apply log2_fuel; lia | lia | discriminate].
Qed.

(** The dust handler is called at most once, never after the
    remainder has been handed over, and with a remainder within the
    threshold. *)
Lemma decompose_loop_dust fuel :
  forall amount order dust handled thr,
    dust <= thr ->
    (length (filter is_dust_call (decompose_loop fuel amount order dust handled thr))
     <= (if handled then 0 else 1))%nat
    /\ Forall (fun c => is_dust_call c = true -> call_amount c <= thr /\ call_amount c <> 0)
              (decompose_loop fuel amount order dust handled thr).
Proof.
  induction fuel as [|fuel IH]; intros amount order dust handled thr Hd.
  - simpl. split; [destruct handled; lia | constructor].
  - rewrite decompose_loop_S.
    assert (Hfin :
      (length (filter is_dust_call
         (if negb handled && negb (dust =? 0)%Z then [dust_handler dust] else []))
       <= (if handled then 0 else 1))%nat
      /\ Forall (fun c => is_dust_call c = true -> call_amount c <= thr /\ call_amount c <> 0)
           (if negb handled && negb (dust =? 0) then [dust_handler dust] else [])).
    { destruct handled; simpl; [split; [lia | constructor]|].
      destruct (dust =? 0) eqn:E; simpl; [split; [lia | constructor]|].
      apply Z.eqb_neq in E. split; [lia|].
      constructor; [|constructor]. simpl. intros _. split; assumption. }
    destruct (amount =? 0); [exact Hfin|].
    destruct (dust + amount mod 10 * order <=? thr) eqn:Et.
    + apply Z.leb_le in Et. apply IH. exact Et.
    + destruct (IH (amount / 10) (order * 10) dust (handled || negb (dust =? 0)) thr Hd)
        as [IHn IHf].
      destruct Hfin as [Hn Hf].
      split.
      * rewrite !filter_app, !length_app.
        assert (length (filter is_dust_call
                  (if (amount mod 10 * order =? 0)%Z then []
                   else [chunk_handler (amount mod 10 * order)%Z])) = 0)%nat
          by (destruct (amount mod 10 * order =? 0); reflexivity).
        destruct handled; simpl in *; [lia|].
        destruct (dust =? 0); simpl in *; lia.
      * apply Forall_app. split; [exact Hf|].
        apply Forall_app. split; [|exact IHf].
        destruct (amount mod 10 * order =? 0); repeat constructor; discriminate.
Qed.

Lemma decompose_amount_into_digits_dust amount thr :
  0 <= thr ->
  (length (filter is_dust_call (decompose_amount_into_digits amount thr)) <= 1)%nat
  /\ Forall (fun c => is_dust_call c = true -> call_amount c <= thr /\ call_amount c <> 0)
            (decompose_amount_into_digits amount thr).
Proof.
  intros Ht. unfold decompose_amount_into_digits.
  destruct (amount =? 0); [split; [simpl; lia | constructor]|].
  apply (decompose_loop_dust _ amount 1 0 false thr Ht).
Qed.

(** The handlers of a transfer push one entry per call. *)
Lemma fold_transfer_handlers a calls :
  forall dsts,
    fold_left (transfer_handlers a) calls dsts
    = dsts ++ map (fun c => {| dst_amount := call_amount c; addr := a |}) calls.
Proof.
  induction calls as [|c calls IH]; intros dsts; simpl.
  - now rewrite app_nil_r.
  - rewrite IH. destruct c; simpl; now rewrite <- app_assoc.
Qed.

Lemma sum_dsts_map_calls a calls :
  sum_dsts (map (fun c => {| dst_amount := call_amount c; addr := a |}) calls)
  = sum_calls calls.
Proof. induction calls as [|c calls IH]; simpl; [reflexivity | now rewrite IH]. Qed.

(** The handlers of the change push the chunks and keep the dust
    apart; with at most one dust call nothing is overwritten. *)
Lemma fold_change_handlers a thr calls :
  forall dsts dust,
    Forall (fun c => is_dust_call c = true -> call_amount c <= thr /\ call_amount c <> 0) calls ->
    (length (filter is_dust_call calls) <= (if (dust =? 0)%Z then 1 else 0))%nat ->
    exists part,
      fst (fold_left (change_handlers a) calls (dsts, dust)) = dsts ++ part
      /\ Forall (fun d => addr d = a) part
      /\ sum_dsts part + snd (fold_left (change_handlers a) calls (dsts, dust))
         = dust + sum_calls calls
      /\ (snd (fold_left (change_handlers a) calls (dsts, dust)) = dust
          \/ snd (fold_left (change_handlers a) calls (dsts, dust)) <= thr).
Proof.
  induction calls as [|c calls IH]; intros dsts dust Hall Hn.
  - exists []. simpl. rewrite app_nil_r. repeat split; auto. lia.
  - inversion Hall as [|? ? Hc Hrest]; subst. destruct c as [chunk|d]; simpl in *.
    + destruct (IH (dsts ++ [{| dst_amount := chunk; addr := a |}]) dust Hrest Hn)
        as (part & Hfst & Haddr & Hsum & Hsnd).
      exists ({| dst_amount := chunk; addr := a |} :: part).
      rewrite Hfst, <- app_assoc. simpl. repeat split; auto. lia.
    + destruct (Hc eq_refl) as [Hle Hnz].
      destruct (dust =? 0) eqn:Ed; [apply Z.eqb_eq in Ed; subst dust | lia].
      assert (Hn' : (length (filter is_dust_call calls) <= (if (d =? 0)%Z then 1 else 0))%nat).
      { destruct (d =? 0) eqn:E; [apply Z.eqb_eq in E; contradiction | lia]. }
      destruct (IH dsts d Hrest Hn') as (part & Hfst & Haddr & Hsum & Hsnd).
      exists part. repeat split; auto.
      right. destruct Hsnd as [-> | Hle']; lia.
Qed.

Lemma skipn_nth_error {A} (l : list A) :
  forall i x, nth_error l i = Some x -> skipn i l = x :: skipn (S i) l.
Proof.
  induction l as [|h t IH]; intros [|i] x Hx; simpl in *; try discriminate.
  - now inversion Hx.
  - now apply IH.
Qed.

Lemma transfers_from_cons cache idx count tr :
  nth_error (m_transfers cache) idx = Some tr ->
  transfers_from cache idx (S count) = tr :: transfers_from cache (S idx) count.
Proof.
  intros Htr. unfold transfers_from.
  now rewrite (skipn_nth_error _ _ _ Htr).
Qed.

Lemma digitSplitStrategy_transfers_parts `{Externals} cache thr count :
  forall idx acc out,
    digitSplitStrategy_transfers cache idx count thr acc = Ok out ->
    exists parts,
      out = acc ++ concat parts
      /\ Forall2 (transfer_part thr) (transfers_from cache idx count) parts
      /\ length parts = count.
Proof.
  induction count as [|count IH]; intros idx acc out Hrun.
  - simpl in Hrun. inversion Hrun; subst. exists []. simpl.
    rewrite app_nil_r. repeat split. unfold transfers_from. simpl. constructor.
  - cbn [digitSplitStrategy_transfers] in Hrun. unfold getTransfer in Hrun.
    destruct (nth_error (m_transfers cache) idx) as [de|] eqn:Hde;
      [|discriminate].
    cbn [rbind] in Hrun.
    destruct (parseAccountAddressString (address de)) as [a|] eqn:Ha;
      [|discriminate].
    apply IH in Hrun. destruct Hrun as (parts & Hout & Hparts & Hlen).
    rewrite fold_transfer_handlers in Hout.
    exists (map (fun c => {| dst_amount := call_amount c; addr := a |})
                (decompose_amount_into_digits (u64 (amount de)) thr) :: parts).
    rewrite (transfers_from_cons _ _ _ _ Hde). simpl.
    repeat split.
    + rewrite Hout, <- app_assoc. reflexivity.
    + constructor; [|exact Hparts]. exists a. split; [exact Ha | reflexivity].
    + now rewrite Hlen.
Qed.

(** The splitter returns: over a transfer range that lies in the cache
    and whose addresses parse, [digitSplitStrategy] yields a result. *)
Lemma digitSplitStrategy_transfers_returns `{Externals} cache thr count :
  forall idx acc,
    length (transfers_from cache idx count) = count ->
    Forall (fun tr => validateDestinationAddress (address tr) = true)
           (transfers_from cache idx count) ->
    exists out, digitSplitStrategy_transfers cache idx count thr acc = Ok out.
Proof.
  induction count as [|count IH]; intros idx acc Hlen Hval.
  - exists acc. reflexivity.
  - cbn [digitSplitStrategy_transfers]. unfold getTransfer.
    destruct (nth_error (m_transfers cache) idx) as [de|] eqn:Hde.
    + rewrite (transfers_from_cons _ _ _ _ Hde) in Hlen, Hval.
      inversion Hval as [|? ? Hv Hrest]; subst. simpl in Hlen.
      unfold validateDestinationAddress in Hv. cbn [rbind].
      destruct (parseAccountAddressString (address de)); [|discriminate].
      apply IH; [lia | exact Hrest].
    + exfalso. apply nth_error_None in Hde.
      unfold transfers_from in Hlen. rewrite skipn_all2 in Hlen by exact Hde.
      rewrite firstn_nil in Hlen. discriminate.
Qed.

(** The sum of the loop condition: at most [count] rounds, exactly
    [count] when the sum does not wrap, none when it does. *)
Lemma transfer_rounds_le first count : (transfer_rounds first count <= count)%nat.
Proof.
  unfold transfer_rounds, size_t_add, u64.
  assert (H0 : 0 <= Z.of_nat first + Z.of_nat count) by lia.
  assert (HM : 0 < two64) by (rewrite two64_val; lia).
  pose proof (Z.mod_le _ two64 H0 HM) as Hle.
  pose proof (Z.mod_pos_bound (Z.of_nat first + Z.of_nat count) two64 HM) as Hb.
  lia.
Qed.

Lemma transfer_rounds_no_wrap first count :
  Z.of_nat first + Z.of_nat count < two64 -> transfer_rounds first count = count.
Proof.
  intros Hlt. unfold transfer_rounds, size_t_add, u64.
  rewrite Z.mod_small by lia. lia.
Qed.

Lemma transfer_rounds_wrap first count :
  Z.of_nat count < two64 ->
  two64 <= Z.of_nat first + Z.of_nat count ->
  transfer_rounds first count = O.
Proof.
  intros Hc Hwrap. unfold transfer_rounds, size_t_add, u64.
  assert (HM : 0 < two64) by (rewrite two64_val; lia).
  pose proof (Z.mod_pos_bound (Z.of_nat first + Z.of_nat count) two64 HM) as Hb.
  destruct (Z_lt_ge_dec (Z.of_nat first) two64) as [Hf|Hf]; [|lia].
  assert (Hm : (Z.of_nat first + Z.of_nat count) mod two64
               = Z.of_nat first + Z.of_nat count - two64).
  { symmetry. apply Z.mod_unique with (q := 1); lia. }
  lia.
Qed.

Lemma digitSplitStrategy_returns `{Externals} cache first count change thr :
  length (transfer_range cache first count) = transfer_rounds first count ->
  Forall (fun tr => validateDestinationAddress (address tr) = true)
         (transfer_range cache first count) ->
  exists r, digitSplitStrategy cache first count change thr = Ok r.
Proof.
  intros Hlen Hval. unfold digitSplitStrategy.
  destruct (digitSplitStrategy_transfers_returns cache thr
              (transfer_rounds first count) first [] Hlen Hval) as [out Hout].
  rewrite Hout. cbn [rbind]. eexists. reflexivity.
Qed.

Lemma transfer_part_sum `{Externals} thr tr part :
  transfer_part thr tr part ->
  sum_dsts part = u64 (amount tr)
  /\ Forall (fun d => parseAccountAddressString (address tr) = Some (addr d)) part.
Proof.
  intros (a & Ha & ->). split.
  - rewrite sum_dsts_map_calls. apply decompose_amount_into_digits_sum.
    apply u64_range.
  - apply Forall_forall. intros d Hd. apply in_map_iff in Hd.
    destruct Hd as (c & <- & _). exact Ha.
Qed.

Lemma sum_dsts_concat `{Externals} thr trs parts :
  Forall2 (transfer_part thr) trs parts ->
  sum_dsts (concat parts) = fold_right (fun tr acc => u64 (amount tr) + acc) 0 trs.
Proof.
  induction 1 as [|tr part trs parts Hp _ IH]; simpl; [reflexivity|].
  rewrite sum_dsts_app, IH. destruct (transfer_part_sum _ _ _ Hp) as [-> _].
  reflexivity.
Qed.

Lemma decompose_loop_nonneg fuel :
  forall amount order dust handled thr,
    0 <= amount -> 0 <= order -> 0 <= dust ->
    Forall (fun c => 0 <= call_amount c)
           (decompose_loop fuel amount order dust handled thr).
Proof.
  induction fuel as [|fuel IH]; intros amount order dust handled thr Ha Ho Hd.
  - constructor.
  - rewrite decompose_loop_S.
    assert (Hfin : Forall (fun c => 0 <= call_amount c)
              (if negb handled && negb (dust =? 0) then [dust_handler dust] else [])).
    { destruct (negb handled && negb (dust =? 0)); repeat constructor. exact Hd. }
    pose proof (Z.mod_pos_bound amount 10 ltac:(lia)) as Hm.
    assert (Hq : 0 <= amount / 10) by (apply Z.div_pos; lia).
    destruct (amount =? 0); [exact Hfin|].
    destruct (dust + amount mod 10 * order <=? thr).
    + apply IH; nia.
    + apply Forall_app. split; [exact Hfin|]. apply Forall_app. split.
      * destruct (amount mod 10 * order =? 0); repeat constructor. simpl. nia.
      * apply IH; nia.
Qed.

Lemma decompose_amount_into_digits_nonneg amount thr :
  0 <= amount ->
  Forall (fun c => 0 <= call_amount c) (decompose_amount_into_digits amount thr).
Proof.
  intros Ha. unfold decompose_amount_into_digits.
  destruct (amount =? 0); [constructor|].
  apply decompose_loop_nonneg; lia.
Qed.

Lemma fold_change_handlers_nonneg a calls :
  forall st,
    Forall (fun c => 0 <= call_amount c) calls -> 0 <= snd st ->
    0 <= snd (fold_left (change_handlers a) calls st).
Proof.
  induction calls as [|c calls IH]; intros st Hall Hst; simpl; [exact Hst|].
  inversion Hall as [|? ? Hc Hrest]; subst.
  apply IH; [exact Hrest|]. destruct c; simpl in *; assumption.
Qed.

(** [digitSplitStrategy] in two steps: the entries of the loop over the
    transfers, then the chunks of the change behind them, the dust
    kept apart. *)
Lemma digitSplitStrategy_inv `{Externals} cache first count change thr dsts dust :
  0 <= thr ->
  digitSplitStrategy cache first count change thr = Ok (dsts, dust) ->
  exists transfer_dsts change_part,
    digitSplitStrategy_transfers cache first (transfer_rounds first count) thr []
    = Ok transfer_dsts
    /\ dsts = transfer_dsts ++ change_part
    /\ Forall (fun d => addr d = addr change) change_part
    /\ sum_dsts change_part + dust
       = sum_calls (decompose_amount_into_digits (dst_amount change) thr)
    /\ (dust = 0 \/ dust <= thr)
    /\ (0 <= dst_amount change -> 0 <= dust)
    /\ (dst_amount change = 0 -> change_part = [] /\ dust = 0).
Proof.
  intros Hthr Hrun. unfold digitSplitStrategy in Hrun.
  destruct (digitSplitStrategy_transfers cache first (transfer_rounds first count)
                                         thr []) as [out| |] eqn:Ht;
    try discriminate.
  cbn [rbind] in Hrun.
  destruct (decompose_amount_into_digits_dust (dst_amount change) thr Hthr)
    as [Hn Hall].
  destruct (fold_change_handlers (addr change) thr _ out 0 Hall Hn)
    as (part & Hfst & Haddr & Hsum & Hsnd).
  inversion Hrun as [Hr].
  assert (Hnn : 0 <= dst_amount change -> 0 <= dust).
  { intros Hchange.
    assert (Hd : dust = snd (fold_left (change_handlers (addr change))
                   (decompose_amount_into_digits (dst_amount change) thr) (out, 0)))
      by (rewrite Hr; reflexivity).
    rewrite Hd. apply fold_change_handlers_nonneg; [|simpl; lia].
    apply decompose_amount_into_digits_nonneg. exact Hchange. }
  assert (Hzero : dst_amount change = 0 -> part = [] /\ dust = 0).
  { intros Hz. rewrite Hz in Hr, Hfst. simpl in Hr, Hfst. inversion Hr; subst.
    split; [|reflexivity].
    apply (app_inv_head dsts). rewrite app_nil_r. symmetry. exact Hfst. }
  rewrite Hr in Hfst, Hsum, Hsnd. simpl in *.
  exists out, part.
  split; [reflexivity|]. split; [exact Hfst|]. split; [exact Haddr|].
  split; [lia|]. split; [exact Hsnd|]. split; [exact Hnn | exact Hzero].
Qed.

(** The change of [digitSplitStrategy]: its chunks follow the transfer
    entries, and the dust stays apart. *)
Lemma digitSplitStrategy_change `{Externals} cache first count change thr dsts dust :
  0 <= thr ->
  digitSplitStrategy cache first count change thr = Ok (dsts, dust) ->
  exists parts change_part,
    dsts = concat parts ++ change_part
    /\ Forall2 (transfer_part thr) (transfer_range cache first count) parts
    /\ length parts = transfer_rounds first count
    /\ Forall (fun d => addr d = addr change) change_part
    /\ sum_dsts change_part + dust
       = sum_calls (decompose_amount_into_digits (dst_amount change) thr)
    /\ (dust = 0 \/ dust <= thr).
Proof.
  intros Hthr Hrun.
  destruct (digitSplitStrategy_inv _ _ _ _ _ _ _ Hthr Hrun)
    as (out & part & Ht & Hdsts & Haddr & Hsum & Hsnd & _).
  apply digitSplitStrategy_transfers_parts in Ht.
  destruct Ht as (parts & Hout & Hparts & Hlen). simpl in Hout.
  exists parts, part.
  split; [now rewrite Hdsts, Hout|].
  split; [exact Hparts|]. split; [exact Hlen|]. split; [exact Haddr|].
  split; [exact Hsum | exact Hsnd].
Qed.

(** C2.  For the transfer range and the change entry that
    [digitSplitStrategy] decomposes, the destination entries fall into
    one part per transfer, in order, followed by the part of the
    change.  The amounts of a transfer's part add up to that
    transfer's amount; the amounts of the change's part plus the
    returned dust add up to the change amount.  Hence the whole list
    plus the dust carries exactly the value that went in.  There is a
    part for each round of the loop: for each of the [count] transfers
    when the bound of the range fits a [size_t], for none when it
    wraps, the range then being empty. *)
Theorem digitSplitStrategy_conservation `{Externals}
  cache first count change thr dsts dust :
  0 <= thr -> 0 <= dst_amount change ->
  digitSplitStrategy cache first count change thr = Ok (dsts, dust) ->
  exists parts change_part,
    dsts = concat parts ++ change_part
    /\ length parts = transfer_rounds first count
    /\ (Z.of_nat first + Z.of_nat count < two64 -> length parts = count)
    /\ Forall2 (fun tr part =>
                  sum_dsts part = u64 (amount tr)
                  /\ (0 <= amount tr < two64 -> sum_dsts part = amount tr))
               (transfer_range cache first count) parts
    /\ sum_dsts change_part + dust = dst_amount change
    /\ sum_dsts dsts + dust
       = fold_right (fun tr acc => u64 (amount tr) + acc) 0
                    (transfer_range cache first count)
         + dst_amount change.
Proof.
  intros Hthr Hchange Hrun.
  destruct (digitSplitStrategy_change _ _ _ _ _ _ _ Hthr Hrun)
    as (parts & part & Hdsts & Hparts & Hlen & _ & Hsum & _).
  rewrite decompose_amount_into_digits_sum in Hsum by exact Hchange.
  exists parts, part. split; [exact Hdsts|]. split; [exact Hlen|]. split.
  { intros Hfit. rewrite Hlen. apply transfer_rounds_no_wrap. exact Hfit. }
  split; [|split; [exact Hsum|]].
  - clear - Hparts. induction Hparts as [|tr p trs ps Hp _ IH]; constructor; auto.
    destruct (transfer_part_sum _ _ _ Hp) as [Hs _]. split; [exact Hs|].
    intros Hr. rewrite Hs. apply u64_small. exact Hr.
  - rewrite Hdsts, sum_dsts_app, (sum_dsts_concat _ _ _ Hparts). lia.
Qed.

Lemma digitSplitStrategy_conservation_witness :
  exists dsts dust,
    digitSplitStrategy (H := scenarioExternals) scenarioCache 0%nat 1%nat
      {| dst_amount := 123456; addr := "wallet"%string |} 1000 = Ok (dsts, dust)
    /\ dust = 456
    /\ sum_dsts dsts + dust = 1000 + 123456.
Proof.
  eexists. eexists. split; [vm_compute; reflexivity|]. split; [reflexivity|].
  destruct (digitSplitStrategy_conservation (H := scenarioExternals) scenarioCache 0%nat 1%nat
              {| dst_amount := 123456; addr := "wallet"%string |} 1000
              _ 456 ltac:(lia) ltac:(simpl; lia) eq_refl)
    as (parts & part & _ & _ & _ & _ & _ & Htotal).
  exact Htotal.
Defined.

Lemma splitDestinations_dust_ok policy dsts dust :
  dust <= dustThreshold policy ->
  splitDestinations_dust policy dsts dust
  = Ok (if negb (dust =? 0) && negb (addToFee policy)
        then dsts ++ [ {| dst_amount := dust; addr := addrForDust policy |} ]
        else dsts).
Proof.
  intros Hle. unfold splitDestinations_dust.
  assert (E : (dustThreshold policy <? dust) = false) by (apply Z.ltb_ge; lia).
  rewrite E. cbn [throwIf rbind].
  destruct (negb (dust =? 0) && negb (addToFee policy)); reflexivity.
Qed.

Lemma splitDestinations_dust_throws policy dsts dust :
  dustThreshold policy < dust ->
  splitDestinations_dust policy dsts dust = Throw (system_error INTERNAL_WALLET_ERROR).
Proof.
  intros Hlt. unfold splitDestinations_dust.
  assert (E : (dustThreshold policy <? dust) = true) by (apply Z.ltb_lt; lia).
  rewrite E. reflexivity.
Qed.

(** C3, as the code has it.  The dust [digitSplitStrategy] returns is
    at most the dust threshold (it may equal it), so
    [splitDestinations] passes its check and disposes of the dust by
    the policy.  The check itself is the bound: whatever destinations
    and dust it is given, [splitDestinations] raises
    [INTERNAL_WALLET_ERROR] when the dust exceeds the threshold, and
    returns only when it does not. *)
Theorem splitDestinations_dust_at_most_threshold `{Externals}
  cache first count change policy :
  0 <= dustThreshold policy ->
  (forall dsts dust,
      digitSplitStrategy cache first count change (dustThreshold policy)
      = Ok (dsts, dust) ->
      dust <= dustThreshold policy
      /\ splitDestinations cache first count change policy
         = Ok (if negb (dust =? 0) && negb (addToFee policy)
               then dsts ++ [ {| dst_amount := dust; addr := addrForDust policy |} ]
               else dsts))
  /\ (forall dsts dust,
         dustThreshold policy < dust ->
         splitDestinations_dust policy dsts dust
         = Throw (system_error INTERNAL_WALLET_ERROR))
  /\ (forall dsts dust out,
         splitDestinations_dust policy dsts dust = Ok out ->
         dust <= dustThreshold policy).
Proof.
  intros Hthr. split; [|split].
  - intros dsts dust Hrun.
    assert (Hle : dust <= dustThreshold policy).
    { destruct (digitSplitStrategy_change _ _ _ _ _ _ _ Hthr Hrun)
        as (_ & _ & _ & _ & _ & _ & _ & [-> | Hle]); lia. }
    split; [exact Hle|].
    unfold splitDestinations. rewrite Hrun. cbn [rbind fst snd].
    apply splitDestinations_dust_ok. exact Hle.
  - intros dsts dust. apply splitDestinations_dust_throws.
  - intros dsts dust out Hout.
    destruct (Z_lt_ge_dec (dustThreshold policy) dust) as [Hlt|Hge]; [|lia].
    rewrite splitDestinations_dust_throws in Hout by exact Hlt. discriminate.
Qed.

Lemma splitDestinations_dust_at_most_threshold_witness :
  splitDestinations (H := scenarioExternals) scenarioCache 0%nat 1%nat
    {| dst_amount := 5; addr := "wallet"%string |}
    {| dustThreshold := 5; addToFee := false; addrForDust := "dust"%string |}
  = Ok [ {| dst_amount := 1000; addr := "bob"%string |};
         {| dst_amount := 5; addr := "dust"%string |} ]
  /\ splitDestinations_dust
       {| dustThreshold := 5; addToFee := false; addrForDust := "dust"%string |}
       [] 6
     = Throw (system_error INTERNAL_WALLET_ERROR).
Proof.
  pose proof (splitDestinations_dust_at_most_threshold (H := scenarioExternals)
                scenarioCache 0%nat 1%nat
                {| dst_amount := 5; addr := "wallet"%string |}
                {| dustThreshold := 5; addToFee := false; addrForDust := "dust"%string |}
                ltac:(simpl; lia)) as (Hsplit & Hthrow & _).
  split.
  - exact (proj2 (Hsplit [ {| dst_amount := 1000; addr := "bob"%string |} ] 5 eq_refl)).
  - apply Hthrow. simpl. lia.
Defined.

(** C3 as stated fails: the leftover dust is not always strictly below
    the threshold.  In scenario A (dust threshold 0, change 990) the
    dust is 0, which is not below the threshold 0, and the send goes
    on. *)
Lemma leftover_dust_not_below_threshold :
  exists dsts dust,
    digitSplitStrategy (H := scenarioExternals) scenarioCache 0%nat 1%nat
      {| dst_amount := 990; addr := "wallet"%string |} 0 = Ok (dsts, dust)
    /\ ~ dust < 0
    /\ splitDestinations (H := scenarioExternals) scenarioCache 0%nat 1%nat
         {| dst_amount := 990; addr := "wallet"%string |}
         {| dustThreshold := 0; addToFee := true; addrForDust := String.EmptyString |}
       = Ok dsts.
Proof.
  eexists. eexists. split; [vm_compute; reflexivity|].
  split; [lia | vm_compute; reflexivity].
Qed.

(** ** The change *)

Lemma doSendTransaction_try_destinations `{Externals} context w request w' :
  doSendTransaction_try context w = (Ok request, w') ->
  exists transaction prepared splittedDests tx,
    getTransaction (m_transactionsCache w) (transactionId context) = Ok transaction
    /\ prepareInputs (selectedTransfers context) (outs context) [] (mixIn context)
       = Ok prepared
    /\ splitDestinations (m_transactionsCache w) (firstTransferId transaction)
         (transferCount transaction)
         (createChangeDestinations (m_account_address (m_keys w))
            (u64 (- totalAmount transaction)) (foundMoney context)
            AUTO_VAL_INIT_changeDts)
         (dustPolicy context) = Ok splittedDests
    /\ constructTx (m_keys w) (snd prepared) splittedDests (extra transaction)
         (unlockTime transaction) (m_upperTransactionSizeLimit w) = Ok tx
    /\ request = WalletRelayTransactionRequest tx (with_outs context (fst prepared)).
Proof.
  unfold doSendTransaction_try, bind, lift, modify, ret. intros Hrun.
  destruct (getTransaction (m_transactionsCache w) (transactionId context))
    as [transaction| |]; try discriminate.
  destruct (prepareInputs (selectedTransfers context) (outs context) []
                          (mixIn context)) as [prepared| |]; try discriminate.
  destruct (splitDestinations _ _ _ _ _) as [splittedDests| |] eqn:Hsplit;
    try discriminate.
  destruct (constructTx _ _ _ _ _ _) as [tx| |] eqn:Htx; try discriminate.
  inversion Hrun; subst.
  exists transaction, prepared, splittedDests, tx. repeat split; auto.
Qed.



(** ** The input preparer *)

Lemma Forall_sort_insert (P : out_entry -> Prop) x l :
  P x -> Forall P l -> Forall P (sort_insert x l).
Proof.
  intros Hx Hl. induction Hl as [|y t Hy Ht IH]; simpl.
  - constructor; [exact Hx | constructor].
  - destruct (global_amount_index x <? global_amount_index y).
    + constructor; [exact Hx|]. constructor; assumption.
    + constructor; assumption.
Qed.

Lemma sort_insert_sorted x l :
  StronglySorted le_out l -> StronglySorted le_out (sort_insert x l).
Proof.
  induction 1 as [|y t Ht IH Hy]; simpl.
  - constructor; constructor.
  - destruct (global_amount_index x <? global_amount_index y) eqn:E.
    + apply Z.ltb_lt in E. constructor.
      * constructor; assumption.
      * constructor; [unfold le_out; lia|].
        eapply Forall_impl; [|exact Hy]. unfold le_out. intros; lia.
    + apply Z.ltb_ge in E. constructor; [exact IH|].
      apply Forall_sort_insert; [exact E | exact Hy].
Qed.

Lemma sort_insert_In x l o : In o (sort_insert x l) <-> o = x \/ In o l.
Proof.
  induction l as [|y t IH]; simpl.
  - intuition.
  - destruct (global_amount_index x <? global_amount_index y); simpl.
    + intuition.
    + rewrite IH. intuition.
Qed.

Lemma sort_outs_sorted l : StronglySorted le_out (sort_outs l).
Proof.
  unfold sort_outs.
  assert (G : forall acc, StronglySorted le_out acc ->
                          StronglySorted le_out
                            (fold_left (fun acc x => sort_insert x acc) l acc)).
  { induction l as [|x l IH]; intros acc Hacc; simpl; [exact Hacc|].
    apply IH, sort_insert_sorted, Hacc. }
  apply G. constructor.
Qed.

Lemma sort_insert_permutation x l : Permutation (sort_insert x l) (x :: l).
Proof.
  induction l as [|y t IH]; simpl; [reflexivity|].
  destruct (global_amount_index x <? global_amount_index y); [reflexivity|].
  rewrite IH. apply perm_swap.
Qed.

(** The sort rearranges the decoys it is given. *)
Lemma sort_outs_permutation l : Permutation (sort_outs l) l.
Proof.
  unfold sort_outs.
  assert (G : forall acc,
             Permutation (fold_left (fun acc x => sort_insert x acc) l acc) (acc ++ l)).
  { induction l as [|x l IH]; intros acc; simpl; [now rewrite app_nil_r|].
    rewrite IH, sort_insert_permutation. apply Permutation_middle. }
  apply (G []).
Qed.

Lemma sort_outs_In l o : In o (sort_outs l) <-> In o l.
Proof.
  unfold sort_outs.
  assert (G : forall acc, In o (fold_left (fun acc x => sort_insert x acc) l acc)
                          <-> In o acc \/ In o l).
  { induction l as [|x l IH]; intros acc; simpl; [intuition|].
    rewrite IH, sort_insert_In. intuition (subst; auto). }
  rewrite G. simpl. intuition.
Qed.

(** The decoys [paste_mixin] appends: in ascending order, each one of
    the decoys offered, none with the real output's index. *)
Lemma paste_mixin_spec td mixIn l :
  StronglySorted le_out l ->
  forall acc, exists pasted,
    paste_mixin td mixIn l acc = acc ++ pasted
    /\ StronglySorted le_entry pasted
    /\ Forall (fun e => fst e <> globalOutputIndex td
                        /\ exists o, In o l /\ e = entry_of o) pasted.
Proof.
  induction 1 as [|o rest Hrest IH Ho]; intros acc; simpl.
  - exists []. rewrite app_nil_r. repeat split; constructor.
  - destruct (globalOutputIndex td =? global_amount_index o) eqn:E.
    + destruct (IH acc) as (pasted & Hp & Hs & Hf).
      exists pasted. repeat split; auto.
      eapply Forall_impl; [|exact Hf].
      intros e (Hne & o' & Hin & He). split; [exact Hne|]. exists o'. auto.
    + apply Z.eqb_neq in E.
      destruct (mixIn <=? Z.of_nat (length (acc ++ [(global_amount_index o, out_key o)]))).
      * exists [entry_of o]. repeat split.
        -- constructor; constructor.
        -- constructor; [|constructor]. split; [simpl; lia|].
           exists o. auto.
      * destruct (IH (acc ++ [(global_amount_index o, out_key o)]))
          as (pasted & Hp & Hs & Hf).
        exists (entry_of o :: pasted). repeat split.
        -- rewrite Hp, <- app_assoc. reflexivity.
        -- constructor; [exact Hs|].
           apply Forall_forall. intros e He.
           rewrite Forall_forall in Hf. destruct (Hf e He) as (_ & o' & Hin & ->).
           rewrite Forall_forall in Ho. apply (Ho o' Hin).
        -- constructor.
           ++ split; [simpl; lia|]. exists o. auto.
           ++ eapply Forall_impl; [|exact Hf].
              intros e (Hne & o' & Hin & He). split; [exact Hne|]. exists o'. auto.
Qed.

(** The loop stops at [mixIn] decoys, provided it is entered below
    that count. *)
Lemma paste_mixin_length td mixIn l :
  forall acc,
    Z.of_nat (length acc) < mixIn ->
    Z.of_nat (length (paste_mixin td mixIn l acc)) <= mixIn.
Proof.
  induction l as [|o rest IH]; intros acc Hacc; simpl; [lia|].
  destruct (globalOutputIndex td =? global_amount_index o); [apply IH, Hacc|].
  destruct (mixIn <=? Z.of_nat (length (acc ++ [(global_amount_index o, out_key o)])))
    eqn:E.
  - rewrite length_app in *. simpl in *. lia.
  - apply Z.leb_gt in E. apply IH. exact E.
Qed.

Lemma insert_at_S {A} p (x a : A) l :
  insert_at (S p) x (a :: l) = a :: insert_at p x l.
Proof. reflexivity. Qed.

(** The real output goes where its index ranks it: in front of the
    first candidate that is not below it.  On candidates in ascending
    order, none with the real index, the list stays in order, the real
    output is at its rank, and no other position holds its index. *)
Lemma insert_real_output td key l :
  StronglySorted le_entry l ->
  Forall (fun e => fst e <> globalOutputIndex td) l ->
  let p := find_insert_position td l in
  let l' := insert_at p (globalOutputIndex td, key) l in
  nth_error l' p = Some (globalOutputIndex td, key)
  /\ rank (globalOutputIndex td) l' = p
  /\ StronglySorted le_entry l'
  /\ length l' = S (length l)
  /\ (forall j e, nth_error l' j = Some e -> fst e = globalOutputIndex td -> j = p).
Proof.
  induction 1 as [|a rest Hrest IH Ha]; intros Hne; simpl.
  - unfold insert_at, rank. simpl. rewrite Z.ltb_irrefl. simpl.
    repeat split; try reflexivity.
    + constructor; constructor.
    + intros [|[|j]] e He _; simpl in He; try discriminate; reflexivity.
  - inversion Hne as [|? ? Hna Hnrest]; subst.
    destruct (globalOutputIndex td <=? fst a) eqn:E.
    + apply Z.leb_le in E. unfold insert_at, rank. simpl.
      rewrite Z.ltb_irrefl.
      assert (Ea : (fst a <? globalOutputIndex td) = false) by (apply Z.ltb_ge; lia).
      rewrite Ea.
      assert (Hfil : filter (fun b : Z * public_key => fst b <? globalOutputIndex td) rest = []).
      { clear - Ha E. induction Ha as [|b rest Hb _ IH]; simpl; [reflexivity|].
        unfold le_entry in Hb.
        assert (Eb : (fst b <? globalOutputIndex td) = false) by (apply Z.ltb_ge; lia).
        rewrite Eb. exact IH. }
      rewrite Hfil. simpl. repeat split; try reflexivity.
      * constructor; [constructor; assumption|].
        constructor; [unfold le_entry; simpl; lia|].
        eapply Forall_impl; [|exact Ha]. unfold le_entry. simpl. intros; lia.
      * intros [|j] e He Hidx; [reflexivity|]. exfalso.
        simpl in He. apply nth_error_In in He.
        rewrite Forall_forall in Hne. apply (Hne e He Hidx).
    + apply Z.leb_gt in E.
      destruct (IH Hnrest) as (Hnth & Hrank & Hsorted & Hlen & Huniq).
      rewrite insert_at_S. simpl.
      repeat split.
      * exact Hnth.
      * unfold rank in *. simpl.
        assert (Ea : (fst a <? globalOutputIndex td) = true) by (apply Z.ltb_lt; lia).
        rewrite Ea. simpl. now rewrite Hrank.
      * constructor; [exact Hsorted|].
        unfold insert_at. apply Forall_app. split.
        -- apply Forall_forall. intros e He.
           assert (In e rest).
           { rewrite <- (firstn_skipn (find_insert_position td rest) rest).
             apply in_or_app. left. exact He. }
           rewrite Forall_forall in Ha. apply (Ha e H).
        -- constructor; [unfold le_entry; simpl; lia|].
           apply Forall_forall. intros e He.
           assert (In e rest).
           { rewrite <- (firstn_skipn (find_insert_position td rest) rest).
             apply in_or_app. right. exact He. }
           rewrite Forall_forall in Ha. apply (Ha e H).
      * now rewrite Hlen.
      * intros [|j] e He Hidx.
        -- simpl in He. inversion He; subst. contradiction.
        -- simpl in He. f_equal. apply (Huniq j e He Hidx).
Qed.

Lemma length_replace_nth {A} (l : list A) :
  forall i x, length (replace_nth i x l) = length l.
Proof.
  induction l as [|h t IH]; intros [|i] x; simpl; try reflexivity.
  now rewrite IH.
Qed.

(** One source entry, as [prepareInput] builds it. *)
Lemma prepareInput_entry td i outs mixIn outs' src :
  prepareInput td i outs mixIn = Ok (outs', src) ->
  nth_error (outputs src) (real_output src)
  = Some (globalOutputIndex td, outputKey td)
  /\ real_output src = rank (globalOutputIndex td) (outputs src)
  /\ StronglySorted le_entry (outputs src)
  /\ (forall j e, nth_error (outputs src) j = Some e ->
                  fst e = globalOutputIndex td -> j = real_output src)
  /\ (0 <= mixIn -> (mixIn = 0 -> outs = []) ->
      Z.of_nat (length (outputs src)) <= mixIn + 1)
  /\ length outs' = length outs.
Proof.
  unfold prepareInput. intros Hrun.
  assert (Hpasted : exists pasted,
    (match outs with
     | [] => Ok (outs, [])
     | _ :: _ =>
         match nth_error outs i with
         | None => Undefined
         | Some o =>
             Ok (replace_nth i {| ofa_amount := ofa_amount o;
                                  ofa_outs := sort_outs (ofa_outs o) |} outs,
                 paste_mixin td mixIn (sort_outs (ofa_outs o)) [])
         end
     end) = Ok (outs', pasted)
    /\ src = {| outputs := insert_at (find_insert_position td pasted)
                             (globalOutputIndex td, outputKey td) pasted;
                real_output := find_insert_position td pasted;
                real_out_tx_key := transactionPublicKey td;
                real_output_in_tx_index := outputInTransaction td;
                src_amount := td_amount td |}).
  { destruct (match outs with [] => _ | _ :: _ => _ end) as [[o p]| |];
      try discriminate.
    cbn [rbind fst snd] in Hrun. inversion Hrun; subst. eexists. split; reflexivity. }
  clear Hrun. destruct Hpasted as (pasted & Hp & ->). cbn [outputs real_output].
  assert (Hshape : StronglySorted le_entry pasted
                   /\ Forall (fun e => fst e <> globalOutputIndex td) pasted
                   /\ (0 <= mixIn -> (mixIn = 0 -> outs = []) ->
                       Z.of_nat (length pasted) <= mixIn)
                   /\ length outs' = length outs).
  { destruct outs as [|o0 outs0].
    - inversion Hp; subst. repeat split; try constructor. simpl. intros; lia.
    - destruct (nth_error (o0 :: outs0) i) as [o|]; [|discriminate].
      inversion Hp; subst.
      destruct (paste_mixin_spec td mixIn (sort_outs (ofa_outs o))
                  (sort_outs_sorted _) []) as (pasted & Hpm & Hs & Hf).
      simpl in Hpm. rewrite Hpm. repeat split.
      + exact Hs.
      + eapply Forall_impl; [|exact Hf]. intros e [Hne _]. exact Hne.
      + intros Hm Hz. rewrite <- Hpm. apply paste_mixin_length. simpl.
        destruct (Z.eq_dec mixIn 0) as [E|E]; [specialize (Hz E); discriminate | lia].
      + apply length_replace_nth. }
  destruct Hshape as (Hs & Hne & Hlen & Houts).
  destruct (insert_real_output td (outputKey td) pasted Hs Hne)
    as (Hnth & Hrank & Hsorted & Hl & Huniq).
  split; [exact Hnth|]. split; [symmetry; exact Hrank|].
  split; [exact Hsorted|]. split; [exact Huniq|]. split; [|exact Houts].
  intros Hm Hz. specialize (Hlen Hm Hz).
  unfold output_entry in *. rewrite Hl. lia.
Qed.

Lemma prepareInputs_loop_entries mixIn selected :
  forall i outs sources outs' sources',
    prepareInputs_loop selected i outs sources mixIn = Ok (outs', sources') ->
    exists entries,
      sources' = sources ++ entries
      /\ length outs' = length outs
      /\ Forall2 (fun td src =>
           nth_error (outputs src) (real_output src)
           = Some (globalOutputIndex td, outputKey td)
           /\ real_output src = rank (globalOutputIndex td) (outputs src)
           /\ StronglySorted le_entry (outputs src)
           /\ (forall j e, nth_error (outputs src) j = Some e ->
                           fst e = globalOutputIndex td -> j = real_output src)
           /\ (0 <= mixIn -> (mixIn = 0 -> outs = []) ->
               Z.of_nat (length (outputs src)) <= mixIn + 1))
         selected entries.
Proof.
  induction selected as [|td rest IH]; intros i outs sources outs' sources' Hrun.
  - simpl in Hrun. inversion Hrun; subst. exists []. rewrite app_nil_r.
    repeat split. constructor.
  - cbn [prepareInputs_loop] in Hrun.
    destruct (prepareInput td i outs mixIn) as [[outs1 src]| |] eqn:Hone;
      try discriminate.
    cbn [rbind fst snd] in Hrun.
    apply prepareInput_entry in Hone.
    destruct Hone as (Hnth & Hrank & Hsorted & Huniq & Hlen & Houts1).
    apply IH in Hrun. destruct Hrun as (entries & Hsrc & Houts' & Hall).
    exists (src :: entries). split; [|split].
    + rewrite Hsrc, <- app_assoc. reflexivity.
    + congruence.
    + constructor.
      * repeat split; auto.
      * eapply Forall2_impl; [|exact Hall].
        intros td' src' (H1 & H2 & H3 & H4 & H5). repeat split; auto.
        intros Hm Hz. apply H5; [exact Hm|].
        intros E. specialize (Hz E). subst outs.
        destruct outs1; [reflexivity | discriminate].
Qed.

(** The preparer returns whenever there are no decoy sets at all or
    one for each selected coin. *)
Lemma prepareInputs_loop_returns mixIn selected :
  forall i outs sources,
    outs = [] \/ (i + length selected <= length outs)%nat ->
    exists r, prepareInputs_loop selected i outs sources mixIn = Ok r.
Proof.
  induction selected as [|td rest IH]; intros i outs sources Hlen.
  - eexists. reflexivity.
  - cbn [prepareInputs_loop].
    assert (Hone : exists outs1 src,
               prepareInput td i outs mixIn = Ok (outs1, src)
               /\ length outs1 = length outs).
    { unfold prepareInput. destruct outs as [|o0 outs0].
      - cbn [rbind fst snd]. eexists. eexists. split; reflexivity.
      - destruct Hlen as [Hlen|Hlen]; [discriminate|]. simpl in Hlen.
        destruct (nth_error (o0 :: outs0) i) as [o|] eqn:Ho.
        + cbn [rbind fst snd]. eexists. eexists. split; [reflexivity|].
          apply length_replace_nth.
        + apply nth_error_None in Ho. simpl in Ho. lia. }
    destruct Hone as (outs1 & src & Hone & Hl). rewrite Hone. cbn [rbind fst snd].
    apply IH. destruct Hlen as [->|Hlen].
    + left. destruct outs1; [reflexivity | discriminate].
    + right. simpl in Hlen. lia.
Qed.

Lemma prepareInputs_returns selected outs sources mixIn :
  outs = [] \/ (length selected <= length outs)%nat ->
  exists r, prepareInputs selected outs sources mixIn = Ok r.
Proof.
  intros Hlen. apply prepareInputs_loop_returns. simpl. exact Hlen.
Qed.

(** C4.  [prepareInputs] appends one source entry per selected coin.
    In each, the real output (the coin's global index with its key)
    is at position [real_output], and that position is its rank: the
    number of candidates of the list whose global index is smaller.
    The candidates are in ascending order of global index, no other
    position holds the coin's global index, and the list has at most
    [mixIn + 1] entries.  The sender calls the preparer with decoy
    sets only for a positive [mixIn]: for [mixIn = 0] no decoys are
    requested and [outs] is empty. *)
Theorem prepareInputs_real_output_at_rank
  (selected : list TransactionOutputInformation) (decoys : list outs_for_amount)
  (sources : list tx_source_entry) (mixin : Z)
  (decoys' : list outs_for_amount) (sources' : list tx_source_entry) :
  0 <= mixin -> (mixin = 0 -> decoys = []) ->
  prepareInputs selected decoys sources mixin = Ok (decoys', sources') ->
  exists entries,
    sources' = sources ++ entries
    /\ Forall2 (fun td src =>
         nth_error (outputs src) (real_output src)
         = Some (globalOutputIndex td, outputKey td)
         /\ real_output src = rank (globalOutputIndex td) (outputs src)
         /\ StronglySorted le_entry (outputs src)
         /\ (forall j e, nth_error (outputs src) j = Some e ->
                         fst e = globalOutputIndex td -> j = real_output src)
         /\ Z.of_nat (length (outputs src)) <= mixin + 1)
       selected entries.
Proof.
  intros Hm Hz Hrun. unfold prepareInputs in Hrun.
  apply prepareInputs_loop_entries in Hrun.
  destruct Hrun as (entries & Hsrc & _ & Hall).
  exists entries. split; [exact Hsrc|].
  eapply Forall2_impl; [|exact Hall].
  intros td src (H1 & H2 & H3 & H4 & H5). repeat split; auto.
Qed.

Lemma prepareInputs_real_output_at_rank_witness :
  exists decoys' src,
    prepareInputs [coin 70 5] scenarioDecoys [] 2 = Ok (decoys', [src])
    /\ outputs src = [(2, 202); (5, 205); (7, 207)]
    /\ real_output src = 1%nat
    /\ real_output src = rank 5 (outputs src).
Proof.
  eexists. eexists. split; [vm_compute; reflexivity|].
  split; [reflexivity|]. split; [reflexivity|].
  destruct (prepareInputs_real_output_at_rank [coin 70 5] scenarioDecoys [] 2 _ _
              ltac:(lia) ltac:(intros E; discriminate E) eq_refl)
    as (entries & Hsrc & Hall).
  simpl in Hsrc. subst entries.
  inversion Hall as [|? ? ? ? (_ & Hrank & _) _]; subst.
  exact Hrank.
Defined.

(** ** The coin selector *)

Lemma removelast_cons {A} (h : A) t :
  t <> [] -> removelast (h :: t) = h :: removelast t.
Proof. destruct t; [contradiction | reflexivity]. Qed.

Lemma last_cons {A} (h d : A) t : t <> [] -> last (h :: t) d = last t d.
Proof. destruct t; [contradiction | reflexivity]. Qed.

Lemma replace_nth_nonempty {A} i (x : A) l : l <> [] -> replace_nth i x l <> [].
Proof. destruct l, i; simpl; congruence. Qed.

(** Swap-with-last removal takes exactly the drawn element out. *)
Lemma pop_permutation (vec : list nat) :
  forall idx, (idx < length vec)%nat ->
    Permutation
      (nth idx vec O
       :: removelast (if (idx + 1 =? length vec)%nat then vec
                      else replace_nth idx (last vec O) vec))
      vec.
Proof.
  induction vec as [|h t IH]; intros idx Hidx; simpl in Hidx; [lia|].
  destruct idx as [|i].
  - destruct t as [|h' t'].
    + simpl. reflexivity.
    + assert (Hne : h' :: t' <> []) by discriminate.
      replace ((0 + 1 =? length (h :: h' :: t'))%nat) with false
        by (symmetry; apply Nat.eqb_neq; simpl; lia).
      rewrite last_cons by exact Hne.
      cbn [replace_nth nth]. rewrite removelast_cons by exact Hne.
      apply perm_skip.
      rewrite (app_removelast_last O Hne) at 3.
      apply Permutation_cons_append.
  - assert (Hne : t <> []) by (destruct t; [simpl in Hidx; lia | discriminate]).
    assert (Hi : (i < length t)%nat) by lia.
    specialize (IH i Hi).
    rewrite last_cons by exact Hne. cbn [nth].
    replace ((S i + 1 =? length (h :: t))%nat) with ((i + 1 =? length t)%nat)
      by reflexivity.
    destruct (i + 1 =? length t)%nat.
    + rewrite removelast_cons by exact Hne.
      rewrite perm_swap. apply perm_skip. exact IH.
    + cbn [replace_nth].
      rewrite removelast_cons by (apply replace_nth_nonempty; exact Hne).
      rewrite perm_swap. apply perm_skip. exact IH.
Qed.

Lemma popRandomValue_permutation r vec :
  vec <> [] ->
  Permutation (fst (popRandomValue r vec) :: snd (popRandomValue r vec)) vec.
Proof.
  intros Hne. unfold popRandomValue. destruct vec as [|h t]; [contradiction|].
  cbn [fst snd]. apply pop_permutation.
  apply Nat.mod_upper_bound. simpl. lia.
Qed.

Lemma is_empty_false {A} (l : list A) : is_empty l = false <-> l <> [].
Proof. destruct l; simpl; split; congruence. Qed.

Lemma is_empty_true {A} (l : list A) : is_empty l = true <-> l = [].
Proof. destruct l; simpl; split; congruence. Qed.

Lemma sum_outputs_app a b : sum_outputs (a ++ b) = sum_outputs a + sum_outputs b.
Proof. induction a as [|o a IH]; simpl; [reflexivity | rewrite IH; lia]. Qed.

(** The choice of the pool and the draw, as one step: some index
    leaves the pools, which otherwise keep their contents. *)
Lemma select_draw r (selectOneDust : bool) (unusedTransfers unusedDust : list nat) :
  unusedTransfers <> [] \/ unusedDust <> [] ->
  (selectOneDust = true -> unusedDust <> []) ->
  exists idx uT uD,
    (if selectOneDust then
       let (idx, unusedDust) := popRandomValue r unusedDust in
       (idx, unusedTransfers, unusedDust)
     else if negb (is_empty unusedTransfers) then
       let (idx, unusedTransfers) := popRandomValue r unusedTransfers in
       (idx, unusedTransfers, unusedDust)
     else
       let (idx, unusedDust) := popRandomValue r unusedDust in
       (idx, unusedTransfers, unusedDust)) = (idx, uT, uD)
    /\ Permutation (idx :: uT ++ uD) (unusedTransfers ++ unusedDust).
Proof.
  intros Hsome Hdust.
  destruct selectOneDust.
  - pose proof (popRandomValue_permutation r unusedDust (Hdust eq_refl)) as Hp.
    destruct (popRandomValue r unusedDust) as [idx uD]. simpl in Hp.
    exists idx, unusedTransfers, uD. split; [reflexivity|].
    rewrite <- Hp. apply Permutation_middle.
  - destruct (is_empty unusedTransfers) eqn:E; simpl.
    + apply is_empty_true in E. subst.
      assert (Hne : unusedDust <> []) by (destruct Hsome; congruence).
      pose proof (popRandomValue_permutation r unusedDust Hne) as Hp.
      destruct (popRandomValue r unusedDust) as [idx uD]. simpl in Hp.
      exists idx, [], uD. split; [reflexivity|]. simpl. exact Hp.
    + apply is_empty_false in E.
      pose proof (popRandomValue_permutation r unusedTransfers E) as Hp.
      destruct (popRandomValue r unusedTransfers) as [idx uT]. simpl in Hp.
      exists idx, uT, unusedDust. split; [reflexivity|].
      rewrite <- Hp. reflexivity.
Qed.

(** The selection loop, from any state with fuel for the pools: it
    returns; what it picks leaves the pools; the found money is the
    wrapped sum; every coin is picked while the found money is still
    short; and it stops with the needed money reached or the pools
    empty. *)
Lemma selectTransfersToSend_loop_spec rg outputs needed fuel :
  forall draw selectOneDust unusedTransfers unusedDust found selected,
    (length unusedTransfers + length unusedDust < fuel)%nat ->
    (selectOneDust = true -> unusedDust <> []) ->
    Forall (fun i => nth_error outputs i <> None) (unusedTransfers ++ unusedDust) ->
    0 <= found < two64 ->
    exists found' idxs picked uT uD,
      selectTransfersToSend_loop fuel rg draw outputs needed selectOneDust
        unusedTransfers unusedDust found selected
      = Some (found', selected ++ picked)
      /\ Forall2 (fun i o => nth_error outputs i = Some o) idxs picked
      /\ Permutation (idxs ++ uT ++ uD) (unusedTransfers ++ unusedDust)
      /\ found' = u64 (found + sum_outputs picked)
      /\ (forall k, (k < length picked)%nat ->
                    u64 (found + sum_outputs (firstn k picked)) < needed)
      /\ (needed <= found' \/ (uT = [] /\ uD = [])).
Proof.
  induction fuel as [|fuel IH];
    intros draw sOD uT uD found selected Hfuel Hdust Hvalid Hfound; [lia|].
  cbn [selectTransfersToSend_loop].
  destruct ((found <? needed) && (negb (is_empty uT) || negb (is_empty uD))) eqn:Hcond.
  - apply andb_true_iff in Hcond. destruct Hcond as [Hlt Hpools].
    apply Z.ltb_lt in Hlt.
    assert (Hsome : uT <> [] \/ uD <> []).
    { apply orb_true_iff in Hpools. destruct Hpools as [E|E];
        apply negb_true_iff, is_empty_false in E; auto. }
    destruct (select_draw (rg draw) sOD uT uD Hsome Hdust)
      as (idx & uT1 & uD1 & Hdraw & Hperm).
    rewrite Hdraw.
    assert (Hvalid1 : Forall (fun i => nth_error outputs i <> None) (idx :: uT1 ++ uD1)).
    { eapply Permutation_Forall; [symmetry; exact Hperm | exact Hvalid]. }
    inversion Hvalid1 as [|? ? Hidx Hrest]; subst.
    destruct (nth_error outputs idx) as [out|] eqn:Hout; [|contradiction].
    assert (Hlen : (length uT1 + length uD1 < fuel)%nat).
    { apply Permutation_length in Hperm. simpl in Hperm.
      rewrite !length_app in Hperm. lia. }
    destruct (IH (S draw) false uT1 uD1 (u64 (found + td_amount out))
                 (selected ++ [out]) Hlen ltac:(discriminate) Hrest
                 (u64_range _))
      as (found' & idxs & picked & uT2 & uD2 & Hrun & Hpick & Hperm2 & Hf & Hpre & Hstop).
    exists found', (idx :: idxs), (out :: picked), uT2, uD2.
    split; [|split; [|split; [|split; [|split]]]].
    + rewrite Hrun, <- app_assoc. reflexivity.
    + constructor; assumption.
    + simpl. rewrite <- Hperm. apply perm_skip. exact Hperm2.
    + rewrite Hf, u64_add_l. simpl. f_equal. lia.
    + intros [|k] Hk; simpl.
      * rewrite Z.add_0_r, u64_small by exact Hfound. exact Hlt.
      * simpl in Hk. specialize (Hpre k ltac:(lia)).
        rewrite u64_add_l in Hpre.
        replace (found + (td_amount out + sum_outputs (firstn k picked)))
          with (found + td_amount out + sum_outputs (firstn k picked)) by lia.
        exact Hpre.
    + exact Hstop.
  - exists found, [], [], uT, uD.
    split; [|split; [|split; [|split; [|split]]]].
    + now rewrite app_nil_r.
    + constructor.
    + reflexivity.
    + simpl. rewrite Z.add_0_r, u64_small by exact Hfound. reflexivity.
    + simpl. intros k Hk. lia.
    + apply andb_false_iff in Hcond. destruct Hcond as [E|E].
      * apply Z.ltb_ge in E. left. lia.
      * apply orb_false_iff in E. destruct E as [E1 E2].
        apply negb_false_iff, is_empty_true in E1.
        apply negb_false_iff, is_empty_true in E2. right. auto.
Qed.

Lemma unused_from_valid cache outputs :
  forall i j, In j (unused_from cache outputs i) ->
    (i <= j)%nat
    /\ exists o, nth_error outputs (j - i) = Some o /\ isUsed cache o = false.
Proof.
  induction outputs as [|out rest IH]; intros i j Hj; simpl in Hj; [contradiction|].
  assert (Hrest : In j (unused_from cache rest (S i)) ->
                  (i <= j)%nat
                  /\ exists o, nth_error (out :: rest) (j - i) = Some o
                               /\ isUsed cache o = false).
  { intros Hin. destruct (IH (S i) j Hin) as (Hle & o & Ho & Hu).
    split; [lia|]. exists o. split; [|exact Hu].
    replace (j - i)%nat with (S (j - S i)) by lia. exact Ho. }
  destruct (isUsed cache out) eqn:E; simpl in Hj; [auto|].
  destruct Hj as [<-|Hin]; [|auto].
  split; [lia|]. exists out. rewrite Nat.sub_diag. auto.
Qed.

Lemma unused_from_NoDup cache outputs :
  forall i, NoDup (unused_from cache outputs i).
Proof.
  induction outputs as [|out rest IH]; intros i; simpl; [constructor|].
  destruct (isUsed cache out); simpl; [apply IH|].
  constructor; [|apply IH].
  intros Hin. apply unused_from_valid in Hin. lia.
Qed.

Lemma collect_unused_pools cache dust outputs :
  forall i unusedTransfers unusedDust,
    exists t d,
      collect_unused cache dust outputs i unusedTransfers unusedDust
      = (unusedTransfers ++ t, unusedDust ++ d)
      /\ Permutation (t ++ d) (unused_from cache outputs i).
Proof.
  induction outputs as [|out rest IH]; intros i uT uD; simpl.
  - exists [], []. rewrite !app_nil_r. split; reflexivity.
  - destruct (isUsed cache out); simpl; [apply IH|].
    destruct (dust <? td_amount out).
    + destruct (IH (S i) (uT ++ [i]) uD) as (t & d & Hrun & Hperm).
      exists (i :: t), d. rewrite Hrun, <- app_assoc. split; [reflexivity|].
      simpl. apply perm_skip. exact Hperm.
    + destruct (IH (S i) uT (uD ++ [i])) as (t & d & Hrun & Hperm).
      exists t, (i :: d). rewrite Hrun, <- app_assoc. split; [reflexivity|].
      rewrite <- Permutation_middle. apply perm_skip. exact Hperm.
Qed.

Lemma sum_outputs_nonneg l :
  Forall (fun o => 0 <= td_amount o < two64) l -> 0 <= sum_outputs l.
Proof. induction 1 as [|o l Ho _ IH]; simpl; lia. Qed.

Lemma u64_le z : 0 <= z -> u64 z <= z.
Proof.
  intros Hz. unfold u64. apply Z.mod_le; [exact Hz|]. rewrite two64_val. lia.
Qed.

(** The selector always returns (the fuel of the loop is never
    exhausted, and no index leaves the vector). *)
Lemma selectTransfersToSend_total w rg needed addDust dust selected :
  exists r, selectTransfersToSend w rg needed addDust dust selected = Some r.
Proof.
  unfold selectTransfersToSend.
  destruct (collect_unused_pools (m_transactionsCache w) dust
              (getOutputs_IncludeKeyUnlocked (m_transferDetails w)) O [] [])
    as (t & d & Hpools & Hperm).
  rewrite Hpools. simpl app.
  destruct (selectTransfersToSend_loop_spec rg
              (getOutputs_IncludeKeyUnlocked (m_transferDetails w)) needed
              (S (length t + length d)) O (addDust && negb (is_empty d)) t d 0 selected)
    as (found & idxs & picked & uT & uD & Hrun & _).
  - lia.
  - intros E. apply andb_true_iff in E. destruct E as [_ E].
    apply negb_true_iff, is_empty_false in E. exact E.
  - eapply Permutation_Forall; [symmetry; exact Hperm|].
    apply Forall_forall. intros j Hj. apply unused_from_valid in Hj.
    destruct Hj as (_ & o & Ho & _). rewrite Nat.sub_0_r in Ho. congruence.
  - rewrite two64_val. lia.
  - eexists. exact Hrun.
Qed.

(** C8, as the code has it.  The selector returns.  The coins it
    selects sit at distinct positions of the unlocked outputs and none
    is flagged as used.  The found money is the sum of their amounts
    reduced modulo [2^64]: never more than the sum, and equal to it
    whenever the sum is below [2^64].  Every coin is drawn while the
    found money is still below the needed money, and the loop ends
    with the needed money reached or with every unused output
    selected. *)
Theorem selectTransfersToSend_selection
  (w : Wallet) (rg : nat -> nat) (needed : Z) (addDust : bool) (dust : Z) :
  Forall (fun o => 0 <= td_amount o < two64)
         (getOutputs_IncludeKeyUnlocked (m_transferDetails w)) ->
  exists found idxs selected,
    selectTransfersToSend w rg needed addDust dust [] = Some (found, selected)
    /\ Forall2 (fun i o =>
                  nth_error (getOutputs_IncludeKeyUnlocked (m_transferDetails w)) i
                  = Some o) idxs selected
    /\ NoDup idxs
    /\ Forall (fun o => isUsed (m_transactionsCache w) o = false) selected
    /\ found = u64 (sum_outputs selected)
    /\ found <= sum_outputs selected
    /\ (sum_outputs selected < two64 -> found = sum_outputs selected)
    /\ (forall k, (k < length selected)%nat ->
                  u64 (sum_outputs (firstn k selected)) < needed)
    /\ (needed <= found
        \/ Permutation idxs
             (unused_from (m_transactionsCache w)
                (getOutputs_IncludeKeyUnlocked (m_transferDetails w)) O)).
Proof.
  intros Hamounts. unfold selectTransfersToSend.
  set (outputs := getOutputs_IncludeKeyUnlocked (m_transferDetails w)) in *.
  set (cache := m_transactionsCache w).
  destruct (collect_unused_pools cache dust outputs O [] [])
    as (t & d & Hpools & Hperm).
  rewrite Hpools. simpl app.
  assert (Hvalid : Forall (fun j => exists o, nth_error outputs j = Some o
                                              /\ isUsed cache o = false) (t ++ d)).
  { eapply Permutation_Forall; [symmetry; exact Hperm|].
    apply Forall_forall. intros j Hj. apply unused_from_valid in Hj.
    destruct Hj as (_ & o & Ho & Hu). rewrite Nat.sub_0_r in Ho. eauto. }
  destruct (selectTransfersToSend_loop_spec rg outputs needed
              (S (length t + length d)) O (addDust && negb (is_empty d)) t d 0 [])
    as (found & idxs & picked & uT & uD & Hrun & Hpick & Hperm2 & Hf & Hpre & Hstop).
  - lia.
  - intros E. apply andb_true_iff in E. destruct E as [_ E].
    apply negb_true_iff, is_empty_false in E. exact E.
  - eapply Forall_impl; [|exact Hvalid]. intros j (o & Ho & _). congruence.
  - rewrite two64_val. lia.
  - simpl in Hrun, Hf, Hpre.
    assert (Hin : forall i, In i idxs -> In i (t ++ d)).
    { intros i Hi. eapply Permutation_in; [exact Hperm2|].
      apply in_or_app. left. exact Hi. }
    assert (Hnodup : NoDup (idxs ++ uT ++ uD)).
    { eapply Permutation_NoDup; [symmetry; exact Hperm2|].
      eapply Permutation_NoDup; [symmetry; exact Hperm|].
      apply unused_from_NoDup. }
    assert (Hsel : Forall (fun o => In o outputs /\ isUsed cache o = false) picked).
    { clear - Hpick Hin Hvalid. induction Hpick as [|i o idxs picked Hio _ IH];
        constructor.
      - rewrite Forall_forall in Hvalid.
        destruct (Hvalid i (Hin i (or_introl eq_refl))) as (o' & Ho' & Hu).
        assert (o' = o) by congruence. subst o'. split; [|exact Hu].
        eapply nth_error_In. exact Hio.
      - apply IH. intros j Hj. apply Hin. right. exact Hj. }
    assert (Hsum : 0 <= sum_outputs picked).
    { apply sum_outputs_nonneg. apply Forall_forall. intros o Ho.
      rewrite Forall_forall in Hsel, Hamounts. apply Hamounts, (Hsel o Ho). }
    exists found, idxs, picked.
    split; [exact Hrun|]. split; [exact Hpick|].
    split; [apply NoDup_app_remove_r in Hnodup; exact Hnodup|].
    split; [eapply Forall_impl; [|exact Hsel]; intros o [_ Hu]; exact Hu|].
    split; [exact Hf|].
    split; [rewrite Hf; apply u64_le; exact Hsum|].
    split; [intros Hlt; rewrite Hf; apply u64_small; lia|].
    split; [exact Hpre|].
    destruct Hstop as [Hreach|[-> ->]]; [left; exact Hreach | right].
    rewrite !app_nil_r in Hperm2. rewrite Hperm2. exact Hperm.
Qed.

Lemma selectTransfersToSend_selection_witness :
  exists found selected,
    selectTransfersToSend (scenarioWallet [coin 300 1; coin 200 2; coin 700 3])
                          firstIndex 450 false 0 [] = Some (found, selected)
    /\ selected = [coin 300 1; coin 700 3]
    /\ found = sum_outputs selected.
Proof.
  destruct (selectTransfersToSend_selection
              (scenarioWallet [coin 300 1; coin 200 2; coin 700 3])
              firstIndex 450 false 0)
    as (found & idxs & selected & Hrun & _ & _ & _ & _ & _ & Hexact & _).
  - repeat constructor; simpl; rewrite ?two64_val; lia.
  - exists found, selected. vm_compute in Hrun. inversion Hrun; subst.
    split; [reflexivity|]. split; [reflexivity|].
    apply Hexact. vm_compute. reflexivity.
Defined.

(** C8 as stated fails on the first count: with coins worth more than
    [2^64] together the accumulated found money wraps, and the
    selector returns less than the sum of the coins it selected. *)
Lemma foundMoney_below_selected_sum :
  exists found selected,
    selectTransfersToSend (scenarioWallet richCoins) firstIndex
                          9223372036854775807 false 0 [] = Some (found, selected)
    /\ selected = richCoins
    /\ found = 8
    /\ found < sum_outputs selected.
Proof.
  eexists. eexists. split; [vm_compute; reflexivity|].
  split; [reflexivity|]. split; [reflexivity|]. vm_compute. reflexivity.
Qed.

(** ** The orchestrator *)

Lemma nth_error_replace_nth {A} (l : list A) :
  forall i x, (i < length l)%nat -> nth_error (replace_nth i x l) i = Some x.
Proof.
  induction l as [|h t IH]; intros [|i] x Hi; simpl in *; try lia.
  - reflexivity.
  - apply IH. lia.
Qed.

Lemma update_transaction_length cache id f :
  length (m_transactions (update_transaction cache id f))
  = length (m_transactions cache).
Proof.
  unfold update_transaction.
  destruct (nth_error (m_transactions cache) id); [|reflexivity].
  simpl. apply length_replace_nth.
Qed.

Lemma update_transaction_unconfirmed cache id f :
  m_unconfirmedTransactions (update_transaction cache id f)
  = m_unconfirmedTransactions cache.
Proof.
  unfold update_transaction.
  destruct (nth_error (m_transactions cache) id); reflexivity.
Qed.

(** Finalizing a send: one completion event, and the record of the
    send, when the cache has it, carries the code. *)
Lemma push_complete_event_events w id ec :
  events (push_complete_event w id ec)
  = events w ++ [WalletSendTransactionCompletedEvent id ec].
Proof. reflexivity. Qed.

Lemma push_complete_event_state w id ec st :
  sending_state w id = Some st ->
  sending_state (push_complete_event w id ec) id = Some (Finalized ec).
Proof.
  unfold sending_state, push_complete_event, makeCompleteEvent,
    updateTransactionSendingState, update_transaction. simpl.
  destruct (nth_error (m_transactions (m_transactionsCache w)) id) as [info|] eqn:E;
    [|discriminate].
  intros _. simpl. rewrite nth_error_replace_nth; [reflexivity|].
  apply nth_error_Some. congruence.
Qed.

Lemma push_complete_event_spent w id ec :
  spent_coins (push_complete_event w id ec) = spent_coins w.
Proof.
  unfold spent_coins, push_complete_event, makeCompleteEvent,
    updateTransactionSendingState. simpl.
  now rewrite update_transaction_unconfirmed.
Qed.

(** An error code raised while the destinations are split ends the
    send: [doSendTransaction] catches it, hands back no request and
    finalizes the send with that code.  This is how the
    [INTERNAL_WALLET_ERROR] of the dust check would abort a send. *)
Lemma doSendTransaction_split_failure `{Externals} context w transaction prepared ec :
  m_isStoping w = false ->
  getTransaction (m_transactionsCache w) (transactionId context) = Ok transaction ->
  prepareInputs (selectedTransfers context) (outs context) [] (mixIn context)
  = Ok prepared ->
  splitDestinations (m_transactionsCache w) (firstTransferId transaction)
    (transferCount transaction)
    (createChangeDestinations (m_account_address (m_keys w))
       (u64 (- totalAmount transaction)) (foundMoney context) AUTO_VAL_INIT_changeDts)
    (dustPolicy context) = Throw (system_error ec) ->
  doSendTransaction context w
  = (Ok None, push_complete_event w (transactionId context) (Some ec)).
Proof.
  intros Hstop Hget Hprep Hsplit.
  unfold doSendTransaction, doSendTransaction_try, bind, lift.
  rewrite Hstop, Hget, Hprep, Hsplit. reflexivity.
Qed.

(** C1, as the code has it.  When the selector finds less than the
    needed money, [makeSendRequest] throws [WRONG_AMOUNT], the code of
    a wrong amount: the sender raises no error of its own for
    insufficient funds.  The wallet is left as it was: no pending
    record is added or finalized, no coin is marked spent, no event is
    pushed. *)
Theorem makeSendRequest_insufficient_funds `{Externals}
  (rg : nat -> nat) (transfers : list Transfer) (fee : Z) (extra : string)
  (mixin unlock : Z) (w : Wallet) (needed found : Z)
  (selected : list TransactionOutputInformation) :
  transfers <> [] ->
  validateTransfersAddresses transfers = Ok tt ->
  countNeededMoney fee transfers = Ok needed ->
  selectTransfersToSend w rg needed (mixin =? 0)
                        (dustThreshold defaultDustPolicy) [] = Some (found, selected) ->
  found < needed ->
  exists w',
    makeSendRequest rg transfers fee extra mixin unlock w
    = (Throw (system_error WRONG_AMOUNT), w')
    /\ w' = w
    /\ m_transactionsCache w' = m_transactionsCache w
    /\ spent_coins w' = spent_coins w
    /\ (forall id, sending_state w' id = sending_state w id)
    /\ events w' = events w.
Proof.
  intros Hne Hval Hcount Hsel Hlt. exists w.
  split; [|repeat split].
  unfold makeSendRequest, bind, lift.
  destruct transfers as [|t rest]; [contradiction|].
  cbn [is_empty throwIf]. rewrite Hval, Hcount, Hsel. cbn [fst snd].
  apply Z.ltb_lt in Hlt. rewrite Hlt. reflexivity.
Qed.

Lemma makeSendRequest_insufficient_funds_witness :
  exists w',
    makeSendRequest (H := scenarioExternals) firstIndex
      [mkTransfer "bob"%string 990] 10 String.EmptyString 0 0
      (scenarioWallet [coin 300 1; coin 200 2])
    = (Throw (system_error WRONG_AMOUNT), w')
    /\ w' = scenarioWallet [coin 300 1; coin 200 2].
Proof.
  destruct (makeSendRequest_insufficient_funds (H := scenarioExternals) firstIndex
              [mkTransfer "bob"%string 990] 10 String.EmptyString 0 0
              (scenarioWallet [coin 300 1; coin 200 2]) 1000 500
              [coin 300 1; coin 200 2])
    as (w' & Hrun & Hw & _).
  - discriminate.
  - reflexivity.
  - reflexivity.
  - vm_compute. reflexivity.
  - lia.
  - exists w'. split; assumption.
Defined.

(** C1 as stated fails: the failure is not an insufficient-funds
    error.  In scenario D (coins worth 500, a request that needs 1000)
    the selector finds 500 and the exception raised is
    [WRONG_AMOUNT], the very exception that a request with a negative
    amount raises on the same wallet: the two failures are one kind
    of error to the caller. *)
Lemma insufficient_funds_raises_wrong_amount :
  countNeededMoney 10 [mkTransfer "bob"%string 990] = Ok 1000
  /\ selectTransfersToSend (scenarioWallet [coin 300 1; coin 200 2]) firstIndex 1000
       true (dustThreshold (@defaultDustPolicy scenarioExternals)) []
     = Some (500, [coin 300 1; coin 200 2])
  /\ fst (makeSendRequest (H := scenarioExternals) firstIndex
            [mkTransfer "bob"%string 990] 10 String.EmptyString 0 0
            (scenarioWallet [coin 300 1; coin 200 2]))
     = Throw (system_error WRONG_AMOUNT)
  /\ fst (makeSendRequest (H := scenarioExternals) firstIndex
            [mkTransfer "bob"%string (-990)] 10 String.EmptyString 0 0
            (scenarioWallet [coin 300 1; coin 200 2]))
     = fst (makeSendRequest (H := scenarioExternals) firstIndex
              [mkTransfer "bob"%string 990] 10 String.EmptyString 0 0
              (scenarioWallet [coin 300 1; coin 200 2])).
Proof.
  repeat split; vm_compute; reflexivity.
Qed.

(** C9.  A decoy response that arrives without an error code while no
    stop is pending, with a decoy set of fewer than [mixIn] entries
    for some amount, fails the send: the callback hands back no
    request, pushes one completion event with [MIXIN_COUNT_TOO_BIG],
    and the pending record is finalized with that code. *)
Theorem sendTransactionRandomOutsByAmount_scanty `{Externals}
  (context : SendTransactionContext) (w : Wallet) :
  m_isStoping w = false ->
  Exists (fun out => Z.of_nat (length (ofa_outs out)) < mixIn context)
         (outs context) ->
  sending_state w (transactionId context) = Some Pending ->
  exists w',
    sendTransactionRandomOutsByAmount context None w = (Ok None, w')
    /\ events w'
       = events w ++ [WalletSendTransactionCompletedEvent (transactionId context)
                        (Some MIXIN_COUNT_TOO_BIG)]
    /\ sending_state w' (transactionId context)
       = Some (Finalized (Some MIXIN_COUNT_TOO_BIG))
    /\ spent_coins w' = spent_coins w.
Proof.
  intros Hstop Hscanty Hpending.
  exists (push_complete_event w (transactionId context) (Some MIXIN_COUNT_TOO_BIG)).
  split; [|split; [|split]].
  - unfold sendTransactionRandomOutsByAmount. rewrite Hstop.
    assert (E : existsb (fun out => Z.of_nat (length (ofa_outs out)) <? mixIn context)
                        (outs context) = true).
    { apply existsb_exists. apply Exists_exists in Hscanty.
      destruct Hscanty as (out & Hin & Hlt). exists out. split; [exact Hin|].
      apply Z.ltb_lt. exact Hlt. }
    rewrite E. reflexivity.
  - apply push_complete_event_events.
  - eapply push_complete_event_state. exact Hpending.
  - apply push_complete_event_spent.
Qed.

Lemma sendTransactionRandomOutsByAmount_scanty_witness :
  exists w',
    sendTransactionRandomOutsByAmount (H := scenarioExternals)
      scenarioC_context None scenarioC_wallet = (Ok None, w')
    /\ events w' = [WalletSendTransactionCompletedEvent O (Some MIXIN_COUNT_TOO_BIG)]
    /\ sending_state w' O = Some (Finalized (Some MIXIN_COUNT_TOO_BIG)).
Proof.
  destruct (sendTransactionRandomOutsByAmount_scanty (H := scenarioExternals)
              scenarioC_context scenarioC_wallet)
    as (w' & Hrun & Hev & Hst & _).
  - reflexivity.
  - constructor. simpl. lia.
  - reflexivity.
  - exists w'. repeat split; assumption.
Defined.

(** The wallet and context of scenario C are those the send of
    scenario C leaves behind. *)
Example scenarioC_reached :
  step (H := scenarioExternals) scenarioC_send (initial (scenarioWallet [coin 2000 7]))
  = Some {| wallet := scenarioC_wallet;
            requests := [WalletGetRandomOutsByAmountsRequest [2000] 6
                           (with_outs scenarioC_context [])] |}.
Proof. vm_compute. reflexivity. Qed.

(** C5, as the code has it.  A stop observed on entry to
    [doSendTransaction], or by the decoy callback whatever the node
    answered, ends the send with [TX_CANCELLED]: no request is handed
    back, one completion event with that code is pushed and the
    pending record is finalized with it.  A stop observed by the relay
    callback makes it return at once: the wallet, and with it the
    record of the send, stays as it was. *)
Theorem stop_finalizes_before_relay `{Externals}
  (context : SendTransactionContext) (ec : error_code) (w : Wallet) :
  m_isStoping w = true ->
  (doSendTransaction context w
   = (Ok None, push_complete_event w (transactionId context) (Some TX_CANCELLED))
   /\ sendTransactionRandomOutsByAmount context ec w
      = (Ok None, push_complete_event w (transactionId context) (Some TX_CANCELLED))
   /\ events (push_complete_event w (transactionId context) (Some TX_CANCELLED))
      = events w ++ [WalletSendTransactionCompletedEvent (transactionId context)
                       (Some TX_CANCELLED)]
   /\ (forall st, sending_state w (transactionId context) = Some st ->
                  sending_state
                    (push_complete_event w (transactionId context) (Some TX_CANCELLED))
                    (transactionId context)
                  = Some (Finalized (Some TX_CANCELLED))))
  /\ relayTransactionCallback context ec w = (Ok tt, w).
Proof.
  intros Hstop. repeat split.
  - unfold doSendTransaction. now rewrite Hstop.
  - unfold sendTransactionRandomOutsByAmount. now rewrite Hstop.
  - intros st Hst. eapply push_complete_event_state. exact Hst.
  - unfold relayTransactionCallback. now rewrite Hstop.
Qed.

Lemma stop_finalizes_before_relay_witness :
  sendTransactionRandomOutsByAmount (H := scenarioExternals) scenarioC_context None
    (stop scenarioC_wallet)
  = (Ok None, push_complete_event (stop scenarioC_wallet) O (Some TX_CANCELLED))
  /\ sending_state (push_complete_event (stop scenarioC_wallet) O (Some TX_CANCELLED)) O
     = Some (Finalized (Some TX_CANCELLED)).
Proof.
  destruct (stop_finalizes_before_relay (H := scenarioExternals) scenarioC_context None
              (stop scenarioC_wallet) eq_refl)
    as ((_ & Hcb & _ & Hst) & _).
  split; [exact Hcb|]. apply (Hst Pending). reflexivity.
Defined.

(** C5 as stated fails at the relay callback.  In scenario A the send
    hands back its relay request with the record of the send pending.
    If the stop signal is raised before the relay completes, the relay
    callback returns at once: the wallet is as it was, so the record is
    still pending, not finalized with [TX_CANCELLED], and no completion
    event has been pushed. *)
Lemma stop_at_relay_leaves_record_pending :
  exists tx context,
    fst scenarioA_sent = Ok (O, Some (WalletRelayTransactionRequest tx context))
    /\ transactionId context = O
    /\ m_isStoping (stop (snd scenarioA_sent)) = true
    /\ relayTransactionCallback context None (stop (snd scenarioA_sent))
       = (Ok tt, stop (snd scenarioA_sent))
    /\ sending_state (stop (snd scenarioA_sent)) O = Some Pending
    /\ sending_state (stop (snd scenarioA_sent)) O
       <> Some (Finalized (Some TX_CANCELLED))
    /\ completions O (events (stop (snd scenarioA_sent))) = O.
Proof.
  eexists. eexists. split; [vm_compute; reflexivity|].
  split; [reflexivity|]. split; [reflexivity|].
  split; [vm_compute; reflexivity|].
  split; [vm_compute; reflexivity|].
  split; [vm_compute; discriminate | vm_compute; reflexivity].
Qed.

(** The same through the driver: send, stop, relay answered. *)
Example scenario_stopped_during_relay :
  exists s,
    run (H := scenarioExternals) [scenarioA_send; act_stop; act_relayed O None]
        (initial (scenarioWallet [coin 2000 7])) = Some s
    /\ requests s = []
    /\ sending_state (wallet s) O = Some Pending
    /\ completions O (events (wallet s)) = O.
Proof.
  eexists. split; [vm_compute; reflexivity|]. repeat split; reflexivity.
Qed.

(** ** Completion events *)

Lemma completions_app id a b :
  completions id (a ++ b) = (completions id a + completions id b)%nat.
Proof. unfold completions. now rewrite filter_app, length_app. Qed.

Lemma outstanding_app id a b :
  outstanding id (a ++ b) = (outstanding id a + outstanding id b)%nat.
Proof. unfold outstanding. now rewrite filter_app, length_app. Qed.

Lemma outstanding_remove_nth id rs :
  forall n r, nth_error rs n = Some r ->
    outstanding id rs
    = (outstanding id (remove_nth n rs)
       + (if (request_id r =? id)%nat then 1 else 0))%nat.
Proof.
  unfold outstanding.
  induction rs as [|h t IH]; intros [|n] r Hr; simpl in Hr; try discriminate.
  - inversion Hr; subst. simpl. destruct (request_id r =? id)%nat; simpl; lia.
  - simpl. specialize (IH n r Hr).
    destruct (request_id h =? id)%nat; simpl; lia.
Qed.

Lemma push_complete_event_length w id ec :
  length (m_transactions (m_transactionsCache (push_complete_event w id ec)))
  = length (m_transactions (m_transactionsCache w)).
Proof.
  unfold push_complete_event, makeCompleteEvent, updateTransactionSendingState.
  simpl. apply update_transaction_length.
Qed.

(** Finalizing emits the one completion event of the send. *)
Lemma push_complete_event_emits w id ec :
  emits id None w (push_complete_event w id ec).
Proof.
  split; [apply push_complete_event_length|].
  exists [WalletSendTransactionCompletedEvent id ec]. split; [reflexivity|].
  intros id'. unfold completions, outstanding. simpl.
  rewrite Nat.eqb_sym. destruct (id' =? id)%nat; reflexivity.
Qed.

(** The [try] block either hands back the relay request of the send,
    having pushed the two balance events, or leaves the wallet as it
    was. *)
Lemma doSendTransaction_try_effect `{Externals} context w r w' :
  doSendTransaction_try context w = (r, w') ->
  match r with
  | Ok request => emits (transactionId context) (Some request) w w'
                  /\ exists tx c, request = WalletRelayTransactionRequest tx c
  | Throw _ => w' = w
  | Undefined => w' = w
  end.
Proof.
  unfold doSendTransaction_try, bind, lift, modify, ret. intros Hrun.
  destruct (getTransaction _ _) as [transaction| |];
    [| inversion Hrun; subst; reflexivity ..].
  destruct (prepareInputs _ _ _ _) as [prepared| |];
    [| inversion Hrun; subst; reflexivity ..].
  destruct (splitDestinations _ _ _ _ _) as [splittedDests| |];
    [| inversion Hrun; subst; reflexivity ..].
  destruct (constructTx _ _ _ _ _ _) as [tx| |];
    [| inversion Hrun; subst; reflexivity ..].
  inversion Hrun; subst. split; [|eauto].
  split.
  - unfold notifyBalanceChanged, push_back_event, with_cache, updateTransaction,
      set_transaction_hash. simpl. apply update_transaction_length.
  - eexists. split.
    + unfold notifyBalanceChanged, push_back_event, with_cache. simpl.
      rewrite <- app_assoc. reflexivity.
    + intros id'. unfold completions, outstanding. simpl.
      rewrite Nat.eqb_sym. destruct (id' =? transactionId context)%nat; reflexivity.
Qed.

Lemma doSendTransaction_effect `{Externals} context w r w' :
  doSendTransaction context w = (r, w') ->
  match r with
  | Ok request =>
      emits (transactionId context) request w w'
      /\ (forall a n c, request <> Some (WalletGetRandomOutsByAmountsRequest a n c))
  | Throw _ => False
  | Undefined => True
  end.
Proof.
  unfold doSendTransaction. intros Hrun.
  destruct (m_isStoping w).
  - inversion Hrun; subst. split; [apply push_complete_event_emits | discriminate].
  - destruct (doSendTransaction_try context w) as [r0 w0] eqn:Htry.
    apply doSendTransaction_try_effect in Htry.
    destruct r0 as [request|[ec|]|].
    + inversion Hrun; subst. destruct Htry as [Hem (tx & c & ->)].
      split; [exact Hem | discriminate].
    + inversion Hrun; subst. split; [apply push_complete_event_emits | discriminate].
    + inversion Hrun; subst. split; [apply push_complete_event_emits | discriminate].
    + inversion Hrun; subst. exact I.
Qed.

Lemma sendTransactionRandomOutsByAmount_effect `{Externals} context ec w r w' :
  sendTransactionRandomOutsByAmount context ec w = (r, w') ->
  match r with
  | Ok request =>
      emits (transactionId context) request w w'
      /\ (forall a n c, request <> Some (WalletGetRandomOutsByAmountsRequest a n c))
  | Throw _ => False
  | Undefined => True
  end.
Proof.
  unfold sendTransactionRandomOutsByAmount. intros Hrun.
  destruct (if m_isStoping w then Some TX_CANCELLED else ec).
  - inversion Hrun; subst. split; [apply push_complete_event_emits | discriminate].
  - destruct (existsb _ _).
    + inversion Hrun; subst. split; [apply push_complete_event_emits | discriminate].
    + apply doSendTransaction_effect. exact Hrun.
Qed.

(** The send either throws, leaving the wallet as it was, or creates
    the record of a fresh identifier and emits the one thing of that
    send. *)
Lemma makeSendRequest_effect `{Externals} rg transfers fee extra mixin unlock w r w' :
  makeSendRequest rg transfers fee extra mixin unlock w = (r, w') ->
  match r with
  | Ok (id, request) =>
      id = length (m_transactions (m_transactionsCache w))
      /\ length (m_transactions (m_transactionsCache w'))
         = S (length (m_transactions (m_transactionsCache w)))
      /\ (exists evs,
             events w' = events w ++ evs
             /\ forall id',
                  (completions id' evs + outstanding id' (option_list request))%nat
                  = if (id' =? id)%nat then 1%nat else 0%nat)
      /\ (forall a n c, request = Some (WalletGetRandomOutsByAmountsRequest a n c) ->
                        mixIn c <> 0)
  | Throw _ => w' = w
  | Undefined => True
  end.
Proof.
  unfold makeSendRequest, bind, lift, ret. intros Hrun.
  destruct (throwIf (is_empty transfers) ZERO_DESTINATION);
    [| inversion Hrun; subst; auto ..].
  destruct (validateTransfersAddresses transfers);
    [| inversion Hrun; subst; auto ..].
  destruct (countNeededMoney fee transfers) as [needed| |];
    [| inversion Hrun; subst; auto ..].
  destruct (selectTransfersToSend _ _ _ _ _ _) as [[found selected]|];
    [| inversion Hrun; subst; auto].
  cbn [fst snd] in Hrun.
  destruct (throwIf (found <? needed) WRONG_AMOUNT);
    [| inversion Hrun; subst; auto ..].
  cbn [addNewTransaction] in Hrun.
  set (w1 := with_cache w _) in Hrun.
  assert (Hlen1 : length (m_transactions (m_transactionsCache w1))
                  = S (length (m_transactions (m_transactionsCache w)))).
  { subst w1. simpl. rewrite length_app. simpl. lia. }
  assert (Hev1 : events w1 = events w) by reflexivity.
  destruct (negb (mixin =? 0)) eqn:Emix.
  - inversion Hrun; subst r w'. split; [reflexivity|]. split; [exact Hlen1|]. split.
    + exists []. rewrite app_nil_r. split; [exact Hev1|].
      intros id'. unfold completions, outstanding, makeGetRandomOutsRequest. simpl.
      rewrite Nat.eqb_sym. destruct (id' =? _)%nat; reflexivity.
    + intros amounts outsCount c Hreq. unfold makeGetRandomOutsRequest in Hreq.
      inversion Hreq; subst. simpl.
      apply negb_true_iff, Z.eqb_neq in Emix. exact Emix.
  - match type of Hrun with
    | context [doSendTransaction ?c w1] =>
        destruct (doSendTransaction c w1) as [r0 w2] eqn:Hsend
    end.
    apply doSendTransaction_effect in Hsend.
    destruct r0 as [request| |]; [| contradiction | inversion Hrun; subst; exact I].
    inversion Hrun; subst r w'. cbn [transactionId] in Hsend.
    destruct Hsend as [[Hlen2 (evs & Hev2 & Hcount)] Hkind].
    split; [reflexivity|]. split; [congruence|]. split.
    + exists evs. split; [congruence | exact Hcount].
    + intros amounts outsCount c Hreq. exfalso.
      exact (Hkind amounts outsCount c Hreq).
Qed.

Lemma relayTransactionCallback_effect context ec w r w' :
  relayTransactionCallback context ec w = (r, w') ->
  length (m_transactions (m_transactionsCache w'))
  = length (m_transactions (m_transactionsCache w))
  /\ exists evs,
       events w' = events w ++ evs
       /\ forall id',
            (completions id' evs
             <= if (id' =? transactionId context)%nat then 1 else 0)%nat.
Proof.
  unfold relayTransactionCallback. intros Hrun. destruct (m_isStoping w).
  - inversion Hrun; subst. split; [reflexivity|].
    exists []. rewrite app_nil_r. split; [reflexivity|].
    intros id'. unfold completions. simpl. destruct (id' =? _)%nat; lia.
  - inversion Hrun; subst. destruct (push_complete_event_emits w (transactionId context) ec)
      as [Hlen (evs & Hev & Hcount)].
    split; [exact Hlen|]. exists evs. split; [exact Hev|].
    intros id'. specialize (Hcount id'). simpl in Hcount.
    unfold outstanding in Hcount. simpl in Hcount. lia.
Qed.

Lemma at_most_once_initial w : events w = [] -> at_most_once (initial w).
Proof.
  intros Hev id. unfold initial, completions, outstanding. simpl. rewrite Hev.
  simpl. split; [lia | reflexivity].
Qed.

(** Every step of the system keeps the invariant. *)
Lemma step_at_most_once `{Externals} a s s' :
  at_most_once s -> step a s = Some s' -> at_most_once s'.
Proof.
  intros Hinv Hstep. destruct a as [rg transfers fee extra mixin unlock| |n outs ec|n ec|c];
    cbn [step] in Hstep.
  - destruct (makeSendRequest rg transfers fee extra mixin unlock (wallet s))
      as [r w'] eqn:Hsend.
    apply makeSendRequest_effect in Hsend.
    destruct r as [[id request]|x|]; [| |discriminate].
    + inversion Hstep; subst s'. clear Hstep.
      destruct Hsend as (Hid & Hlen & (evs & Hev & Hcount) & _).
      intros id'. cbn [wallet requests].
      rewrite Hev, completions_app, outstanding_app, Hlen.
      specialize (Hcount id'). destruct (Hinv id') as [Hle Hfresh].
      destruct (id' =? id)%nat eqn:E.
      * apply Nat.eqb_eq in E. subst id'.
        rewrite Hid in Hfresh. specialize (Hfresh (le_n _)).
        rewrite <- Hid in *. split; lia.
      * apply Nat.eqb_neq in E. split; [lia|]. intros Hge.
        assert (Hold : (length (m_transactions (m_transactionsCache (wallet s))) <= id')%nat)
          by lia.
        specialize (Hfresh Hold). lia.
    + inversion Hstep; subst s'. subst w'. destruct s. exact Hinv.
  - inversion Hstep; subst s'. exact Hinv.
  - destruct (nth_error (requests s) n) as [[amounts outsCount context|tx context]|] eqn:Hn;
      try (inversion Hstep; subst s'; exact Hinv).
    destruct (sendTransactionRandomOutsByAmount (with_outs context outs) ec (wallet s))
      as [r w'] eqn:Hcb.
    apply sendTransactionRandomOutsByAmount_effect in Hcb.
    destruct r as [nextRequest|x|]; [|contradiction|discriminate].
    inversion Hstep; subst s'. clear Hstep.
    destruct Hcb as [[Hlen (evs & Hev & Hcount)] _]. cbn [transactionId with_outs] in Hcount.
    intros id'. cbn [wallet requests].
    rewrite Hev, completions_app, outstanding_app, Hlen.
    specialize (Hcount id'). destruct (Hinv id') as [Hle Hfresh].
    rewrite (outstanding_remove_nth id' _ _ _ Hn) in Hle, Hfresh.
    cbn [request_id] in Hle, Hfresh.
    rewrite (Nat.eqb_sym (transactionId context) id') in Hle, Hfresh.
    destruct (id' =? transactionId context)%nat; split; try lia;
      intros Hge; specialize (Hfresh Hge); lia.
  - destruct (nth_error (requests s) n) as [[amounts outsCount context|tx context]|] eqn:Hn;
      try (inversion Hstep; subst s'; exact Hinv).
    destruct (relayTransactionCallback context ec (wallet s)) as [r w'] eqn:Hcb.
    apply relayTransactionCallback_effect in Hcb.
    inversion Hstep; subst s'. clear Hstep.
    destruct Hcb as [Hlen (evs & Hev & Hcount)].
    intros id'. cbn [wallet requests].
    rewrite Hev, completions_app, Hlen.
    specialize (Hcount id'). destruct (Hinv id') as [Hle Hfresh].
    rewrite (outstanding_remove_nth id' _ _ _ Hn) in Hle, Hfresh.
    cbn [request_id] in Hle, Hfresh.
    rewrite (Nat.eqb_sym (transactionId context) id') in Hle, Hfresh.
    destruct (id' =? transactionId context)%nat; split; try lia;
      intros Hge; specialize (Hfresh Hge); lia.
  - inversion Hstep; subst s'. exact Hinv.
Qed.

Lemma run_at_most_once `{Externals} actions :
  forall s s', at_most_once s -> run actions s = Some s' -> at_most_once s'.
Proof.
  induction actions as [|a rest IH]; intros s s' Hinv Hrun; simpl in Hrun.
  - inversion Hrun; subst. exact Hinv.
  - destruct (step a s) as [s1|] eqn:Hstep; [|discriminate].
    eapply IH; [|exact Hrun]. eapply step_at_most_once; eassumption.
Qed.

(** C6.  Whatever the order in which sends are started, decoy fetches
    and relays complete and the stop signal is raised, the deque never
    holds two completion events for one transaction identifier; and a
    send that has its completion event has no request outstanding. *)
Theorem completion_at_most_once `{Externals}
  (w0 : Wallet) (actions : list action) (s : System) :
  events w0 = [] ->
  run actions (initial w0) = Some s ->
  forall id,
    (completions id (events (wallet s)) <= 1)%nat
    /\ (completions id (events (wallet s)) + outstanding id (requests s) <= 1)%nat.
Proof.
  intros Hev Hrun id.
  pose proof (run_at_most_once actions _ _ (at_most_once_initial w0 Hev) Hrun id)
    as [Hle _].
  split; lia.
Qed.

Lemma completion_at_most_once_witness :
  exists s,
    run (H := scenarioExternals)
        [scenarioC_send; scenarioA_send; act_relayed 1%nat None; act_stop;
         act_random_outs O threeDecoys None; act_relayed O None]
        (initial (scenarioWallet [coin 2000 7; coin 3000 8])) = Some s
    /\ completions 0%nat (events (wallet s)) = 1%nat
    /\ completions 1%nat (events (wallet s)) = 1%nat
    /\ forall id, (completions id (events (wallet s)) <= 1)%nat.
Proof.
  eexists. split; [vm_compute; reflexivity|].
  split; [reflexivity|]. split; [reflexivity|].
  intros id.
  apply (completion_at_most_once (H := scenarioExternals)
           (scenarioWallet [coin 2000 7; coin 3000 8])
           [scenarioC_send; scenarioA_send; act_relayed 1%nat None; act_stop;
            act_random_outs O threeDecoys None; act_relayed O None]
           _ eq_refl eq_refl id).
Defined.

(** ** How the sender calls the preparer

    A decoy request is emitted only for a positive mixin, and its
    callback is the only place where decoy sets enter a context; the
    direct call from [makeSendRequest], for [mixIn = 0], comes with
    [outs] empty. *)

Lemma remove_nth_Forall {A} (P : A -> Prop) l :
  forall n, Forall P l -> Forall P (remove_nth n l).
Proof.
  induction l as [|h t IH]; intros [|n] Hl; simpl; auto;
    inversion Hl; subst; auto.
Qed.

Lemma step_decoy_requests_positive `{Externals} a s s' :
  decoy_requests_positive (requests s) -> step a s = Some s' ->
  decoy_requests_positive (requests s').
Proof.
  unfold decoy_requests_positive. intros Hinv Hstep.
  destruct a as [rg transfers fee extra mixin unlock| |n outs ec|n ec|c];
    cbn [step] in Hstep.
  - destruct (makeSendRequest rg transfers fee extra mixin unlock (wallet s))
      as [r w'] eqn:Hsend.
    apply makeSendRequest_effect in Hsend.
    destruct r as [[id request]|x|]; [| |discriminate];
      inversion Hstep; subst s'; cbn [requests]; [|exact Hinv].
    apply Forall_app. split; [exact Hinv|].
    destruct Hsend as (_ & _ & _ & Hkind).
    destruct request as [[amounts outsCount context|tx context]|]; simpl;
      repeat constructor.
    apply (Hkind amounts outsCount context eq_refl).
  - inversion Hstep; subst s'. exact Hinv.
  - destruct (nth_error (requests s) n) as [[amounts outsCount context|tx context]|];
      try (inversion Hstep; subst s'; exact Hinv).
    destruct (sendTransactionRandomOutsByAmount (with_outs context outs) ec (wallet s))
      as [r w'] eqn:Hcb.
    apply sendTransactionRandomOutsByAmount_effect in Hcb.
    destruct r as [nextRequest|x|]; [|contradiction|discriminate].
    inversion Hstep; subst s'. cbn [requests].
    apply Forall_app. split; [apply remove_nth_Forall; exact Hinv|].
    destruct Hcb as [_ Hkind].
    destruct nextRequest as [[amounts' outsCount' context'|tx context']|]; simpl;
      repeat constructor.
    exfalso. exact (Hkind amounts' outsCount' context' eq_refl).
  - destruct (nth_error (requests s) n) as [[amounts outsCount context|tx context]|];
      try (inversion Hstep; subst s'; exact Hinv).
    destruct (relayTransactionCallback context ec (wallet s)) as [r w'].
    inversion Hstep; subst s'. cbn [requests].
    apply remove_nth_Forall. exact Hinv.
  - inversion Hstep; subst s'. exact Hinv.
Qed.

Lemma run_decoy_requests_positive `{Externals} actions :
  forall s s',
    decoy_requests_positive (requests s) -> run actions s = Some s' ->
    decoy_requests_positive (requests s').
Proof.
  induction actions as [|a rest IH]; intros s s' Hinv Hrun; simpl in Hrun.
  - inversion Hrun; subst. exact Hinv.
  - destruct (step a s) as [s1|] eqn:Hstep; [|discriminate].
    eapply IH; [|exact Hrun]. eapply step_decoy_requests_positive; eassumption.
Qed.

(** ** The steps are defined *)

Lemma digitSplitStrategy_transfers_defined `{Externals} cache thr count :
  forall idx acc, digitSplitStrategy_transfers cache idx count thr acc <> Undefined.
Proof.
  induction count as [|count IH]; intros idx acc; simpl; [discriminate|].
  unfold getTransfer. destruct (nth_error (m_transfers cache) idx); simpl;
    [|discriminate].
  destruct (parseAccountAddressString _); [apply IH | discriminate].
Qed.

Lemma splitDestinations_defined `{Externals} cache first count change policy :
  splitDestinations cache first count change policy <> Undefined.
Proof.
  unfold splitDestinations, digitSplitStrategy.
  pose proof (digitSplitStrategy_transfers_defined cache (dustThreshold policy)
                (transfer_rounds first count) first []) as Hd.
  destruct (digitSplitStrategy_transfers _ _ _ _ _); simpl;
    [| discriminate | contradiction].
  unfold splitDestinations_dust.
  destruct (dustThreshold policy <? _); simpl; [discriminate|].
  destruct (negb _ && negb _); discriminate.
Qed.

Lemma constructTx_defined `{Externals} keys sources dests extra unlock limit :
  constructTx keys sources dests extra unlock limit <> Undefined.
Proof.
  unfold constructTx. destruct (construct_tx _ _ _ _ _); [|discriminate].
  destruct (limit <=? _); simpl; discriminate.
Qed.

(** With decoy sets the preparer can index, [doSendTransaction]
    returns. *)
Lemma doSendTransaction_defined `{Externals} context w :
  outs context = [] \/ (length (selectedTransfers context) <= length (outs context))%nat ->
  exists r w', doSendTransaction context w = (Ok r, w').
Proof.
  intros Houts. unfold doSendTransaction.
  destruct (m_isStoping w); [eexists; eexists; reflexivity|].
  destruct (doSendTransaction_try context w) as [r w'] eqn:Htry.
  destruct r as [request|[ec|]|].
  - eexists; eexists; reflexivity.
  - eexists; eexists; reflexivity.
  - eexists; eexists; reflexivity.
  - exfalso. revert Htry. unfold doSendTransaction_try, bind, lift, modify, ret.
    unfold getTransaction.
    destruct (nth_error _ _) as [transaction|]; try discriminate.
    destruct (prepareInputs_returns (selectedTransfers context) (outs context) []
                (mixIn context) Houts) as [p Hp].
    rewrite Hp.
    pose proof (splitDestinations_defined (m_transactionsCache w)
                  (firstTransferId transaction) (transferCount transaction)
                  (createChangeDestinations (m_account_address (m_keys w))
                     (u64 (- totalAmount transaction)) (foundMoney context)
                     AUTO_VAL_INIT_changeDts)
                  (dustPolicy context)) as Hs.
    destruct (splitDestinations _ _ _ _ _) as [d| |]; try discriminate;
      [|contradiction].
    pose proof (constructTx_defined (m_keys w) (snd p) d (extra transaction)
                  (unlockTime transaction) (m_upperTransactionSizeLimit w)) as Hc.
    destruct (constructTx _ _ _ _ _ _); try discriminate. contradiction.
Qed.

(** Every action steps the system, a decoy response provided the
    preparer can index it. *)
Lemma step_defined `{Externals} a s :
  answers_request s a -> exists s', step a s = Some s'.
Proof.
  intros Hans. destruct a as [rg transfers fee extra mixin unlock| |n outs ec|n ec|c];
    cbn [step]; try (eexists; reflexivity).
  - destruct (makeSendRequest rg transfers fee extra mixin unlock (wallet s))
      as [r w'] eqn:Hsend.
    destruct r as [[id request]|x|]; try (eexists; reflexivity).
    exfalso. revert Hsend. unfold makeSendRequest, bind, lift, ret.
    unfold throwIf at 1. destruct (is_empty transfers); try discriminate.
    destruct (validateTransfersAddresses transfers) eqn:Hval; try discriminate.
    2:{ exfalso. clear - Hval. induction transfers as [|t rest IH]; simpl in Hval;
          [discriminate|].
        destruct (validateDestinationAddress (address t)); [auto | discriminate]. }
    destruct (countNeededMoney fee transfers) as [needed| |] eqn:Hcount;
      try discriminate.
    2:{ exfalso. clear - Hcount. unfold countNeededMoney in Hcount.
        revert fee Hcount. induction transfers as [|t rest IH]; intros fee Hcount;
          simpl in Hcount; [discriminate|].
        destruct (amount t =? 0); simpl in Hcount; [discriminate|].
        destruct (amount t <? 0); simpl in Hcount; [discriminate|].
        destruct (to_int64 _ <? amount t); simpl in Hcount; [discriminate|].
        eapply IH. exact Hcount. }
    destruct (selectTransfersToSend_total (wallet s) rg needed (mixin =? 0)
                (dustThreshold defaultDustPolicy) []) as [[found selected] Hsel].
    rewrite Hsel. cbn [fst snd].
    unfold throwIf. destruct (found <? needed); try discriminate.
    cbn [addNewTransaction].
    destruct (negb (mixin =? 0)); [discriminate|].
    match goal with
    | |- context [doSendTransaction ?c ?w1] =>
        destruct (doSendTransaction_defined c w1 (or_introl eq_refl))
          as (r0 & w2 & Hd); rewrite Hd
    end.
    discriminate.
  - destruct (nth_error (requests s) n) as [[amounts outsCount context|tx context]|] eqn:Hn;
      try (eexists; reflexivity).
    specialize (Hans amounts outsCount context Hn).
    unfold sendTransactionRandomOutsByAmount.
    destruct (if m_isStoping (wallet s) then Some TX_CANCELLED else ec);
      [eexists; reflexivity|].
    destruct (existsb _ _); [eexists; reflexivity|].
    destruct (doSendTransaction_defined (with_outs context outs) (wallet s) Hans)
      as (r0 & w2 & Hd).
    rewrite Hd. eexists. reflexivity.
  - destruct (nth_error (requests s) n) as [[amounts outsCount context|tx context]|];
      try (eexists; reflexivity).
    destruct (relayTransactionCallback context ec (wallet s)). eexists. reflexivity.
Qed.

(** ** The scenarios of the specification *)

(** Scenario A: the send succeeds; the change of 990 goes back to the
    wallet as the chunks 90 and 900; one relay request is emitted and,
    once the node accepts it, the one completion event carries no
    error and the record is finalized with the empty code. *)
Example scenarioA_succeeds :
  exists w tx context s,
    step (H := scenarioExternals) scenarioA_send (initial (scenarioWallet [coin 2000 7]))
    = Some {| wallet := w; requests := [WalletRelayTransactionRequest tx context] |}
    /\ tx_destinations tx
       = [ {| dst_amount := 1000; addr := "bob"%string |};
           {| dst_amount := 90; addr := "wallet"%string |};
           {| dst_amount := 900; addr := "wallet"%string |} ]
    /\ spent_coins w = [coin 2000 7]
    /\ run (H := scenarioExternals) [scenarioA_send; act_relayed O None]
           (initial (scenarioWallet [coin 2000 7])) = Some s
    /\ requests s = []
    /\ filter (is_completion O) (events (wallet s))
       = [WalletSendTransactionCompletedEvent O None]
    /\ sending_state (wallet s) O = Some (Finalized None).
Proof.
  do 4 eexists. split; [vm_compute; reflexivity|].
  split; [reflexivity|]. split; [reflexivity|].
  split; [vm_compute; reflexivity|]. repeat split; reflexivity.
Qed.

(** Scenario B: a transfer of amount 0 is refused with
    [ZERO_DESTINATION]; the wallet is untouched. *)
Example scenarioB_zero_destination :
  makeSendRequest (H := scenarioExternals) firstIndex [mkTransfer "bob"%string 0]
    10 String.EmptyString 0 0 (scenarioWallet [coin 2000 7])
  = (Throw (system_error ZERO_DESTINATION), scenarioWallet [coin 2000 7]).
Proof. vm_compute. reflexivity. Qed.

(** The cancellation scenario: a stop raised while the decoy request
    is outstanding ends the send with [TX_CANCELLED], once, and no
    relay request is emitted. *)
Example scenario_cancelled_during_decoy_fetch :
  exists s,
    run (H := scenarioExternals)
        [scenarioC_send; act_stop; act_random_outs O threeDecoys None]
        (initial (scenarioWallet [coin 2000 7])) = Some s
    /\ requests s = []
    /\ events (wallet s) = [WalletSendTransactionCompletedEvent O (Some TX_CANCELLED)]
    /\ sending_state (wallet s) O = Some (Finalized (Some TX_CANCELLED)).
Proof.
  eexists. split; [vm_compute; reflexivity|]. repeat split; reflexivity.
Qed.

(** With [mixIn = 0] the preparer is meant to get no decoys; were it
    handed some, its loop would copy one before testing the count. *)
Example prepareInputs_zero_mixin_with_decoys :
  exists decoys' src,
    prepareInputs [coin 70 5] scenarioDecoys [] 0 = Ok (decoys', [src])
    /\ outputs src = [(2, 202); (5, 205)].
Proof. eexists. eexists. split; [vm_compute; reflexivity | reflexivity]. Qed.

(** * Further properties of the sender *)

(** ** Validation of a request *)

(** The loop over the transfers composes: a list is counted by
    counting its front and going on from there. *)
Lemma countNeededMoney_loop_app a b :
  forall n,
    countNeededMoney_loop n (a ++ b)
    = (let! m := countNeededMoney_loop n a in countNeededMoney_loop m b).
Proof.
  induction a as [|t a IH]; intros n; [reflexivity|].
  cbn [app countNeededMoney_loop].
  destruct (amount t =? 0); [reflexivity|].
  destruct (amount t <? 0); [reflexivity|].
  cbn [throwIf rbind].
  destruct (to_int64 (u64 (n + amount t)) <? amount t); [reflexivity|].
  cbn [throwIf rbind]. apply IH.
Qed.

Lemma countNeededMoney_loop_ok transfers :
  Forall (fun t => - two63 <= amount t < two63) transfers ->
  forall fee n,
    0 <= fee < two64 ->
    countNeededMoney_loop fee transfers = Ok n ->
    Forall (fun t => 0 < amount t) transfers
    /\ n = fee + sum_amounts transfers
    /\ (transfers <> [] -> n < two63).
Proof.
  induction 1 as [|t rest Ht Hrest IH]; intros fee n Hfee Hrun.
  - simpl in Hrun. inversion Hrun; subst. simpl.
    split; [constructor|]. split; [lia | congruence].
  - cbn [countNeededMoney_loop] in Hrun.
    destruct (amount t =? 0) eqn:E0; [discriminate|].
    destruct (amount t <? 0) eqn:E1; [discriminate|].
    apply Z.eqb_neq in E0. apply Z.ltb_ge in E1.
    cbn [throwIf rbind] in Hrun.
    destruct (to_int64 (u64 (fee + amount t)) <? amount t) eqn:E2; [discriminate|].
    cbn [throwIf rbind] in Hrun.
    assert (Hpos : 0 < amount t < two63) by lia.
    assert (Hsum : fee + amount t < two63).
    { destruct (Z_lt_ge_dec (fee + amount t) two63) as [Hlt|Hge]; [exact Hlt|].
      rewrite (needed_step_reject fee (amount t) Hfee Hpos) in E2 by lia.
      discriminate. }
    destruct (needed_step_accept fee (amount t) Hfee Hpos Hsum) as [Eu _].
    rewrite Eu in Hrun.
    assert (Hfee' : 0 <= fee + amount t < two64)
      by (rewrite two63_val, two64_val in *; lia).
    destruct (IH (fee + amount t) n Hfee' Hrun) as (Hall & Hn & Hbound).
    split; [constructor; [lia | exact Hall]|].
    split; [simpl; lia|].
    intros _. destruct rest as [|t' rest'].
    + simpl in Hn. lia.
    + apply Hbound. discriminate.
Qed.

(** X1.  A needed money that [countNeededMoney] returns vouches for
    the request: every amount is positive, the value is the exact sum
    of the fee and the amounts, and, when there is a transfer at all,
    it is below [2^63]. *)
Theorem countNeededMoney_returns_only_valid
  (fee : Z) (transfers : list Transfer) (n : Z) :
  0 <= fee < two64 ->
  Forall (fun t => - two63 <= amount t < two63) transfers ->
  countNeededMoney fee transfers = Ok n ->
  Forall (fun t => 0 < amount t) transfers
  /\ n = fee + sum_amounts transfers
  /\ (transfers <> [] -> n < two63).
Proof.
  intros Hfee Hrange Hrun. unfold countNeededMoney in Hrun.
  exact (countNeededMoney_loop_ok transfers Hrange fee n Hfee Hrun).
Qed.

Lemma countNeededMoney_returns_only_valid_witness :
  Forall (fun t => 0 < amount t)
         [mkTransfer "bob"%string 1000; mkTransfer "carol"%string 25]
  /\ 1035 = 10 + sum_amounts [mkTransfer "bob"%string 1000; mkTransfer "carol"%string 25].
Proof.
  destruct (countNeededMoney_returns_only_valid 10
              [mkTransfer "bob"%string 1000; mkTransfer "carol"%string 25] 1035)
    as (Hpos & Hsum & _).
  - rewrite two64_val. lia.
  - repeat apply Forall_cons; try apply Forall_nil; simpl;
      rewrite ?two63_val; lia.
  - reflexivity.
  - split; assumption.
Defined.

(** X2.  The first transfer that is not positive decides the error:
    after a front that is counted without error, an amount of zero
    raises [ZERO_DESTINATION] and a negative amount [WRONG_AMOUNT],
    whatever follows it. *)
Theorem countNeededMoney_first_offender
  (fee : Z) (front : list Transfer) (t : Transfer) (rest : list Transfer) (m : Z) :
  countNeededMoney fee front = Ok m ->
  amount t <= 0 ->
  countNeededMoney fee (front ++ t :: rest)
  = Throw (system_error (if amount t =? 0 then ZERO_DESTINATION else WRONG_AMOUNT)).
Proof.
  unfold countNeededMoney. intros Hfront Ht.
  rewrite countNeededMoney_loop_app, Hfront. cbn [rbind countNeededMoney_loop].
  destruct (amount t =? 0) eqn:E0; [reflexivity|].
  apply Z.eqb_neq in E0.
  assert (E1 : (amount t <? 0) = true) by (apply Z.ltb_lt; lia).
  rewrite E1. reflexivity.
Qed.

Lemma countNeededMoney_first_offender_witness :
  countNeededMoney 10 ([mkTransfer "bob"%string 1000]
                       ++ mkTransfer "carol"%string (-5)
                       :: [mkTransfer "dave"%string 0])
  = Throw (system_error WRONG_AMOUNT).
Proof.
  apply (countNeededMoney_first_offender 10 [mkTransfer "bob"%string 1000]
           (mkTransfer "carol"%string (-5)) [mkTransfer "dave"%string 0] 1010).
  - reflexivity.
  - simpl. lia.
Defined.

Lemma validateTransfersAddresses_ok `{Externals} transfers :
  Forall (fun t => parseAccountAddressString (address t) <> None) transfers ->
  validateTransfersAddresses transfers = Ok tt.
Proof.
  induction 1 as [|t rest Ht _ IH]; simpl; [reflexivity|].
  unfold validateDestinationAddress.
  destruct (parseAccountAddressString (address t)); [exact IH | contradiction].
Qed.

Lemma validateTransfersAddresses_bad `{Externals} transfers :
  Exists (fun t => parseAccountAddressString (address t) = None) transfers ->
  validateTransfersAddresses transfers = Throw (system_error BAD_ADDRESS).
Proof.
  induction 1 as [t rest Ht|t rest _ IH]; simpl; unfold validateDestinationAddress.
  - rewrite Ht. reflexivity.
  - destruct (parseAccountAddressString (address t)); [exact IH | reflexivity].
Qed.

(** X3.  The order of the checks of [makeSendRequest]: an empty list
    of transfers is refused with [ZERO_DESTINATION]; otherwise one
    address that does not parse is enough for [BAD_ADDRESS], whatever
    the amounts, the fee and the funds are.  Either way the wallet is
    left as it was. *)
Theorem makeSendRequest_refuses_bad_request `{Externals}
  (rg : nat -> nat) (transfers : list Transfer) (fee : Z) (extra : string)
  (mixin unlock : Z) (w : Wallet) :
  (transfers = [] ->
   makeSendRequest rg transfers fee extra mixin unlock w
   = (Throw (system_error ZERO_DESTINATION), w))
  /\ (transfers <> [] ->
      Exists (fun t => parseAccountAddressString (address t) = None) transfers ->
      makeSendRequest rg transfers fee extra mixin unlock w
      = (Throw (system_error BAD_ADDRESS), w)).
Proof.
  split.
  - intros ->. reflexivity.
  - intros Hne Hbad. unfold makeSendRequest, bind, lift.
    destruct transfers as [|t rest]; [contradiction|].
    cbn [is_empty throwIf].
    rewrite (validateTransfersAddresses_bad _ Hbad). reflexivity.
Qed.

Lemma makeSendRequest_refuses_bad_request_witness :
  makeSendRequest (H := scenarioExternals) firstIndex
    [mkTransfer "bob"%string 0; mkTransfer String.EmptyString 5]
    10 String.EmptyString 0 0 (scenarioWallet [coin 2000 7])
  = (Throw (system_error BAD_ADDRESS), scenarioWallet [coin 2000 7]).
Proof.
  apply (makeSendRequest_refuses_bad_request (H := scenarioExternals)).
  - discriminate.
  - apply Exists_cons_tl. apply Exists_cons_hd. reflexivity.
Defined.

(** ** More on the coin selector *)

(** X4.  [popRandomValue] on a non-empty vector returns one of its
    elements and leaves the vector without one occurrence of it, in
    some order; on an empty vector it returns the default value and
    leaves the vector empty. *)
Theorem popRandomValue_takes_one_out (r : nat) (vec : list nat) :
  (vec = [] -> popRandomValue r vec = (O, []))
  /\ (vec <> [] ->
      In (fst (popRandomValue r vec)) vec
      /\ Permutation (fst (popRandomValue r vec) :: snd (popRandomValue r vec)) vec
      /\ S (length (snd (popRandomValue r vec))) = length vec).
Proof.
  split; [intros ->; reflexivity|]. intros Hne.
  pose proof (popRandomValue_permutation r vec Hne) as Hp.
  split; [|split].
  - eapply Permutation_in; [exact Hp | left; reflexivity].
  - exact Hp.
  - apply Permutation_length in Hp. exact Hp.
Qed.

Lemma popRandomValue_takes_one_out_witness :
  Permutation (fst (popRandomValue 5 [10; 11; 12; 13])%nat
               :: snd (popRandomValue 5 [10; 11; 12; 13])%nat)
              [10; 11; 12; 13]%nat.
Proof.
  apply (popRandomValue_takes_one_out 5 [10; 11; 12; 13]%nat). discriminate.
Defined.

Lemma picked_by_index (outputs : list TransactionOutputInformation) d idxs picked :
  Forall2 (fun i o => nth_error outputs i = Some o) idxs picked ->
  picked = map (fun i => nth i outputs d) idxs.
Proof.
  induction 1 as [|i o idxs picked Hio _ IH]; simpl; [reflexivity|].
  rewrite <- IH. f_equal. symmetry. apply nth_error_nth. exact Hio.
Qed.

Lemma unused_from_outputs cache d outputs :
  forall i,
    map (fun j => nth (j - i) outputs d) (unused_from cache outputs i)
    = unused_outputs cache outputs.
Proof.
  unfold unused_outputs.
  induction outputs as [|out rest IH]; intros i; simpl; [reflexivity|].
  assert (Hrest : map (fun j => nth (j - i) (out :: rest) d)
                      (unused_from cache rest (S i))
                  = filter (fun o => negb (isUsed cache o)) rest).
  { rewrite <- (IH (S i)). apply map_ext_in. intros j Hj.
    apply unused_from_valid in Hj. destruct Hj as [Hle _].
    replace (j - i)%nat with (S (j - S i)) by lia. reflexivity. }
  destruct (isUsed cache out); simpl; [exact Hrest|].
  rewrite Nat.sub_diag. simpl. f_equal. exact Hrest.
Qed.

Lemma sum_outputs_permutation a b :
  Permutation a b -> sum_outputs a = sum_outputs b.
Proof.
  induction 1; simpl; lia.
Qed.

(** X5.  The selector finds the money that is there: when the unused
    unlocked outputs are worth at least the needed money (and their
    total fits 64 bits), the found money reaches the needed money and
    is the exact sum of the selected coins. *)
Theorem selectTransfersToSend_sufficient
  (w : Wallet) (rg : nat -> nat) (needed : Z) (addDust : bool) (dust : Z) :
  Forall (fun o => 0 <= td_amount o < two64)
         (getOutputs_IncludeKeyUnlocked (m_transferDetails w)) ->
  sum_outputs (unused_outputs (m_transactionsCache w)
                 (getOutputs_IncludeKeyUnlocked (m_transferDetails w))) < two64 ->
  needed <= sum_outputs (unused_outputs (m_transactionsCache w)
                           (getOutputs_IncludeKeyUnlocked (m_transferDetails w))) ->
  exists found selected,
    selectTransfersToSend w rg needed addDust dust [] = Some (found, selected)
    /\ needed <= found
    /\ found = sum_outputs selected.
Proof.
  intros Hamounts Hfits Henough. unfold selectTransfersToSend.
  set (outputs := getOutputs_IncludeKeyUnlocked (m_transferDetails w)) in *.
  set (cache := m_transactionsCache w) in *.
  destruct (collect_unused_pools cache dust outputs O [] [])
    as (t & d & Hpools & Hperm).
  rewrite Hpools. simpl app.
  destruct (selectTransfersToSend_loop_spec rg outputs needed
              (S (length t + length d)) O (addDust && negb (is_empty d)) t d 0 [])
    as (found & idxs & picked & uT & uD & Hrun & Hpick & Hperm2 & Hf & _ & Hstop).
  - lia.
  - intros E. apply andb_true_iff in E. destruct E as [_ E].
    apply negb_true_iff, is_empty_false in E. exact E.
  - eapply Permutation_Forall; [symmetry; exact Hperm|].
    apply Forall_forall. intros j Hj. apply unused_from_valid in Hj.
    destruct Hj as (_ & o & Ho & _). rewrite Nat.sub_0_r in Ho. congruence.
  - rewrite two64_val. lia.
  - simpl in Hrun, Hf.
    set (d0 := mkOutput 0 0 0 0 0).
    set (f := fun i => nth i outputs d0).
    assert (Hpicked : picked = map f idxs) by (apply picked_by_index; exact Hpick).
    assert (Hall : Permutation (picked ++ map f (uT ++ uD))
                               (unused_outputs cache outputs)).
    { rewrite Hpicked, <- map_app.
      rewrite <- (unused_from_outputs cache d0 outputs O).
      erewrite (map_ext (fun j => nth (j - 0) outputs d0) f)
        by (intros j; unfold f; now rewrite Nat.sub_0_r).
      apply Permutation_map. rewrite Hperm2. exact Hperm. }
    assert (Hnonneg : forall l, 0 <= sum_outputs (map f l)).
    { intros l. induction l as [|j l IH]; simpl; [lia|].
      assert (0 <= td_amount (f j)); [|lia].
      unfold f. destruct (nth_in_or_default j outputs d0) as [Hin| ->].
      - rewrite Forall_forall in Hamounts. apply (Hamounts _ Hin).
      - simpl. lia. }
    apply sum_outputs_permutation in Hall. rewrite sum_outputs_app in Hall.
    pose proof (Hnonneg (uT ++ uD)) as Hrest.
    pose proof (Hnonneg idxs) as Hsel. rewrite <- Hpicked in Hsel.
    assert (Hexact : found = sum_outputs picked).
    { rewrite Hf. apply u64_small. lia. }
    exists found, picked. split; [exact Hrun|]. split; [|exact Hexact].
    destruct Hstop as [Hreach|[HuT HuD]]; [exact Hreach|].
    subst uT uD. simpl in Hall. lia.
Qed.

Lemma selectTransfersToSend_sufficient_witness :
  exists found selected,
    selectTransfersToSend (scenarioWallet [coin 300 1; coin 200 2; coin 700 3])
                          firstIndex 1100 false 0 [] = Some (found, selected)
    /\ 1100 <= found.
Proof.
  destruct (selectTransfersToSend_sufficient
              (scenarioWallet [coin 300 1; coin 200 2; coin 700 3])
              firstIndex 1100 false 0)
    as (found & selected & Hrun & Hreach & _).
  - repeat apply Forall_cons; try apply Forall_nil; simpl; rewrite ?two64_val; lia.
  - vm_compute. reflexivity.
  - vm_compute. discriminate.
  - exists found, selected. split; assumption.
Defined.

(** The two pools by class: the positions collected into
    [unusedTransfers] hold coins above the dust threshold, those
    collected into [unusedDust] coins within it. *)
Lemma collect_unused_classes cache dust outputs :
  forall i unusedTransfers unusedDust,
    exists t d,
      collect_unused cache dust outputs i unusedTransfers unusedDust
      = (unusedTransfers ++ t, unusedDust ++ d)
      /\ Permutation (t ++ d) (unused_from cache outputs i)
      /\ Forall (fun j => (i <= j)%nat
                          /\ exists o, nth_error outputs (j - i) = Some o
                                       /\ dust < td_amount o) t
      /\ Forall (fun j => (i <= j)%nat
                          /\ exists o, nth_error outputs (j - i) = Some o
                                       /\ td_amount o <= dust) d.
Proof.
  induction outputs as [|out rest IH]; intros i uT uD; simpl.
  - exists [], []. rewrite !app_nil_r. repeat split; constructor.
  - assert (Hshift : forall (P : TransactionOutputInformation -> Prop) l,
      Forall (fun j => (S i <= j)%nat
                       /\ exists o, nth_error rest (j - S i) = Some o /\ P o) l ->
      Forall (fun j => (i <= j)%nat
                       /\ exists o, nth_error (out :: rest) (j - i) = Some o /\ P o) l).
    { intros P l Hl. eapply Forall_impl; [|exact Hl].
      intros j (Hle & o & Ho & HP). split; [lia|]. exists o. split; [|exact HP].
      replace (j - i)%nat with (S (j - S i)) by lia. exact Ho. }
    destruct (isUsed cache out); simpl.
    + destruct (IH (S i) uT uD) as (t & d & Hrun & Hperm & Ht & Hd).
      exists t, d. repeat split; auto.
    + destruct (dust <? td_amount out) eqn:E.
      * apply Z.ltb_lt in E.
        destruct (IH (S i) (uT ++ [i]) uD) as (t & d & Hrun & Hperm & Ht & Hd).
        exists (i :: t), d. rewrite Hrun, <- app_assoc.
        split; [reflexivity|]. split; [simpl; apply perm_skip; exact Hperm|].
        split; [|auto].
        constructor; [|auto]. split; [lia|]. exists out.
        rewrite Nat.sub_diag. auto.
      * apply Z.ltb_ge in E.
        destruct (IH (S i) uT (uD ++ [i])) as (t & d & Hrun & Hperm & Ht & Hd).
        exists t, (i :: d). rewrite Hrun, <- app_assoc.
        split; [reflexivity|].
        split; [rewrite <- Permutation_middle; apply perm_skip; exact Hperm|].
        split; [auto|].
        constructor; [|auto]. split; [lia|]. exists out.
        rewrite Nat.sub_diag. auto.
Qed.

(** The loop by pool: the picks are at most one forced pick from the
    dust pool, then picks from the spendable pool, then picks from the
    dust pool, which begin only when the spendable pool is empty. *)
Lemma selectTransfersToSend_loop_pools rg outputs needed fuel :
  forall draw selectOneDust unusedTransfers unusedDust found selected,
    (length unusedTransfers + length unusedDust < fuel)%nat ->
    (selectOneDust = true -> unusedDust <> []) ->
    Forall (fun i => nth_error outputs i <> None) (unusedTransfers ++ unusedDust) ->
    exists found' first a b uT uD picked,
      selectTransfersToSend_loop fuel rg draw outputs needed selectOneDust
        unusedTransfers unusedDust found selected
      = Some (found', selected ++ picked)
      /\ Forall2 (fun i o => nth_error outputs i = Some o) (first ++ a ++ b) picked
      /\ Permutation (a ++ uT) unusedTransfers
      /\ Permutation (first ++ b ++ uD) unusedDust
      /\ (selectOneDust = false -> first = [])
      /\ (length first <= 1)%nat
      /\ (selectOneDust = true -> found < needed -> length first = 1%nat)
      /\ (b <> [] -> uT = []).
Proof.
  induction fuel as [|fuel IH];
    intros draw sOD uT uD found selected Hfuel Hdust Hvalid; [lia|].
  cbn [selectTransfersToSend_loop].
  destruct ((found <? needed) && (negb (is_empty uT) || negb (is_empty uD))) eqn:Hcond.
  - apply andb_true_iff in Hcond. destruct Hcond as [Hlt Hpools].
    apply Z.ltb_lt in Hlt.
    assert (Hstep : forall idx uT1 uD1,
      Permutation (idx :: uT1 ++ uD1) (uT ++ uD) ->
      exists out,
        nth_error outputs idx = Some out
        /\ (length uT1 + length uD1 < fuel)%nat
        /\ Forall (fun i => nth_error outputs i <> None) (uT1 ++ uD1)).
    { intros idx uT1 uD1 Hperm.
      assert (Hv : Forall (fun i => nth_error outputs i <> None) (idx :: uT1 ++ uD1)).
      { eapply Permutation_Forall; [symmetry; exact Hperm | exact Hvalid]. }
      inversion Hv as [|? ? Hidx Hrest]; subst.
      destruct (nth_error outputs idx) as [out|]; [|contradiction].
      exists out. split; [reflexivity|]. split; [|exact Hrest].
      apply Permutation_length in Hperm. simpl in Hperm.
      rewrite !length_app in Hperm. lia. }
    destruct sOD.
    + pose proof (popRandomValue_permutation (rg draw) uD (Hdust eq_refl)) as Hp.
      destruct (popRandomValue (rg draw) uD) as [idx uD1]. simpl in Hp.
      destruct (Hstep idx uT uD1) as (out & Hout & Hlen & Hrest).
      { rewrite <- Hp. apply Permutation_middle. }
      rewrite Hout.
      destruct (IH (S draw) false uT uD1 (u64 (found + td_amount out))
                   (selected ++ [out]) Hlen ltac:(discriminate) Hrest)
        as (found' & first & a & b & uT' & uD' & picked
            & Hrun & Hpick & HpT & HpD & Hfirst & _ & _ & Hb).
      rewrite (Hfirst eq_refl) in *. simpl in Hpick, HpD.
      exists found', [idx], a, b, uT', uD', (out :: picked).
      split; [rewrite Hrun, <- app_assoc; reflexivity|].
      split; [simpl; constructor; assumption|].
      split; [exact HpT|].
      split; [simpl; rewrite <- Hp; apply perm_skip; exact HpD|].
      split; [discriminate|]. split; [simpl; lia|].
      split; [reflexivity | exact Hb].
    + destruct (is_empty uT) eqn:E; cbn [negb].
      * apply is_empty_true in E. subst uT.
        assert (Hne : uD <> []).
        { simpl in Hpools. apply negb_true_iff, is_empty_false in Hpools.
          exact Hpools. }
        pose proof (popRandomValue_permutation (rg draw) uD Hne) as Hp.
        destruct (popRandomValue (rg draw) uD) as [idx uD1]. simpl in Hp.
        destruct (Hstep idx [] uD1 Hp) as (out & Hout & Hlen & Hrest).
        rewrite Hout.
        destruct (IH (S draw) false [] uD1 (u64 (found + td_amount out))
                     (selected ++ [out]) Hlen ltac:(discriminate) Hrest)
          as (found' & first & a & b & uT' & uD' & picked
              & Hrun & Hpick & HpT & HpD & Hfirst & _ & _ & Hb).
        rewrite (Hfirst eq_refl) in *. simpl in Hpick, HpD.
        apply Permutation_sym, Permutation_nil, app_eq_nil in HpT.
        destruct HpT as [-> ->]. simpl in Hpick.
        exists found', [], [], (idx :: b), [], uD', (out :: picked).
        split; [rewrite Hrun, <- app_assoc; reflexivity|].
        split; [simpl; constructor; assumption|].
        split; [reflexivity|].
        split; [simpl; rewrite <- Hp; apply perm_skip; exact HpD|].
        split; [reflexivity|]. split; [simpl; lia|].
        split; [discriminate | reflexivity].
      * apply is_empty_false in E.
        pose proof (popRandomValue_permutation (rg draw) uT E) as Hp.
        destruct (popRandomValue (rg draw) uT) as [idx uT1]. simpl in Hp.
        destruct (Hstep idx uT1 uD) as (out & Hout & Hlen & Hrest).
        { rewrite <- Hp. reflexivity. }
        rewrite Hout.
        destruct (IH (S draw) false uT1 uD (u64 (found + td_amount out))
                     (selected ++ [out]) Hlen ltac:(discriminate) Hrest)
          as (found' & first & a & b & uT' & uD' & picked
              & Hrun & Hpick & HpT & HpD & Hfirst & _ & _ & Hb).
        rewrite (Hfirst eq_refl) in *. simpl in Hpick, HpD.
        exists found', [], (idx :: a), b, uT', uD', (out :: picked).
        split; [rewrite Hrun, <- app_assoc; reflexivity|].
        split; [simpl; constructor; assumption|].
        split; [simpl; rewrite <- Hp; apply perm_skip; exact HpT|].
        split; [exact HpD|].
        split; [reflexivity|]. split; [simpl; lia|].
        split; [discriminate | exact Hb].
  - exists found, [], [], [], uT, uD, [].
    split; [now rewrite app_nil_r|]. split; [constructor|].
    split; [reflexivity|]. split; [reflexivity|].
    split; [reflexivity|]. split; [simpl; lia|].
    split; [|intros Hb; contradiction].
    intros -> Hlt. exfalso.
    apply andb_false_iff in Hcond. destruct Hcond as [E|E].
    + apply Z.ltb_ge in E. lia.
    + apply orb_false_iff in E. destruct E as [_ E].
      apply negb_false_iff, is_empty_true in E. exact (Hdust eq_refl E).
Qed.

Lemma unused_from_complete cache outputs :
  forall i k o,
    nth_error outputs k = Some o -> isUsed cache o = false ->
    In (i + k)%nat (unused_from cache outputs i).
Proof.
  induction outputs as [|out rest IH]; intros i [|k] o Ho Hu; simpl in Ho;
    try discriminate.
  - inversion Ho; subst. simpl. rewrite Hu. simpl. left. lia.
  - simpl. replace (i + S k)%nat with (S i + k)%nat by lia.
    destruct (isUsed cache out); simpl; [|right]; exact (IH (S i) k o Ho Hu).
Qed.

Lemma Forall2_picked_class (outputs : list TransactionOutputInformation)
  (P : TransactionOutputInformation -> Prop) idxs picked :
  Forall2 (fun i o => nth_error outputs i = Some o) idxs picked ->
  Forall (fun j => exists o, nth_error outputs j = Some o /\ P o) idxs ->
  Forall P picked.
Proof.
  induction 1 as [|i o idxs picked Hio _ IH]; intros Hall; [constructor|].
  inversion Hall as [|? ? (o' & Ho' & HP) Hrest]; subst.
  constructor; [|apply IH; exact Hrest].
  assert (o' = o) by congruence. subst. exact HP.
Qed.

Lemma Forall2_picked_In (outputs : list TransactionOutputInformation) idxs picked j o :
  Forall2 (fun i o => nth_error outputs i = Some o) idxs picked ->
  In j idxs -> nth_error outputs j = Some o -> In o picked.
Proof.
  induction 1 as [|i o' idxs picked Hio _ IH]; intros Hin Ho; [contradiction|].
  destruct Hin as [->|Hin].
  - left. congruence.
  - right. apply IH; assumption.
Qed.

(** The selection by pool, with the positions the coins come from. *)
Lemma selectTransfersToSend_structure w rg needed addDust dust found selected :
  selectTransfersToSend w rg needed addDust dust [] = Some (found, selected) ->
  exists t d first a b uT uD cf ca cb,
    selected = cf ++ ca ++ cb
    /\ Forall2 (fun i o => nth_error (getOutputs_IncludeKeyUnlocked (m_transferDetails w)) i
                           = Some o) first cf
    /\ Forall2 (fun i o => nth_error (getOutputs_IncludeKeyUnlocked (m_transferDetails w)) i
                           = Some o) a ca
    /\ Forall2 (fun i o => nth_error (getOutputs_IncludeKeyUnlocked (m_transferDetails w)) i
                           = Some o) b cb
    /\ Permutation (t ++ d)
         (unused_from (m_transactionsCache w)
            (getOutputs_IncludeKeyUnlocked (m_transferDetails w)) O)
    /\ Forall (fun j => exists o,
                 nth_error (getOutputs_IncludeKeyUnlocked (m_transferDetails w)) j = Some o
                 /\ dust < td_amount o) t
    /\ Forall (fun j => exists o,
                 nth_error (getOutputs_IncludeKeyUnlocked (m_transferDetails w)) j = Some o
                 /\ td_amount o <= dust) d
    /\ Permutation (a ++ uT) t
    /\ Permutation (first ++ b ++ uD) d
    /\ (addDust = false -> first = [])
    /\ (length first <= 1)%nat
    /\ (addDust = true -> d <> [] -> 0 < needed -> length first = 1%nat)
    /\ (b <> [] -> uT = []).
Proof.
  unfold selectTransfersToSend.
  set (outputs := getOutputs_IncludeKeyUnlocked (m_transferDetails w)).
  set (cache := m_transactionsCache w).
  destruct (collect_unused_classes cache dust outputs O [] [])
    as (t & d & Hpools & Hperm & Ht & Hd).
  rewrite Hpools. simpl app. intros Hrun.
  assert (Ht' : Forall (fun j => exists o, nth_error outputs j = Some o
                                           /\ dust < td_amount o) t).
  { eapply Forall_impl; [|exact Ht]. intros j (_ & o & Ho & Hc).
    rewrite Nat.sub_0_r in Ho. eauto. }
  assert (Hd' : Forall (fun j => exists o, nth_error outputs j = Some o
                                           /\ td_amount o <= dust) d).
  { eapply Forall_impl; [|exact Hd]. intros j (_ & o & Ho & Hc).
    rewrite Nat.sub_0_r in Ho. eauto. }
  destruct (selectTransfersToSend_loop_pools rg outputs needed
              (S (length t + length d)) O (addDust && negb (is_empty d)) t d 0 [])
    as (found' & first & a & b & uT & uD & picked
        & Hloop & Hpick & HpT & HpD & Hfirst & Hlen & Hforced & Hb).
  - lia.
  - intros E. apply andb_true_iff in E. destruct E as [_ E].
    apply negb_true_iff, is_empty_false in E. exact E.
  - apply Forall_app. split.
    + eapply Forall_impl; [|exact Ht']. intros j (o & Ho & _). congruence.
    + eapply Forall_impl; [|exact Hd']. intros j (o & Ho & _). congruence.
  - rewrite Hloop in Hrun. inversion Hrun; subst found' selected. simpl.
    apply Forall2_app_inv_l in Hpick.
    destruct Hpick as (cf & rest & Hcf & Hrest & ->).
    apply Forall2_app_inv_l in Hrest.
    destruct Hrest as (ca & cb & Hca & Hcb & ->).
    exists t, d, first, a, b, uT, uD, cf, ca, cb.
    split; [reflexivity|]. split; [exact Hcf|]. split; [exact Hca|].
    split; [exact Hcb|]. split; [exact Hperm|]. split; [exact Ht'|].
    split; [exact Hd'|]. split; [exact HpT|]. split; [exact HpD|].
    split; [intros ->; apply Hfirst; reflexivity|].
    split; [exact Hlen|]. split; [|exact Hb].
    intros -> Hne Hneeded. apply Hforced; [|exact Hneeded].
    apply is_empty_false in Hne. rewrite Hne. reflexivity.
Qed.

(** X6.  The order of the pools.  The selected coins are, in the
    order drawn: at most one coin within the dust threshold, and none
    unless dust was asked for; then coins above the threshold; then
    coins within it.  A coin within the threshold is drawn in the last
    part only when every unused coin above the threshold has been
    selected. *)
Theorem selectTransfersToSend_spendable_before_dust
  (w : Wallet) (rg : nat -> nat) (needed : Z) (addDust : bool) (dust : Z)
  (found : Z) (selected : list TransactionOutputInformation) :
  selectTransfersToSend w rg needed addDust dust [] = Some (found, selected) ->
  exists first spendable dusty,
    selected = first ++ spendable ++ dusty
    /\ (length first <= 1)%nat
    /\ (addDust = false -> first = [])
    /\ Forall (fun o => td_amount o <= dust) first
    /\ Forall (fun o => dust < td_amount o) spendable
    /\ Forall (fun o => td_amount o <= dust) dusty
    /\ (dusty <> [] ->
        forall o, In o (getOutputs_IncludeKeyUnlocked (m_transferDetails w)) ->
                  isUsed (m_transactionsCache w) o = false ->
                  dust < td_amount o -> In o spendable).
Proof.
  intros Hrun.
  destruct (selectTransfersToSend_structure _ _ _ _ _ _ _ Hrun)
    as (t & d & first & a & b & uT & uD & cf & ca & cb
        & Hsel & Hcf & Hca & Hcb & Hperm & Ht & Hd & HpT & HpD
        & Hfirst & Hlen & _ & Hb).
  exists cf, ca, cb.
  split; [exact Hsel|].
  split; [apply Forall2_length in Hcf; lia|].
  split; [intros E; rewrite (Hfirst E) in Hcf; inversion Hcf; reflexivity|].
  assert (Hsub : forall (P : nat -> Prop) l l' rest,
             Permutation (l ++ rest) l' -> Forall P l' -> Forall P l).
  { intros P l l' rest Hp Hl'.
    apply (Permutation_Forall (Permutation_sym Hp)) in Hl'.
    apply Forall_app in Hl'. tauto. }
  split.
  { eapply Forall2_picked_class; [exact Hcf|].
    eapply Hsub; [exact HpD | exact Hd]. }
  split.
  { eapply Forall2_picked_class; [exact Hca|].
    eapply Hsub; [exact HpT | exact Ht]. }
  split.
  { eapply Forall2_picked_class; [exact Hcb|].
    assert (Hp : Permutation (b ++ (first ++ uD)) d).
    { rewrite <- HpD. rewrite !app_assoc.
      apply Permutation_app_tail, Permutation_app_comm. }
    eapply Hsub; [exact Hp | exact Hd]. }
  intros Hdusty o Hin Hunused Habove.
  assert (Hbne : b <> []).
  { intros ->. inversion Hcb; subst. contradiction. }
  specialize (Hb Hbne). subst uT. rewrite app_nil_r in HpT.
  apply In_nth_error in Hin. destruct Hin as [j Hj].
  pose proof (unused_from_complete _ _ O j o Hj Hunused) as Hju. simpl in Hju.
  apply (Permutation_in _ (Permutation_sym Hperm)) in Hju.
  apply in_app_or in Hju. destruct Hju as [Hjt|Hjd].
  - apply (Permutation_in _ (Permutation_sym HpT)) in Hjt.
    eapply Forall2_picked_In; eassumption.
  - exfalso. rewrite Forall_forall in Hd.
    destruct (Hd j Hjd) as (o' & Ho' & Hle).
    assert (o' = o) by congruence. subst. lia.
Qed.

Lemma selectTransfersToSend_spendable_before_dust_witness :
  exists first spendable dusty,
    [coin 5 1; coin 300 2; coin 700 4; coin 7 3] = first ++ spendable ++ dusty
    /\ Forall (fun o => 10 < td_amount o) spendable
    /\ Forall (fun o => td_amount o <= 10) dusty.
Proof.
  destruct (selectTransfersToSend_spendable_before_dust
              (scenarioWallet [coin 5 1; coin 300 2; coin 7 3; coin 700 4])
              firstIndex 5000 true 10 1012
              [coin 5 1; coin 300 2; coin 700 4; coin 7 3])
    as (first & spendable & dusty & Hsel & _ & _ & _ & Hsp & Hdu & _).
  - vm_compute. reflexivity.
  - exists first, spendable, dusty. repeat split; assumption.
Defined.

(** X7.  Dust goes first when it is asked for: with [addDust] set, a
    positive needed money and an unused coin within the dust
    threshold, the first selected coin is within the threshold. *)
Theorem selectTransfersToSend_dust_first
  (w : Wallet) (rg : nat -> nat) (needed : Z) (dust : Z)
  (found : Z) (selected : list TransactionOutputInformation)
  (o : TransactionOutputInformation) :
  0 < needed ->
  In o (getOutputs_IncludeKeyUnlocked (m_transferDetails w)) ->
  isUsed (m_transactionsCache w) o = false ->
  td_amount o <= dust ->
  selectTransfersToSend w rg needed true dust [] = Some (found, selected) ->
  exists c rest,
    selected = c :: rest
    /\ td_amount c <= dust
    /\ In c (getOutputs_IncludeKeyUnlocked (m_transferDetails w)).
Proof.
  intros Hneeded Hin Hunused Hdusty Hrun.
  destruct (selectTransfersToSend_structure _ _ _ _ _ _ _ Hrun)
    as (t & d & first & a & b & uT & uD & cf & ca & cb
        & Hsel & Hcf & _ & _ & Hperm & Ht & Hd & _ & HpD
        & _ & _ & Hforced & _).
  assert (Hdne : d <> []).
  { apply In_nth_error in Hin. destruct Hin as [j Hj].
    pose proof (unused_from_complete _ _ O j o Hj Hunused) as Hju. simpl in Hju.
    apply (Permutation_in _ (Permutation_sym Hperm)) in Hju.
    apply in_app_or in Hju. destruct Hju as [Hjt|Hjd].
    - exfalso. rewrite Forall_forall in Ht.
      destruct (Ht j Hjt) as (o' & Ho' & Hgt).
      assert (o' = o) by congruence. subst. lia.
    - intros ->. contradiction. }
  specialize (Hforced eq_refl Hdne Hneeded).
  destruct first as [|j [|j' first']]; simpl in Hforced; try discriminate.
  inversion Hcf as [|? c ? cf' Hjc Hnil]; subst. inversion Hnil; subst.
  exists c, (ca ++ cb). split; [reflexivity|].
  split; [|eapply nth_error_In; exact Hjc].
  assert (Hjd : In j d).
  { eapply Permutation_in; [exact HpD | left; reflexivity]. }
  rewrite Forall_forall in Hd. destruct (Hd j Hjd) as (o' & Ho' & Hle).
  assert (o' = c) by congruence. subst. exact Hle.
Qed.

Lemma selectTransfersToSend_dust_first_witness :
  exists c rest,
    [coin 5 1; coin 300 2; coin 700 4; coin 7 3] = c :: rest /\ td_amount c <= 10.
Proof.
  destruct (selectTransfersToSend_dust_first
              (scenarioWallet [coin 5 1; coin 300 2; coin 7 3; coin 700 4])
              firstIndex 5000 10 1012
              [coin 5 1; coin 300 2; coin 700 4; coin 7 3] (coin 7 3))
    as (c & rest & Hsel & Hc & _).
  - lia.
  - simpl. auto.
  - reflexivity.
  - simpl. lia.
  - vm_compute. reflexivity.
  - exists c, rest. split; assumption.
Defined.

(** ** More on the input preparer *)

Lemma nth_error_replace_nth_ne {A} (l : list A) :
  forall i j x, i <> j -> nth_error (replace_nth i x l) j = nth_error l j.
Proof.
  induction l as [|h t IH]; intros [|i] [|j] x Hne; simpl; try reflexivity;
    try congruence.
  apply IH. congruence.
Qed.

(** What [prepareInput] does, case by case. *)
Lemma prepareInput_inv td i outs mixIn outs1 src :
  prepareInput td i outs mixIn = Ok (outs1, src) ->
  exists pasted,
    src = {| outputs := insert_at (find_insert_position td pasted)
                          (globalOutputIndex td, outputKey td) pasted;
             real_output := find_insert_position td pasted;
             real_out_tx_key := transactionPublicKey td;
             real_output_in_tx_index := outputInTransaction td;
             src_amount := td_amount td |}
    /\ ((outs = [] /\ outs1 = [] /\ pasted = [])
        \/ exists o,
             nth_error outs i = Some o
             /\ outs1 = replace_nth i {| ofa_amount := ofa_amount o;
                                         ofa_outs := sort_outs (ofa_outs o) |} outs
             /\ pasted = paste_mixin td mixIn (sort_outs (ofa_outs o)) []).
Proof.
  unfold prepareInput. intros Hrun. destruct outs as [|o0 outs0].
  - cbn [rbind fst snd] in Hrun. inversion Hrun; subst.
    exists []. split; [reflexivity|]. left. auto.
  - destruct (nth_error (o0 :: outs0) i) as [o|] eqn:Ho; [|discriminate].
    cbn [rbind fst snd] in Hrun. inversion Hrun; subst.
    eexists. split; [reflexivity|]. right. exists o. auto.
Qed.

(** X8.  Without decoy sets the preparer cannot fail: every coin gets
    a source entry that holds the real output alone, at position 0,
    after the sources already there. *)
Theorem prepareInputs_without_decoys
  (selected : list TransactionOutputInformation) (sources : list tx_source_entry)
  (mixin : Z) :
  prepareInputs selected [] sources mixin
  = Ok ([], sources ++ map lone_source selected).
Proof.
  unfold prepareInputs. generalize O as i. revert sources.
  induction selected as [|td rest IH]; intros sources i; simpl.
  - now rewrite app_nil_r.
  - unfold prepareInput. cbn [rbind fst snd].
    rewrite IH, <- app_assoc. reflexivity.
Qed.

(** The decoy loop takes the first [mixIn] decoys that are not the
    coin itself. *)
Lemma paste_mixin_firstn td mixIn l :
  forall acc,
    Z.of_nat (length acc) < mixIn ->
    paste_mixin td mixIn l acc
    = acc ++ firstn (Z.to_nat mixIn - length acc)
                    (map entry_of (other_decoys td l)).
Proof.
  unfold other_decoys.
  induction l as [|o rest IH]; intros acc Hacc; simpl.
  - rewrite firstn_nil. now rewrite app_nil_r.
  - destruct (globalOutputIndex td =? global_amount_index o); simpl;
      [apply IH; exact Hacc|].
    destruct (mixIn <=? Z.of_nat (length (acc ++ [(global_amount_index o, out_key o)])))
      eqn:E; rewrite length_app in E; simpl in E.
    + apply Z.leb_le in E.
      replace (Z.to_nat mixIn - length acc)%nat with 1%nat by lia.
      reflexivity.
    + apply Z.leb_gt in E.
      rewrite IH by (rewrite length_app; simpl; lia).
      rewrite length_app. simpl.
      replace (Z.to_nat mixIn - length acc)%nat
        with (S (Z.to_nat mixIn - (length acc + 1))) by lia.
      simpl. rewrite <- app_assoc. reflexivity.
Qed.

Lemma filter_length_permutation {A} (f : A -> bool) l l' :
  Permutation l l' -> length (filter f l) = length (filter f l').
Proof.
  induction 1 as [|x l l' _ IH|x y l|l l' l'' _ IH1 _ IH2]; simpl.
  - reflexivity.
  - destruct (f x); simpl; now rewrite IH.
  - destruct (f x), (f y); reflexivity.
  - congruence.
Qed.

Lemma length_insert_at {A} p (x : A) l : length (insert_at p x l) = S (length l).
Proof.
  unfold insert_at. rewrite length_app. simpl.
  rewrite <- (firstn_skipn p l) at 3. rewrite length_app. lia.
Qed.

Lemma prepareInputs_loop_nth mixIn selected :
  forall i outs sources outs' sources',
    prepareInputs_loop selected i outs sources mixIn = Ok (outs', sources') ->
    forall k td,
      nth_error selected k = Some td ->
      exists src pasted,
        nth_error sources' (length sources + k) = Some src
        /\ outputs src = insert_at (real_output src)
                           (globalOutputIndex td, outputKey td) pasted
        /\ ((outs = [] /\ pasted = [])
            \/ exists o, nth_error outs (i + k) = Some o
                         /\ pasted = paste_mixin td mixIn (sort_outs (ofa_outs o)) []).
Proof.
  induction selected as [|td0 rest IH]; intros i outs sources outs' sources' Hrun k td Hk.
  - destruct k; discriminate.
  - cbn [prepareInputs_loop] in Hrun.
    destruct (prepareInput td0 i outs mixIn) as [[outs1 src0]| |] eqn:Hone;
      try discriminate.
    cbn [rbind fst snd] in Hrun.
    pose proof (prepareInputs_loop_entries _ _ _ _ _ _ _ Hrun)
      as (entries & Hsrc & _ & _).
    destruct (prepareInput_inv _ _ _ _ _ _ Hone) as (pasted & Hsrc0 & Hcase).
    destruct k as [|k].
    + simpl in Hk. inversion Hk; subst td0.
      exists src0, pasted. split; [|split].
      * rewrite Hsrc, <- app_assoc, Nat.add_0_r. simpl.
        rewrite nth_error_app2 by lia. rewrite Nat.sub_diag. reflexivity.
      * rewrite Hsrc0. reflexivity.
      * rewrite Nat.add_0_r.
        destruct Hcase as [(-> & _ & ->)|(o & Ho & _ & ->)]; [left; auto|].
        right. exists o. auto.
    + simpl in Hk.
      destruct (IH (S i) outs1 (sources ++ [src0]) outs' sources' Hrun k td Hk)
        as (src & pasted' & Hnth & Hout & Hcase').
      exists src, pasted'. split; [|split].
      * rewrite length_app in Hnth. simpl in Hnth.
        replace (length sources + S k)%nat with (length sources + 1 + k)%nat by lia.
        exact Hnth.
      * exact Hout.
      * destruct Hcase as [(-> & -> & _)|(o & Ho & -> & _)].
        -- destruct Hcase' as [(_ & ->)|(o' & Ho' & _)]; [left; auto|].
           destruct (S i + k)%nat; discriminate.
        -- destruct Hcase' as [(Hnil & _)|(o' & Ho' & ->)].
           ++ exfalso. destruct outs, i; simpl in *; discriminate.
           ++ right. exists o'. split; [|reflexivity].
              rewrite nth_error_replace_nth_ne in Ho' by lia.
              replace (i + S k)%nat with (S i + k)%nat by lia. exact Ho'.
Qed.

(** X9.  Which decoys enter the anonymity set.  For a positive mixin,
    the candidates of the [k]-th coin around its real output are the
    first [mixIn], in ascending order of global index, of the decoys
    of the [k]-th set whose index is not the coin's own.  The set has
    [min mixIn n + 1] entries, [n] being the number of such decoys. *)
Theorem prepareInputs_takes_lowest_decoys
  (selected : list TransactionOutputInformation) (decoys : list outs_for_amount)
  (mixin : Z) (decoys' : list outs_for_amount) (sources' : list tx_source_entry)
  (k : nat) (td : TransactionOutputInformation) (o : outs_for_amount) :
  0 < mixin ->
  prepareInputs selected decoys [] mixin = Ok (decoys', sources') ->
  nth_error selected k = Some td ->
  nth_error decoys k = Some o ->
  exists src,
    nth_error sources' k = Some src
    /\ outputs src
       = insert_at (real_output src) (globalOutputIndex td, outputKey td)
           (firstn (Z.to_nat mixin)
                   (map entry_of (other_decoys td (sort_outs (ofa_outs o)))))
    /\ length (outputs src)
       = S (Nat.min (Z.to_nat mixin) (length (other_decoys td (ofa_outs o)))).
Proof.
  intros Hmix Hrun Htd Ho. unfold prepareInputs in Hrun.
  destruct (prepareInputs_loop_nth _ _ _ _ _ _ _ Hrun k td Htd)
    as (src & pasted & Hnth & Hout & Hcase).
  simpl in Hnth. exists src. split; [exact Hnth|].
  assert (Hp : pasted = firstn (Z.to_nat mixin)
                          (map entry_of (other_decoys td (sort_outs (ofa_outs o))))).
  { destruct Hcase as [(-> & _)|(o' & Ho' & ->)].
    - destruct k; discriminate.
    - simpl in Ho'. assert (o' = o) by congruence. subst o'.
      rewrite paste_mixin_firstn by (simpl; lia).
      simpl. rewrite Nat.sub_0_r. reflexivity. }
  split; [rewrite Hout, Hp; reflexivity|].
  rewrite Hout, length_insert_at, Hp. f_equal.
  rewrite length_firstn, length_map. unfold other_decoys.
  rewrite (filter_length_permutation _ _ _ (sort_outs_permutation (ofa_outs o))).
  reflexivity.
Qed.

Lemma prepareInputs_takes_lowest_decoys_witness :
  exists src,
    outputs src = insert_at (real_output src) (5, 205) [(2, 202); (7, 207)]
    /\ length (outputs src) = 3%nat.
Proof.
  destruct (prepareInputs_takes_lowest_decoys [coin 70 5] scenarioDecoys 2
              [ {| ofa_amount := 70; ofa_outs := sort_outs (ofa_outs
                     {| ofa_amount := 70;
                        ofa_outs := [ {| global_amount_index := 9; out_key := 209 |};
                                      {| global_amount_index := 5; out_key := 205 |};
                                      {| global_amount_index := 2; out_key := 202 |};
                                      {| global_amount_index := 7; out_key := 207 |} ] |}) |} ]
              [ {| outputs := [(2, 202); (5, 205); (7, 207)]; real_output := 1;
                   real_out_tx_key := 105; real_output_in_tx_index := 0;
                   src_amount := 70 |} ]
              O (coin 70 5)
              {| ofa_amount := 70;
                 ofa_outs := [ {| global_amount_index := 9; out_key := 209 |};
                               {| global_amount_index := 5; out_key := 205 |};
                               {| global_amount_index := 2; out_key := 202 |};
                               {| global_amount_index := 7; out_key := 207 |} ] |})
    as (src & _ & Hout & Hlen).
  - lia.
  - vm_compute. reflexivity.
  - reflexivity.
  - reflexivity.
  - exists src. split; [exact Hout | exact Hlen].
Defined.

Lemma prepareInputs_loop_short mixIn selected :
  forall i outs sources,
    outs <> [] ->
    (i <= length outs)%nat ->
    (length outs < i + length selected)%nat ->
    prepareInputs_loop selected i outs sources mixIn = Undefined.
Proof.
  induction selected as [|td rest IH]; intros i outs sources Hne Hle Hlt;
    simpl in Hlt; [lia|].
  cbn [prepareInputs_loop].
  destruct (prepareInput td i outs mixIn) as [[outs1 src]| |] eqn:Hone.
  - cbn [rbind fst snd].
    destruct (prepareInput_inv _ _ _ _ _ _ Hone)
      as (pasted & _ & [(-> & _)|(o & Ho & -> & _)]); [contradiction|].
    assert (Hi : (i < length outs)%nat) by (apply nth_error_Some; congruence).
    apply IH.
    + apply replace_nth_nonempty. exact Hne.
    + rewrite length_replace_nth. lia.
    + rewrite length_replace_nth. lia.
  - exfalso. revert Hone. unfold prepareInput.
    destruct outs as [|o0 outs0]; [discriminate|].
    destruct (nth_error (o0 :: outs0) i); discriminate.
  - reflexivity.
Qed.

(** X10.  The decoy sets are indexed by the position of the coin and
    never checked against it: with some decoy sets, but fewer than
    selected coins, the preparer reads past the end of [outs], which
    the language leaves undefined. *)
Theorem prepareInputs_too_few_decoy_sets
  (selected : list TransactionOutputInformation) (decoys : list outs_for_amount)
  (sources : list tx_source_entry) (mixin : Z) :
  decoys <> [] ->
  (length decoys < length selected)%nat ->
  prepareInputs selected decoys sources mixin = Undefined.
Proof.
  intros Hne Hlt. unfold prepareInputs.
  apply prepareInputs_loop_short; [exact Hne | lia | simpl; exact Hlt].
Qed.

Lemma prepareInputs_too_few_decoy_sets_witness :
  prepareInputs [coin 70 5; coin 80 6] scenarioDecoys [] 2 = Undefined.
Proof.
  apply prepareInputs_too_few_decoy_sets; [discriminate | simpl; lia].
Defined.

Lemma prepareInputs_loop_coins mixIn selected :
  forall i outs sources outs' sources',
    prepareInputs_loop selected i outs sources mixIn = Ok (outs', sources') ->
    exists entries,
      sources' = sources ++ entries
      /\ Forall2 (fun td src =>
                    src_amount src = td_amount td
                    /\ real_out_tx_key src = transactionPublicKey td
                    /\ real_output_in_tx_index src = outputInTransaction td
                    /\ nth_error (outputs src) (real_output src)
                       = Some (globalOutputIndex td, outputKey td))
                 selected entries.
Proof.
  induction selected as [|td rest IH]; intros i outs sources outs' sources' Hrun.
  - simpl in Hrun. inversion Hrun; subst. exists []. rewrite app_nil_r.
    split; [reflexivity | constructor].
  - cbn [prepareInputs_loop] in Hrun.
    destruct (prepareInput td i outs mixIn) as [[outs1 src]| |] eqn:Hone;
      try discriminate.
    cbn [rbind fst snd] in Hrun.
    destruct (prepareInput_entry _ _ _ _ _ _ Hone) as (Hreal & _).
    destruct (prepareInput_inv _ _ _ _ _ _ Hone) as (pasted & Hsrc & _).
    apply IH in Hrun. destruct Hrun as (entries & -> & Hall).
    eexists. split; [rewrite <- app_assoc; reflexivity|].
    constructor; [|exact Hall].
    split; [rewrite Hsrc; reflexivity|]. split; [rewrite Hsrc; reflexivity|].
    split; [rewrite Hsrc; reflexivity | exact Hreal].
Qed.

(** X11.  One source entry per coin: the preparer keeps the sources it
    is given and appends, in the order of the coins, an entry that
    carries the coin's amount, its transaction key and its index in
    that transaction, and holds the coin's own output among the
    candidates, at the position the entry records as the real
    output. *)
Theorem prepareInputs_one_entry_per_coin
  (selected : list TransactionOutputInformation) (decoys : list outs_for_amount)
  (sources : list tx_source_entry) (mixin : Z)
  (decoys' : list outs_for_amount) (sources' : list tx_source_entry) :
  prepareInputs selected decoys sources mixin = Ok (decoys', sources') ->
  exists entries,
    sources' = sources ++ entries
    /\ length entries = length selected
    /\ Forall2 (fun td src =>
                  src_amount src = td_amount td
                  /\ real_out_tx_key src = transactionPublicKey td
                  /\ real_output_in_tx_index src = outputInTransaction td
                  /\ nth_error (outputs src) (real_output src)
                     = Some (globalOutputIndex td, outputKey td))
               selected entries.
Proof.
  intros Hrun. unfold prepareInputs in Hrun.
  destruct (prepareInputs_loop_coins _ _ _ _ _ _ _ Hrun) as (entries & Hsrc & Hall).
  exists entries. split; [exact Hsrc|]. split; [|exact Hall].
  symmetry. eapply Forall2_length. exact Hall.
Qed.

Lemma prepareInputs_one_entry_per_coin_witness :
  exists entries,
    [ {| outputs := [(2, 202); (5, 205); (7, 207)]; real_output := 1;
         real_out_tx_key := 105; real_output_in_tx_index := 0;
         src_amount := 70 |} ] = [] ++ entries
    /\ length entries = 1%nat
    /\ Forall (fun src => nth_error (outputs src) (real_output src) = Some (5, 205))
              entries.
Proof.
  destruct (prepareInputs_one_entry_per_coin [coin 70 5] scenarioDecoys [] 2
              [ {| ofa_amount := 70;
                   ofa_outs := sort_outs (ofa_outs
                     {| ofa_amount := 70;
                        ofa_outs := [ {| global_amount_index := 9; out_key := 209 |};
                                      {| global_amount_index := 5; out_key := 205 |};
                                      {| global_amount_index := 2; out_key := 202 |};
                                      {| global_amount_index := 7; out_key := 207 |} ] |}) |} ]
              [ {| outputs := [(2, 202); (5, 205); (7, 207)]; real_output := 1;
                   real_out_tx_key := 105; real_output_in_tx_index := 0;
                   src_amount := 70 |} ])
    as (entries & Hsrc & Hlen & Hall).
  - vm_compute. reflexivity.
  - exists entries. split; [exact Hsrc|]. split; [exact Hlen|].
    inversion Hall as [|td src l l' (_ & _ & _ & Hreal) Hrest]; subst.
    inversion Hrest; subst. constructor; [exact Hreal | constructor].
Defined.

Lemma prepareInputs_loop_outs mixIn selected :
  forall i outs sources outs' sources',
    prepareInputs_loop selected i outs sources mixIn = Ok (outs', sources') ->
    length outs' = length outs
    /\ forall k o,
         nth_error outs k = Some o ->
         nth_error outs' k
         = Some (if (i <=? k)%nat && (k <? i + length selected)%nat
                 then {| ofa_amount := ofa_amount o;
                         ofa_outs := sort_outs (ofa_outs o) |}
                 else o).
Proof.
  induction selected as [|td rest IH]; intros i outs sources outs' sources' Hrun.
  - simpl in Hrun. inversion Hrun; subst. split; [reflexivity|].
    intros k o Ho. rewrite Nat.add_0_r.
    destruct (i <=? k)%nat eqn:E1, (k <? i)%nat eqn:E2; simpl; try exact Ho.
    apply Nat.leb_le in E1. apply Nat.ltb_lt in E2. lia.
  - cbn [prepareInputs_loop] in Hrun.
    destruct (prepareInput td i outs mixIn) as [[outs1 src]| |] eqn:Hone;
      try discriminate.
    cbn [rbind fst snd] in Hrun.
    destruct (IH _ _ _ _ _ Hrun) as [Hlen Hnth].
    destruct (prepareInput_inv _ _ _ _ _ _ Hone)
      as (pasted & _ & [(-> & -> & _)|(oi & Hoi & -> & _)]).
    + split; [exact Hlen|]. intros k o Ho. destruct k; discriminate.
    + rewrite length_replace_nth in Hlen. split; [exact Hlen|].
      intros k o Ho. destruct (Nat.eq_dec i k) as [<-|Hne].
      * assert (oi = o) by congruence. subst oi.
        assert (Hi : (i < length outs)%nat) by (apply nth_error_Some; congruence).
        rewrite (Hnth i _ (nth_error_replace_nth outs i _ Hi)).
        replace (S i <=? i)%nat with false by (symmetry; apply Nat.leb_gt; lia).
        replace (i <=? i)%nat with true by (symmetry; apply Nat.leb_le; lia).
        replace (i <? i + length (td :: rest))%nat with true
          by (symmetry; apply Nat.ltb_lt; simpl; lia).
        reflexivity.
      * rewrite (Hnth k o) by (rewrite nth_error_replace_nth_ne by exact Hne; exact Ho).
        f_equal.
        replace (k <? S i + length rest)%nat with (k <? i + length (td :: rest))%nat
          by (simpl; f_equal; lia).
        destruct (k <? i + length (td :: rest))%nat; [|now rewrite !andb_false_r].
        rewrite !andb_true_r.
        destruct (S i <=? k)%nat eqn:E1, (i <=? k)%nat eqn:E2; try reflexivity.
        -- apply Nat.leb_le in E1. apply Nat.leb_gt in E2. lia.
        -- apply Nat.leb_gt in E1. apply Nat.leb_le in E2. lia.
Qed.

(** X12.  The preparer works on the caller's decoy sets in place: it
    returns as many sets as it got, with the sets of the selected
    coins' positions sorted by ascending global index, each a
    rearrangement of what it was, and the sets beyond untouched. *)
Theorem prepareInputs_sorts_decoys_in_place
  (selected : list TransactionOutputInformation) (decoys : list outs_for_amount)
  (sources : list tx_source_entry) (mixin : Z)
  (decoys' : list outs_for_amount) (sources' : list tx_source_entry) :
  prepareInputs selected decoys sources mixin = Ok (decoys', sources') ->
  length decoys' = length decoys
  /\ forall k o,
       nth_error decoys k = Some o ->
       exists o',
         nth_error decoys' k = Some o'
         /\ ofa_amount o' = ofa_amount o
         /\ ((k < length selected)%nat ->
             StronglySorted le_out (ofa_outs o')
             /\ Permutation (ofa_outs o') (ofa_outs o))
         /\ ((length selected <= k)%nat -> o' = o).
Proof.
  intros Hrun. unfold prepareInputs in Hrun.
  destruct (prepareInputs_loop_outs _ _ _ _ _ _ _ Hrun) as [Hlen Hnth].
  split; [exact Hlen|]. intros k o Ho. specialize (Hnth k o Ho).
  simpl in Hnth. eexists. split; [exact Hnth|].
  destruct (k <? length selected)%nat eqn:E.
  - apply Nat.ltb_lt in E. simpl. split; [reflexivity|].
    split; [|intros Hge; lia].
    intros _. split; [apply sort_outs_sorted | apply sort_outs_permutation].
  - apply Nat.ltb_ge in E. simpl. split; [reflexivity|].
    split; [intros Hlt; lia | reflexivity].
Qed.

Lemma prepareInputs_sorts_decoys_in_place_witness :
  exists decoys' sources',
    prepareInputs [coin 70 5] scenarioDecoys [] 2 = Ok (decoys', sources')
    /\ length decoys' = length scenarioDecoys.
Proof.
  eexists. eexists. split; [vm_compute; reflexivity|].
  apply (prepareInputs_sorts_decoys_in_place [coin 70 5] scenarioDecoys [] 2
           _ [ {| outputs := [(2, 202); (5, 205); (7, 207)]; real_output := 1;
                  real_out_tx_key := 105; real_output_in_tx_index := 0;
                  src_amount := 70 |} ]).
  reflexivity.
Defined.

(** ** More on the orchestrator *)

Lemma set_transaction_hash_state w id h id' :
  sending_state (with_cache w (set_transaction_hash (m_transactionsCache w) id h)) id'
  = sending_state w id'.
Proof.
  unfold sending_state, with_cache, set_transaction_hash, update_transaction. simpl.
  destruct (nth_error (m_transactions (m_transactionsCache w)) id) as [info|] eqn:E;
    [|reflexivity].
  simpl. destruct (Nat.eq_dec id id') as [<-|Hne].
  - rewrite nth_error_replace_nth by (apply nth_error_Some; congruence).
    rewrite E. reflexivity.
  - now rewrite nth_error_replace_nth_ne by exact Hne.
Qed.

(** The [try] block in full: on success the relay request, the two
    balance events, the coins of the send marked spent, and every
    record in the state it had; on an exception the wallet as it
    was. *)
Lemma doSendTransaction_try_outcome `{Externals} context w r w' :
  doSendTransaction_try context w = (r, w') ->
  match r with
  | Ok request =>
      exists tx outs' a p,
        request = WalletRelayTransactionRequest tx (with_outs context outs')
        /\ events w' = events w ++ [WalletActualBalanceUpdatedEvent a;
                                    WalletPendingBalanceUpdatedEvent p]
        /\ spent_coins w' = spent_coins w ++ selectedTransfers context
        /\ m_isStoping w' = m_isStoping w
        /\ (forall id, sending_state w' id = sending_state w id)
  | Throw _ => w' = w
  | Undefined => w' = w
  end.
Proof.
  unfold doSendTransaction_try, bind, lift, modify, ret. intros Hrun.
  destruct (getTransaction _ _) as [transaction| |];
    [| inversion Hrun; subst; reflexivity ..].
  destruct (prepareInputs _ _ _ _) as [prepared| |];
    [| inversion Hrun; subst; reflexivity ..].
  destruct (splitDestinations _ _ _ _ _) as [splittedDests| |];
    [| inversion Hrun; subst; reflexivity ..].
  destruct (constructTx _ _ _ _ _ _) as [tx| |];
    [| inversion Hrun; subst; reflexivity ..].
  inversion Hrun; subst. clear Hrun.
  eexists. eexists. eexists. eexists.
  split; [reflexivity|].
  split; [unfold notifyBalanceChanged, push_back_event, with_cache; simpl;
          rewrite <- app_assoc; reflexivity|].
  split.
  { unfold spent_coins, notifyBalanceChanged, push_back_event, with_cache,
      updateTransaction, set_transaction_hash. simpl.
    rewrite update_transaction_unconfirmed, flat_map_app. simpl.
    now rewrite app_nil_r. }
  split; [reflexivity|].
  intros id.
  rewrite <- (set_transaction_hash_state w (transactionId context)
                (get_transaction_hash tx) id).
  reflexivity.
Qed.

(** X13.  [doSendTransaction] never lets an exception out, and what it
    does to the wallet goes with what it hands back.  With no request
    handed back it has pushed exactly one completion event, with a
    non-empty error code, and marked no coin spent.  With a request
    handed back, the relay request of this send, it has pushed exactly
    the two balance events, marked exactly the selected coins spent
    and left every record in the state it had; the stop flag was not
    set. *)
Theorem doSendTransaction_all_or_nothing `{Externals}
  (context : SendTransactionContext) (w : Wallet)
  (r : result (option WalletRequest)) (w' : Wallet) :
  doSendTransaction context w = (r, w') ->
  match r with
  | Throw _ => False
  | Undefined => w' = w
  | Ok None =>
      exists ec,
        events w' = events w ++ [WalletSendTransactionCompletedEvent
                                   (transactionId context) (Some ec)]
        /\ spent_coins w' = spent_coins w
  | Ok (Some request) =>
      m_isStoping w = false
      /\ exists tx outs' a p,
           request = WalletRelayTransactionRequest tx (with_outs context outs')
           /\ events w' = events w ++ [WalletActualBalanceUpdatedEvent a;
                                       WalletPendingBalanceUpdatedEvent p]
           /\ spent_coins w' = spent_coins w ++ selectedTransfers context
           /\ (forall id, sending_state w' id = sending_state w id)
  end.
Proof.
  unfold doSendTransaction. intros Hrun.
  destruct (m_isStoping w) eqn:Hstop.
  - inversion Hrun; subst. exists TX_CANCELLED.
    split; [reflexivity | apply push_complete_event_spent].
  - destruct (doSendTransaction_try context w) as [r0 w0] eqn:Htry.
    apply doSendTransaction_try_outcome in Htry.
    destruct r0 as [request|[ec|]|]; inversion Hrun; subst; clear Hrun.
    + split; [reflexivity|].
      destruct Htry as (tx & outs' & a & p & Hreq & Hev & Hspent & _ & Hst).
      exists tx, outs', a, p. auto.
    + exists ec. split; [reflexivity | apply push_complete_event_spent].
    + exists INTERNAL_WALLET_ERROR.
      split; [reflexivity | apply push_complete_event_spent].
    + reflexivity.
Qed.

Lemma doSendTransaction_all_or_nothing_witness :
  exists ec,
    events (push_complete_event tightWallet O (Some TRANSACTION_SIZE_TOO_BIG))
    = events tightWallet ++ [WalletSendTransactionCompletedEvent O (Some ec)]
    /\ spent_coins (push_complete_event tightWallet O (Some TRANSACTION_SIZE_TOO_BIG))
       = spent_coins tightWallet.
Proof.
  exact (doSendTransaction_all_or_nothing (H := scenarioExternals)
           scenarioA_context tightWallet (Ok None)
           (push_complete_event tightWallet O (Some TRANSACTION_SIZE_TOO_BIG))
           eq_refl).
Defined.

(** X14.  The assembler's two failures, once the inputs are prepared
    and the destinations split.  If the construction primitive
    refuses, the send ends with [INTERNAL_WALLET_ERROR]; if the
    transaction it builds is not strictly smaller than the size limit,
    with [TRANSACTION_SIZE_TOO_BIG]; the record is untouched but for
    that code.  A transaction below the limit is handed to the
    relay. *)
Theorem doSendTransaction_assembly `{Externals}
  (context : SendTransactionContext) (w : Wallet)
  (transaction : TransactionInfo)
  (prepared : list outs_for_amount * list tx_source_entry)
  (splittedDests : list tx_destination_entry) :
  m_isStoping w = false ->
  getTransaction (m_transactionsCache w) (transactionId context) = Ok transaction ->
  prepareInputs (selectedTransfers context) (outs context) [] (mixIn context)
  = Ok prepared ->
  splitDestinations (m_transactionsCache w) (firstTransferId transaction)
    (transferCount transaction)
    (createChangeDestinations (m_account_address (m_keys w))
       (u64 (- totalAmount transaction)) (foundMoney context) AUTO_VAL_INIT_changeDts)
    (dustPolicy context) = Ok splittedDests ->
  (construct_tx (m_keys w) (snd prepared) splittedDests
                (String.list_ascii_of_string (extra transaction))
                (unlockTime transaction) = None ->
   doSendTransaction context w
   = (Ok None, push_complete_event w (transactionId context)
                                   (Some INTERNAL_WALLET_ERROR)))
  /\ (forall tx,
         construct_tx (m_keys w) (snd prepared) splittedDests
                      (String.list_ascii_of_string (extra transaction))
                      (unlockTime transaction) = Some tx ->
         (m_upperTransactionSizeLimit w <= get_object_blobsize tx ->
          doSendTransaction context w
          = (Ok None, push_complete_event w (transactionId context)
                                          (Some TRANSACTION_SIZE_TOO_BIG)))
         /\ (get_object_blobsize tx < m_upperTransactionSizeLimit w ->
             exists w',
               doSendTransaction context w
               = (Ok (Some (WalletRelayTransactionRequest tx
                              (with_outs context (fst prepared)))), w'))).
Proof.
  intros Hstop Hget Hprep Hsplit.
  unfold doSendTransaction, doSendTransaction_try, bind, lift, modify, ret, constructTx.
  rewrite Hstop, Hget, Hprep, Hsplit.
  split; [intros ->; reflexivity|].
  intros tx ->. split; intros Hsize.
  - apply Z.leb_le in Hsize. rewrite Hsize. reflexivity.
  - apply Z.leb_gt in Hsize. rewrite Hsize. cbn [throwIf rbind].
    eexists. reflexivity.
Qed.

Lemma doSendTransaction_assembly_witness :
  doSendTransaction (H := scenarioExternals) scenarioA_context tightWallet
  = (Ok None, push_complete_event tightWallet O (Some TRANSACTION_SIZE_TOO_BIG)).
Proof.
  destruct (doSendTransaction_assembly (H := scenarioExternals) scenarioA_context
              tightWallet
              {| firstTransferId := O; transferCount := 1; totalAmount := -1010;
                 tx_fee := 10; hash := 0; extra := String.EmptyString;
                 unlockTime := 0; state := Pending |}
              ([], [lone_source (coin 2000 7)])
              [ {| dst_amount := 1000; addr := "bob"%string |};
                {| dst_amount := 90; addr := "wallet"%string |};
                {| dst_amount := 900; addr := "wallet"%string |} ]
              eq_refl eq_refl eq_refl eq_refl) as [_ Hsome].
  destruct (Hsome _ eq_refl) as [Hbig _].
  apply Hbig. vm_compute. discriminate.
Defined.

(** The part of [makeSendRequest] up to the new record, laid open. *)
Lemma makeSendRequest_inv `{Externals} rg transfers fee extra mixin unlock w r w' :
  makeSendRequest rg transfers fee extra mixin unlock w = (Ok r, w') ->
  exists needed found selected,
    transfers <> []
    /\ validateTransfersAddresses transfers = Ok tt
    /\ countNeededMoney fee transfers = Ok needed
    /\ selectTransfersToSend w rg needed (mixin =? 0)
                             (dustThreshold defaultDustPolicy) []
       = Some (found, selected)
    /\ needed <= found
    /\ let w1 := with_cache w (snd (addNewTransaction (m_transactionsCache w) needed
                                      fee extra transfers unlock)) in
       let context :=
         {| transactionId := length (m_transactions (m_transactionsCache w));
            outs := [];
            foundMoney := found;
            selectedTransfers := selected;
            dustPolicy := defaultDustPolicy;
            mixIn := mixin |} in
       if negb (mixin =? 0)
       then r = (transactionId context, Some (makeGetRandomOutsRequest context))
            /\ w' = w1
       else exists request,
              doSendTransaction context w1 = (Ok request, w')
              /\ r = (transactionId context, request).
Proof.
  unfold makeSendRequest, bind, lift, ret. intros Hrun.
  destruct transfers as [|t rest]; [discriminate|].
  cbn [is_empty throwIf] in Hrun.
  destruct (validateTransfersAddresses (t :: rest)) as [[]| |] eqn:Hval;
    try discriminate.
  destruct (countNeededMoney fee (t :: rest)) as [needed| |] eqn:Hcount;
    try discriminate.
  destruct (selectTransfersToSend _ _ _ _ _ _) as [[found selected]|] eqn:Hsel;
    try discriminate.
  cbn [fst snd] in Hrun.
  destruct (found <? needed) eqn:Hlt; [discriminate|].
  apply Z.ltb_ge in Hlt. cbn [throwIf addNewTransaction] in Hrun.
  exists needed, found, selected.
  split; [discriminate|].
  split; [first [reflexivity | assumption]|].
  split; [first [reflexivity | assumption]|].
  split; [first [reflexivity | assumption]|]. split; [exact Hlt|].
  cbn [addNewTransaction snd].
  destruct (negb (mixin =? 0)).
  - inversion Hrun; subst. split; reflexivity.
  - match type of Hrun with
    | context [doSendTransaction ?c ?w1] =>
        destruct (doSendTransaction c w1) as [[request| |] w2] eqn:Hsend;
          try discriminate
    end.
    inversion Hrun; subst. exists request.
    split; [first [exact Hsend | reflexivity] | reflexivity].
Qed.

(** X15.  After [stop] nothing is relayed and nothing is spent.  With
    the stop flag set, the flag stays set; [doSendTransaction] and the
    decoy callback hand back no request; [makeSendRequest] hands back
    no relay request; and none of them, nor the relay callback, marks
    a coin spent. *)
Theorem stopped_sender_spends_nothing `{Externals} (w : Wallet) :
  m_isStoping w = true ->
  (forall context r w',
      doSendTransaction context w = (r, w') ->
      r = Ok None /\ m_isStoping w' = true /\ spent_coins w' = spent_coins w)
  /\ (forall context ec r w',
         sendTransactionRandomOutsByAmount context ec w = (r, w') ->
         r = Ok None /\ m_isStoping w' = true /\ spent_coins w' = spent_coins w)
  /\ (forall context ec r w',
         relayTransactionCallback context ec w = (r, w') -> w' = w)
  /\ (forall rg transfers fee extra mixin unlock r w',
         makeSendRequest rg transfers fee extra mixin unlock w = (r, w') ->
         m_isStoping w' = true
         /\ spent_coins w' = spent_coins w
         /\ forall id tx context,
              r <> Ok (id, Some (WalletRelayTransactionRequest tx context))).
Proof.
  intros Hstop.
  assert (Hdo : forall context r w',
             doSendTransaction context w = (r, w') ->
             r = Ok None /\ m_isStoping w' = true /\ spent_coins w' = spent_coins w).
  { intros context r w' Hrun. unfold doSendTransaction in Hrun.
    rewrite Hstop in Hrun. inversion Hrun; subst.
    split; [reflexivity|]. split; [exact Hstop | apply push_complete_event_spent]. }
  split; [exact Hdo|]. split; [|split].
  - intros context ec r w' Hrun. unfold sendTransactionRandomOutsByAmount in Hrun.
    rewrite Hstop in Hrun. inversion Hrun; subst.
    split; [reflexivity|]. split; [exact Hstop | apply push_complete_event_spent].
  - intros context ec r w' Hrun. unfold relayTransactionCallback in Hrun.
    rewrite Hstop in Hrun. now inversion Hrun.
  - intros rg transfers fee extra mixin unlock r w' Hrun.
    destruct r as [[id request]|x|].
    + destruct (makeSendRequest_inv _ _ _ _ _ _ _ _ _ Hrun)
        as (needed & found & selected & _ & _ & _ & _ & _ & Hrest).
      cbv zeta in Hrest. destruct (negb (mixin =? 0)).
      * destruct Hrest as [Hr ->]. inversion Hr; subst.
        split; [exact Hstop|]. split; [reflexivity|].
        intros id tx context. unfold makeGetRandomOutsRequest. discriminate.
      * destruct Hrest as (request' & Hsend & Hr). inversion Hr; subst.
        unfold doSendTransaction in Hsend. cbn [m_isStoping with_cache] in Hsend.
        rewrite Hstop in Hsend. inversion Hsend; subst.
        split; [exact Hstop|].
        split; [rewrite push_complete_event_spent; reflexivity|].
        intros id tx context. discriminate.
    + apply makeSendRequest_effect in Hrun. subst w'.
      split; [exact Hstop|]. split; [reflexivity | discriminate].
    + assert (Hw : m_isStoping w' = true /\ spent_coins w' = spent_coins w).
      { revert Hrun. unfold makeSendRequest, bind, lift, ret, throwIf.
        destruct (is_empty transfers); [discriminate|].
        destruct (validateTransfersAddresses transfers) as [[]| |];
          try discriminate;
          try (intros Hrun; inversion Hrun; subst; split; [exact Hstop | reflexivity]).
        destruct (countNeededMoney fee transfers) as [needed| |];
          try discriminate;
          try (intros Hrun; inversion Hrun; subst; split; [exact Hstop | reflexivity]).
        destruct (selectTransfersToSend _ _ _ _ _ _) as [[found selected]|];
          try (intros Hrun; inversion Hrun; subst; split; [exact Hstop | reflexivity]).
        cbn [fst snd]. destruct (found <? needed); [discriminate|].
        cbn [addNewTransaction]. destruct (negb (mixin =? 0)); [discriminate|].
        unfold doSendTransaction at 1. cbn [m_isStoping with_cache].
        rewrite Hstop. discriminate. }
      destruct Hw as [H1 H2]. split; [exact H1|]. split; [exact H2 | discriminate].
Qed.

Lemma stopped_sender_spends_nothing_witness :
  m_isStoping (stop (scenarioWallet [coin 2000 7])) = true
  /\ spent_coins
       (snd (makeSendRequest (H := scenarioExternals) firstIndex
               [mkTransfer "bob"%string 1000] 10 String.EmptyString 0 0
               (stop (scenarioWallet [coin 2000 7])))) = [].
Proof.
  split; [reflexivity|].
  destruct (stopped_sender_spends_nothing (H := scenarioExternals)
              (stop (scenarioWallet [coin 2000 7])) eq_refl)
    as (_ & _ & _ & Hsend).
  destruct (Hsend firstIndex [mkTransfer "bob"%string 1000] 10
              String.EmptyString 0 0 _ _ (surjective_pairing _))
    as (_ & Hspent & _).
  exact Hspent.
Defined.


(** ** The value of an assembled transaction *)

(** What [splitDestinations] hands out is worth the transfers and the
    change, less the dust it leaves to the fee. *)
Lemma splitDestinations_value `{Externals} cache first count change policy dests :
  0 <= dustThreshold policy -> 0 <= dst_amount change ->
  splitDestinations cache first count change policy = Ok dests ->
  exists dsts dust,
    digitSplitStrategy cache first count change (dustThreshold policy) = Ok (dsts, dust)
    /\ 0 <= dust <= dustThreshold policy
    /\ sum_dsts dests + (if addToFee policy then dust else 0)
       = fold_right (fun tr acc => u64 (amount tr) + acc) 0
                    (transfer_range cache first count)
         + dst_amount change.
Proof.
  intros Hthr Hchange. unfold splitDestinations.
  destruct (digitSplitStrategy cache first count change (dustThreshold policy))
    as [[dsts dust]| |] eqn:Hd; cbn [rbind fst snd]; try discriminate.
  intros Hs. exists dsts, dust. split; [reflexivity|].
  destruct (digitSplitStrategy_change _ _ _ _ _ _ _ Hthr Hd)
    as (parts & cp & Hdsts & Hparts & _ & _ & Hsum & Hdust).
  rewrite decompose_amount_into_digits_sum in Hsum by exact Hchange.
  assert (Hnn : 0 <= dust).
  { destruct (digitSplitStrategy_inv _ _ _ _ _ _ _ Hthr Hd)
      as (_ & _ & _ & _ & _ & _ & _ & Hnn & _).
    exact (Hnn Hchange). }
  assert (Hle : dust <= dustThreshold policy) by (destruct Hdust; lia).
  split; [lia|].
  rewrite splitDestinations_dust_ok in Hs by exact Hle.
  inversion Hs as [Hdests]. clear Hs.
  rewrite <- (sum_dsts_concat _ _ _ Hparts).
  assert (Hall : sum_dsts dsts = sum_dsts (concat parts) + sum_dsts cp)
    by (rewrite Hdsts; apply sum_dsts_app).
  destruct (dust =? 0) eqn:Ez; destruct (addToFee policy); cbn [negb andb];
    rewrite ?sum_dsts_app; simpl; try (apply Z.eqb_eq in Ez); lia.
Qed.

Lemma sum_sources_app a b : sum_sources (a ++ b) = sum_sources a + sum_sources b.
Proof. induction a as [|s a IH]; simpl; [reflexivity | rewrite IH; lia]. Qed.

Lemma prepareInputs_value selected decoys mixin prepared :
  prepareInputs selected decoys [] mixin = Ok prepared ->
  sum_sources (snd prepared) = sum_outputs selected.
Proof.
  unfold prepareInputs. destruct prepared as [decoys' sources']. intros Hrun.
  destruct (prepareInputs_loop_coins _ _ _ _ _ _ _ Hrun) as (entries & -> & Hall).
  simpl. clear Hrun. induction Hall as [|td src l l' (Ha & _) _ IH]; simpl; [reflexivity|].
  rewrite IH, Ha. reflexivity.
Qed.

(** The arguments [construct_tx] is given by a send that gets as far as
    the relay request. *)
Lemma doSendTransaction_try_value `{Externals} context w request w' :
  0 <= dustThreshold (dustPolicy context) ->
  doSendTransaction_try context w = (Ok request, w') ->
  exists transaction sources dests tx outs' dust,
    getTransaction (m_transactionsCache w) (transactionId context) = Ok transaction
    /\ construct_tx (m_keys w) sources dests
         (String.list_ascii_of_string (extra transaction)) (unlockTime transaction)
       = Some tx
    /\ request = WalletRelayTransactionRequest tx (with_outs context outs')
    /\ sum_sources sources = sum_outputs (selectedTransfers context)
    /\ 0 <= dust <= dustThreshold (dustPolicy context)
    /\ sum_dsts dests + (if addToFee (dustPolicy context) then dust else 0)
       = fold_right (fun tr acc => u64 (amount tr) + acc) 0
           (transfer_range (m_transactionsCache w) (firstTransferId transaction)
                           (transferCount transaction))
         + (if u64 (- totalAmount transaction) <? foundMoney context
            then u64 (foundMoney context - u64 (- totalAmount transaction))
            else 0).
Proof.
  intros Hthr Hrun.
  destruct (doSendTransaction_try_destinations _ _ _ _ Hrun)
    as (transaction & prepared & dests & tx & Hget & Hprep & Hsplit & Htx & Hreq).
  apply splitDestinations_value in Hsplit; [|exact Hthr|].
  - destruct Hsplit as (dsts & dust & _ & Hdust & Hsum).
    exists transaction, (snd prepared), dests, tx, (fst prepared), dust.
    split; [exact Hget|]. split.
    { unfold constructTx in Htx.
      destruct (construct_tx _ _ _ _ _) as [tx0|]; [|discriminate].
      destruct (m_upperTransactionSizeLimit w <=? get_object_blobsize tx0);
        cbn [throwIf rbind] in Htx; [discriminate|].
      now inversion Htx. }
    split; [exact Hreq|]. split; [exact (prepareInputs_value _ _ _ _ Hprep)|].
    split; [exact Hdust|]. rewrite Hsum. f_equal.
    unfold createChangeDestinations.
    destruct (u64 (- totalAmount transaction) <? foundMoney context); reflexivity.
  - unfold createChangeDestinations.
    destruct (u64 (- totalAmount transaction) <? foundMoney context); simpl;
      [apply u64_range | lia].
Qed.

(** X16.  The value of the transaction a send assembles is accounted
    for: the sources handed to [construct_tx] are worth the selected
    coins, and the destinations are worth the transfers of the record
    plus the change (the found money above the record's total, nothing
    when there is none), less the dust, within the threshold, that is
    left to the fee. *)
Theorem doSendTransaction_value_accounted `{Externals}
  (context context' : SendTransactionContext) (w w' : Wallet) (tx : Transaction) :
  0 <= dustThreshold (dustPolicy context) ->
  doSendTransaction context w
  = (Ok (Some (WalletRelayTransactionRequest tx context')), w') ->
  exists transaction sources dests dust,
    getTransaction (m_transactionsCache w) (transactionId context) = Ok transaction
    /\ construct_tx (m_keys w) sources dests
         (String.list_ascii_of_string (extra transaction)) (unlockTime transaction)
       = Some tx
    /\ sum_sources sources = sum_outputs (selectedTransfers context)
    /\ 0 <= dust <= dustThreshold (dustPolicy context)
    /\ sum_dsts dests + (if addToFee (dustPolicy context) then dust else 0)
       = fold_right (fun tr acc => u64 (amount tr) + acc) 0
           (transfer_range (m_transactionsCache w) (firstTransferId transaction)
                           (transferCount transaction))
         + (if u64 (- totalAmount transaction) <? foundMoney context
            then u64 (foundMoney context - u64 (- totalAmount transaction))
            else 0).
Proof.
  intros Hthr. unfold doSendTransaction.
  destruct (m_isStoping w); [discriminate|].
  destruct (doSendTransaction_try context w) as [[request|[ec|]|] w1] eqn:Htry;
    try discriminate.
  intros Hrun. inversion Hrun; subst.
  destruct (doSendTransaction_try_value _ _ _ _ Hthr Htry)
    as (transaction & sources & dests & tx0 & outs' & dust
        & Hget & Htx & Hreq & Hsrc & Hdust & Hsum).
  inversion Hreq; subst.
  exists transaction, sources, dests, dust. repeat split; try assumption; lia.
Qed.

Lemma doSendTransaction_value_accounted_witness :
  exists sources dests dust,
    sum_sources sources = 2000
    /\ 0 <= dust <= 0
    /\ sum_dsts dests + dust = 1000 + 990.
Proof.
  eassert (Hrun : doSendTransaction (H := scenarioExternals) scenarioA_context
                    scenarioC_wallet
                  = (Ok (Some (WalletRelayTransactionRequest _ _)), _))
    by (vm_compute; reflexivity).
  apply (doSendTransaction_value_accounted (H := scenarioExternals)) in Hrun;
    [|simpl; lia].
  destruct Hrun
    as (transaction & sources & dests & dust & Hget & _ & Hsrc & Hdust & Hsum).
  inversion Hget; subst transaction.
  exists sources, dests, dust. split; [exact Hsrc|]. split; [exact Hdust|].
  exact Hsum.
Defined.


(** ** A send without decoys, end to end *)

Lemma transfers_from_added cache amount fee extra transfers unlock rounds :
  transfers_from (snd (addNewTransaction cache amount fee extra transfers unlock))
                 (length (m_transfers cache)) rounds
  = firstn rounds transfers.
Proof.
  unfold transfers_from, addNewTransaction. simpl.
  rewrite skipn_app, skipn_all, Nat.sub_diag. reflexivity.
Qed.

(** The range of a new record is its transfers, the cache holding
    fewer than [2^64] of them. *)
Lemma transfer_range_added cache amount fee extra transfers unlock :
  Z.of_nat (length (m_transfers cache)) + Z.of_nat (length transfers) < two64 ->
  transfer_range (snd (addNewTransaction cache amount fee extra transfers unlock))
                 (length (m_transfers cache)) (length transfers)
  = transfers.
Proof.
  intros Hfit. unfold transfer_range.
  rewrite transfers_from_added, transfer_rounds_no_wrap by exact Hfit.
  apply firstn_all.
Qed.

(** Whether or not the bound wraps, the range of a new record lies in
    the cache and holds transfers of the request only. *)
Lemma transfer_range_added_within cache amount fee extra transfers unlock :
  let range := transfer_range
                 (snd (addNewTransaction cache amount fee extra transfers unlock))
                 (length (m_transfers cache)) (length transfers) in
  length range = transfer_rounds (length (m_transfers cache)) (length transfers)
  /\ forall P : Transfer -> Prop, Forall P transfers -> Forall P range.
Proof.
  cbv zeta. unfold transfer_range. rewrite transfers_from_added.
  pose proof (transfer_rounds_le (length (m_transfers cache)) (length transfers)) as Hle.
  split.
  - rewrite length_firstn. lia.
  - intros P Hall.
    rewrite <- (firstn_skipn (transfer_rounds (length (m_transfers cache))
                                              (length transfers)) transfers) in Hall.
    apply Forall_app in Hall. apply Hall.
Qed.

Lemma getTransaction_added cache amount fee extra transfers unlock :
  getTransaction (snd (addNewTransaction cache amount fee extra transfers unlock))
                 (length (m_transactions cache))
  = Ok {| firstTransferId := length (m_transfers cache);
          transferCount := length transfers;
          totalAmount := to_int64 (- to_int64 amount);
          tx_fee := fee;
          hash := 0;
          extra := extra;
          unlockTime := unlock;
          state := Pending |}.
Proof.
  unfold getTransaction, addNewTransaction. simpl.
  rewrite nth_error_app2 by lia. rewrite Nat.sub_diag. reflexivity.
Qed.

(** The record keeps the needed money: negated into the signed total
    and negated back by [doSendTransaction]. *)
Lemma totalAmount_round_trip n :
  0 <= n < two63 -> u64 (- to_int64 (- to_int64 n)) = n.
Proof.
  intros Hn. rewrite (to_int64_small n Hn).
  destruct (Z.eq_dec n 0) as [->|Hnz]; [reflexivity|].
  assert (Hneg : to_int64 (- n) = - n).
  { unfold to_int64.
    assert (Hm : (- n) mod two64 = two64 - n).
    { symmetry. apply Z.mod_unique with (q := -1);
        rewrite two64_val; rewrite two63_val in Hn; lia. }
    rewrite Hm. destruct (two64 - n <? two63) eqn:E;
      [apply Z.ltb_lt in E|]; rewrite two64_val, two63_val in *; lia. }
  rewrite Hneg, Z.opp_involutive. apply u64_small. rewrite two63_val, two64_val in *. lia.
Qed.

Lemma sum_u64_amounts transfers :
  Forall (fun t => 0 <= amount t < two64) transfers ->
  fold_right (fun tr acc => u64 (amount tr) + acc) 0 transfers = sum_amounts transfers.
Proof.
  induction 1 as [|t l Ht _ IH]; simpl; [reflexivity|].
  rewrite IH, (u64_small _ Ht). reflexivity.
Qed.

(** Without wrap-around the found money is the value of the selected
    coins. *)
Lemma selectTransfersToSend_exact w rg needed addDust dust found selected :
  Forall (fun o => 0 <= td_amount o < two64)
         (getOutputs_IncludeKeyUnlocked (m_transferDetails w)) ->
  sum_outputs (unused_outputs (m_transactionsCache w)
                 (getOutputs_IncludeKeyUnlocked (m_transferDetails w))) < two64 ->
  selectTransfersToSend w rg needed addDust dust [] = Some (found, selected) ->
  found = sum_outputs selected /\ 0 <= found < two64.
Proof.
  intros Hamounts Hfits. unfold selectTransfersToSend.
  set (outputs := getOutputs_IncludeKeyUnlocked (m_transferDetails w)) in *.
  set (cache := m_transactionsCache w) in *.
  destruct (collect_unused_pools cache dust outputs O [] [])
    as (t & d & Hpools & Hperm).
  rewrite Hpools. simpl app.
  destruct (selectTransfersToSend_loop_spec rg outputs needed
              (S (length t + length d)) O (addDust && negb (is_empty d)) t d 0 [])
    as (found' & idxs & picked & uT & uD & Hrun & Hpick & Hperm2 & Hf & _ & _).
  - lia.
  - intros E. apply andb_true_iff in E. destruct E as [_ E].
    apply negb_true_iff, is_empty_false in E. exact E.
  - eapply Permutation_Forall; [symmetry; exact Hperm|].
    apply Forall_forall. intros j Hj. apply unused_from_valid in Hj.
    destruct Hj as (_ & o & Ho & _). rewrite Nat.sub_0_r in Ho. congruence.
  - rewrite two64_val. lia.
  - intros Hsel. pose proof (eq_trans (eq_sym Hrun) Hsel) as E.
    simpl in E, Hf. inversion E; subst found selected. clear E Hsel Hrun.
    set (d0 := mkOutput 0 0 0 0 0).
    set (f := fun i => nth i outputs d0).
    assert (Hpicked : picked = map f idxs) by (apply picked_by_index; exact Hpick).
    assert (Hall : Permutation (picked ++ map f (uT ++ uD))
                               (unused_outputs cache outputs)).
    { rewrite Hpicked, <- map_app.
      rewrite <- (unused_from_outputs cache d0 outputs O).
      erewrite (map_ext (fun j => nth (j - 0) outputs d0) f)
        by (intros j; unfold f; now rewrite Nat.sub_0_r).
      apply Permutation_map. rewrite Hperm2. exact Hperm. }
    assert (Hnonneg : forall l, 0 <= sum_outputs (map f l)).
    { intros l. induction l as [|j l IH]; simpl; [lia|].
      assert (0 <= td_amount (f j)); [|lia].
      unfold f. destruct (nth_in_or_default j outputs d0) as [Hin| ->].
      - rewrite Forall_forall in Hamounts. apply (Hamounts _ Hin).
      - simpl. lia. }
    apply sum_outputs_permutation in Hall. rewrite sum_outputs_app in Hall.
    pose proof (Hnonneg (uT ++ uD)) as Hrest.
    pose proof (Hnonneg idxs) as Hsel. rewrite <- Hpicked in Hsel.
    rewrite Hf. split; [apply u64_small; lia | apply u64_range].
Qed.

(** X17.  A send without decoys pays exactly the fee.  In the
    transaction [makeSendRequest] assembles for a request with mixin 0,
    the sources are worth the selected coins, and that value is the
    value of the destinations plus the fee plus the dust, within the
    threshold, that the policy leaves to the fee; nothing else is
    lost or created.  (The amounts are in range, the unused coins
    total less than [2^64], and the transfers of the cache, the new
    ones included, are fewer than [2^64], so that the bound of the
    record's range fits a [size_t].) *)
Theorem makeSendRequest_pays_exactly_the_fee `{Externals}
  (rg : nat -> nat) (transfers : list Transfer) (fee : Z) (extra0 : string)
  (unlock : Z) (w w' : Wallet) (id : TransactionId) (tx : Transaction)
  (context : SendTransactionContext) :
  0 <= fee < two64 ->
  Forall (fun t => - two63 <= amount t < two63) transfers ->
  Forall (fun o => 0 <= td_amount o < two64)
         (getOutputs_IncludeKeyUnlocked (m_transferDetails w)) ->
  sum_outputs (unused_outputs (m_transactionsCache w)
                 (getOutputs_IncludeKeyUnlocked (m_transferDetails w))) < two64 ->
  0 <= dustThreshold defaultDustPolicy ->
  Z.of_nat (length (m_transfers (m_transactionsCache w)))
  + Z.of_nat (length transfers) < two64 ->
  makeSendRequest rg transfers fee extra0 0 unlock w
  = (Ok (id, Some (WalletRelayTransactionRequest tx context)), w') ->
  exists sources dests dust,
    construct_tx (m_keys w) sources dests (String.list_ascii_of_string extra0) unlock
    = Some tx
    /\ sum_sources sources = sum_outputs (selectedTransfers context)
    /\ 0 <= dust <= dustThreshold defaultDustPolicy
    /\ sum_sources sources
       = sum_dsts dests + fee + (if addToFee defaultDustPolicy then dust else 0)
    /\ sum_dsts dests + (if addToFee defaultDustPolicy then dust else 0)
       = sum_amounts transfers
         + (sum_outputs (selectedTransfers context) - (fee + sum_amounts transfers))
    /\ fee + sum_amounts transfers <= sum_outputs (selectedTransfers context).
Proof.
  intros Hfee Hamounts Hcoins Hfits Hthr Hcache Hrun.
  apply makeSendRequest_inv in Hrun.
  destruct Hrun as (needed & found & selected & Hne & _ & Hcount & Hsel & Hle & Hrest).
  cbn [Z.eqb negb] in Hrest. destruct Hrest as (request & Hdo & Hr).
  inversion Hr; subst id request. clear Hr.
  destruct (countNeededMoney_loop_ok transfers Hamounts fee needed Hfee Hcount)
    as (Hpos & Hneeded & Hsmall).
  specialize (Hsmall Hne).
  destruct (selectTransfersToSend_exact _ _ _ _ _ _ _ Hcoins Hfits Hsel)
    as [Hfound Hrange].
  revert Hdo. unfold doSendTransaction. cbn [m_isStoping with_cache].
  destruct (m_isStoping w); [discriminate|].
  match goal with
  | |- context [doSendTransaction_try ?c ?w1] =>
      destruct (doSendTransaction_try c w1) as [[request|[ec|]|] w2] eqn:Htry
  end; try discriminate.
  intros Hdo. inversion Hdo; subst request w2. clear Hdo.
  apply doSendTransaction_try_value in Htry; [|exact Hthr].
  destruct Htry as (transaction & sources & dests & tx0 & outs' & dust
                    & Hget & Htx & Hreq & Hsrc & Hdust & Hsum).
  cbn [m_transactionsCache with_cache transactionId selectedTransfers dustPolicy
       foundMoney m_keys] in *.
  rewrite getTransaction_added in Hget. inversion Hget; subst transaction. clear Hget.
  cbn [firstTransferId transferCount totalAmount extra unlockTime] in *.
  inversion Hreq; subst tx0 context. clear Hreq.
  cbn [selectedTransfers with_outs].
  rewrite transfer_range_added in Hsum by exact Hcache.
  assert (Hn0 : 0 <= needed).
  { assert (0 <= sum_amounts transfers); [|lia].
    clear - Hpos. induction Hpos; simpl; lia. }
  rewrite totalAmount_round_trip in Hsum by lia.
  rewrite sum_u64_amounts in Hsum.
  2:{ rewrite Forall_forall in *. intros t Ht.
      specialize (Hpos t Ht). specialize (Hamounts t Ht).
      rewrite two63_val, two64_val in *. lia. }
  assert (Hchange : (if needed <? found then u64 (found - needed) else 0)
                    = found - needed).
  { destruct (needed <? found) eqn:E.
    - apply u64_small. apply Z.ltb_lt in E. lia.
    - apply Z.ltb_ge in E. lia. }
  rewrite Hchange in Hsum.
  exists sources, dests, dust.
  split; [exact Htx|]. split; [exact Hsrc|]. split; [exact Hdust|].
  rewrite Hsrc, <- Hfound. repeat split; lia.
Qed.

Lemma makeSendRequest_pays_exactly_the_fee_witness :
  exists sources dests dust,
    sum_sources sources = 2000
    /\ 0 <= dust <= 0
    /\ sum_sources sources = sum_dsts dests + 10 + dust.
Proof.
  eassert (Hrun : makeSendRequest (H := scenarioExternals) firstIndex
                    [mkTransfer "bob"%string 1000] 10 String.EmptyString 0 0
                    (scenarioWallet [coin 2000 7])
                  = (Ok (_, Some (WalletRelayTransactionRequest _ _)), _))
    by (vm_compute; reflexivity).
  apply (makeSendRequest_pays_exactly_the_fee (H := scenarioExternals)) in Hrun.
  - destruct Hrun as (sources & dests & dust & _ & Hsrc & Hdust & Hfee & _).
    exists sources, dests, dust. split; [exact Hsrc|]. split; [exact Hdust|].
    exact Hfee.
  - rewrite two64_val. lia.
  - repeat apply Forall_cons; try apply Forall_nil; simpl; rewrite ?two63_val; lia.
  - repeat apply Forall_cons; try apply Forall_nil; simpl; rewrite ?two64_val; lia.
  - vm_compute. reflexivity.
  - simpl. lia.
  - vm_compute. reflexivity.
Defined.


(** ** The size of the anonymity sets *)

(** With distinct global indices a decoy set holds the coin's own
    index at most once. *)
Lemma other_decoys_length td l :
  NoDup (map global_amount_index l) ->
  (length l <= S (length (other_decoys td l)))%nat.
Proof.
  unfold other_decoys. induction l as [|o l IH]; intros Hnd; simpl; [lia|].
  inversion Hnd as [|? ? Hnotin Hrest]; subst.
  destruct (globalOutputIndex td =? global_amount_index o) eqn:E; simpl.
  - apply Z.eqb_eq in E.
    assert (Hall : filter (fun o0 => negb (globalOutputIndex td =? global_amount_index o0)) l
                   = l).
    { apply forallb_filter_id. apply forallb_forall. intros x Hx.
      apply negb_true_iff, Z.eqb_neq. intros Heq. apply Hnotin.
      rewrite <- E, Heq. apply in_map. exact Hx. }
    rewrite Hall. lia.
  - specialize (IH Hrest). lia.
Qed.

Lemma prepareInputs_ring_size selected decoys mixin decoys' sources' :
  0 < mixin -> decoys <> [] ->
  prepareInputs selected decoys [] mixin = Ok (decoys', sources') ->
  length sources' = length selected
  /\ forall k src,
       nth_error sources' k = Some src ->
       exists td o,
         nth_error selected k = Some td
         /\ nth_error decoys k = Some o
         /\ length (outputs src)
            = S (Nat.min (Z.to_nat mixin) (length (other_decoys td (ofa_outs o)))).
Proof.
  intros Hmix Hne Hrun. unfold prepareInputs in Hrun.
  destruct (prepareInputs_loop_coins _ _ _ _ _ _ _ Hrun) as (entries & Hsrc & Hall).
  simpl in Hsrc. subst sources'.
  pose proof (Forall2_length Hall) as Hlen.
  split; [symmetry; exact Hlen|].
  intros k src Hk.
  assert (Hlt : (k < length selected)%nat).
  { rewrite Hlen. apply nth_error_Some. congruence. }
  destruct (nth_error selected k) as [td|] eqn:Htd;
    [|apply nth_error_None in Htd; lia].
  destruct (prepareInputs_loop_nth _ _ _ _ _ _ _ Hrun k td Htd)
    as (src' & pasted & Hnth & Hout & Hcase).
  simpl in Hnth. rewrite Hk in Hnth. inversion Hnth; subst src'. clear Hnth.
  destruct Hcase as [(Hnil & _)|(o & Ho & Hpasted)]; [contradiction|].
  simpl in Ho. exists td, o. split; [reflexivity|]. split; [exact Ho|].
  rewrite Hout, length_insert_at. f_equal.
  rewrite Hpasted, paste_mixin_firstn by (simpl; lia).
  simpl. rewrite Nat.sub_0_r, length_firstn, length_map. f_equal.
  unfold other_decoys. apply filter_length_permutation, sort_outs_permutation.
Qed.

(** X18.  The size of the anonymity sets.  When the decoy response is
    not empty and the send goes on to build a transaction with a
    positive mixin, there is one source per selected coin and none has
    more than [mixIn + 1] candidates; when the global indices of each
    decoy set are distinct, none has fewer than [mixIn] (the real
    output may take the place of the one decoy that repeats it). *)
Theorem sendTransactionRandomOutsByAmount_ring_size `{Externals}
  (context context' : SendTransactionContext) (w w' : Wallet) (tx : Transaction) :
  0 < mixIn context ->
  outs context <> [] ->
  sendTransactionRandomOutsByAmount context None w
  = (Ok (Some (WalletRelayTransactionRequest tx context')), w') ->
  exists transaction sources dests,
    getTransaction (m_transactionsCache w) (transactionId context) = Ok transaction
    /\ construct_tx (m_keys w) sources dests
         (String.list_ascii_of_string (extra transaction)) (unlockTime transaction)
       = Some tx
    /\ length sources = length (selectedTransfers context)
    /\ Forall (fun src => Z.of_nat (length (outputs src)) <= mixIn context + 1) sources
    /\ (Forall (fun o => NoDup (map global_amount_index (ofa_outs o))) (outs context) ->
        Forall (fun src => mixIn context <= Z.of_nat (length (outputs src))) sources).
Proof.
  intros Hmix Hne. unfold sendTransactionRandomOutsByAmount, doSendTransaction.
  destruct (m_isStoping w); [discriminate|].
  destruct (existsb _ (outs context)) eqn:Hscanty; [discriminate|].
  destruct (doSendTransaction_try context w) as [[request|[ec|]|] w1] eqn:Htry;
    try discriminate.
  intros Hrun. inversion Hrun; subst request w1. clear Hrun.
  destruct (doSendTransaction_try_destinations _ _ _ _ Htry)
    as (transaction & [decoys' sources] & dests & tx0 & Hget & Hprep & _ & Htx & Hreq).
  inversion Hreq; subst tx0 context'. clear Hreq.
  destruct (prepareInputs_ring_size _ _ _ _ _ Hmix Hne Hprep) as [Hlen Hsize].
  exists transaction, sources, dests.
  split; [exact Hget|]. split.
  { unfold constructTx in Htx. cbn [snd] in Htx.
    destruct (construct_tx _ _ _ _ _) as [tx0|]; [|discriminate].
    destruct (m_upperTransactionSizeLimit w <=? get_object_blobsize tx0);
      cbn [throwIf rbind] in Htx; [discriminate|].
    now inversion Htx. }
  split; [exact Hlen|]. split.
  - apply Forall_forall. intros src Hin.
    destruct (In_nth_error _ _ Hin) as [k Hk].
    destruct (Hsize k src Hk) as (td & o & _ & _ & Hl). rewrite Hl. lia.
  - intros Hnd. apply Forall_forall. intros src Hin.
    destruct (In_nth_error _ _ Hin) as [k Hk].
    destruct (Hsize k src Hk) as (td & o & _ & Ho & Hl). rewrite Hl.
    apply nth_error_In in Ho.
    rewrite Forall_forall in Hnd. specialize (Hnd o Ho).
    pose proof (other_decoys_length td _ Hnd) as Hother.
    assert (Henough : mixIn context <= Z.of_nat (length (ofa_outs o))).
    { destruct (Z_le_gt_dec (mixIn context) (Z.of_nat (length (ofa_outs o))))
        as [Hle|Hgt]; [exact Hle|].
      exfalso. assert (Hex : existsb
                 (fun out => Z.of_nat (length (ofa_outs out)) <? mixIn context)
                 (outs context) = true).
      { apply existsb_exists. exists o. split; [exact Ho|]. apply Z.ltb_lt. lia. }
      congruence. }
    lia.
Qed.

Lemma sendTransactionRandomOutsByAmount_ring_size_witness :
  exists sources,
    length sources = 1%nat
    /\ Forall (fun src => Z.of_nat (length (outputs src)) <= 2 + 1) sources
    /\ Forall (fun src => 2 <= Z.of_nat (length (outputs src))) sources.
Proof.
  eassert (Hrun : sendTransactionRandomOutsByAmount (H := scenarioExternals)
                    {| transactionId := O;
                       outs := threeDecoys;
                       foundMoney := 2000;
                       selectedTransfers := [coin 2000 7];
                       dustPolicy := @defaultDustPolicy scenarioExternals;
                       mixIn := 2 |} None scenarioC_wallet
                  = (Ok (Some (WalletRelayTransactionRequest _ _)), _))
    by (vm_compute; reflexivity).
  apply (sendTransactionRandomOutsByAmount_ring_size (H := scenarioExternals)) in Hrun.
  - destruct Hrun as (transaction & sources & dests & _ & _ & Hlen & Hmax & Hmin).
    exists sources. split; [exact Hlen|]. split; [exact Hmax|].
    apply Hmin. repeat constructor; simpl; intuition discriminate.
  - simpl. lia.
  - discriminate.
Defined.


(** ** A send that waits for decoys *)

(** The selector reads the cache only through the unconfirmed
    transactions. *)
Lemma collect_unused_same_unconfirmed cache cache' dust outputs :
  m_unconfirmedTransactions cache' = m_unconfirmedTransactions cache ->
  forall i unusedTransfers unusedDust,
    collect_unused cache' dust outputs i unusedTransfers unusedDust
    = collect_unused cache dust outputs i unusedTransfers unusedDust.
Proof.
  intros Hsame.
  induction outputs as [|out rest IH]; intros i unusedTransfers unusedDust; simpl;
    [reflexivity|].
  assert (Hused : isUsed cache' out = isUsed cache out)
    by (unfold isUsed; now rewrite Hsame).
  rewrite Hused. destruct (negb (isUsed cache out)); [|apply IH].
  destruct (dust <? td_amount out); apply IH.
Qed.

(** X19.  A send with a positive mixin reserves nothing while it waits
    for its decoys.  When [makeSendRequest] succeeds with a mixin
    other than 0, it hands back the decoy request of the new send:
    one amount per selected coin, in order, and [mixIn + 1] decoys
    asked for each.  The record of the send is in the cache, pending;
    no event is pushed and no coin is marked as spent, so that a
    selection made on the wallet it leaves picks from the same coins
    as before. *)
Theorem makeSendRequest_with_decoys_reserves_nothing `{Externals}
  (rg : nat -> nat) (transfers : list Transfer) (fee : Z) (extra : string)
  (mixin unlock : Z) (w w' : Wallet) (id : TransactionId)
  (request : option WalletRequest) :
  mixin <> 0 ->
  makeSendRequest rg transfers fee extra mixin unlock w = (Ok (id, request), w') ->
  exists needed context,
    request = Some (WalletGetRandomOutsByAmountsRequest
                      (map td_amount (selectedTransfers context))
                      (u64 (mixin + 1)) context)
    /\ transactionId context = id
    /\ mixIn context = mixin
    /\ outs context = []
    /\ countNeededMoney fee transfers = Ok needed
    /\ selectTransfersToSend w rg needed false (dustThreshold defaultDustPolicy) []
       = Some (foundMoney context, selectedTransfers context)
    /\ needed <= foundMoney context
    /\ sending_state w id = None
    /\ sending_state w' id = Some Pending
    /\ events w' = events w
    /\ spent_coins w' = spent_coins w
    /\ forall rg' needed' addDust dust selected,
         selectTransfersToSend w' rg' needed' addDust dust selected
         = selectTransfersToSend w rg' needed' addDust dust selected.
Proof.
  intros Hmix Hrun. apply makeSendRequest_inv in Hrun.
  destruct Hrun as (needed & found & selected & _ & _ & Hcount & Hsel & Hle & Hrest).
  assert (Hz : (mixin =? 0) = false) by (apply Z.eqb_neq; exact Hmix).
  rewrite Hz in Hrest, Hsel. cbn [negb] in Hrest. destruct Hrest as [Hr Hw].
  inversion Hr; subst id request. clear Hr. subst w'.
  exists needed.
  exists {| transactionId := length (m_transactions (m_transactionsCache w));
            outs := [];
            foundMoney := found;
            selectedTransfers := selected;
            dustPolicy := defaultDustPolicy;
            mixIn := mixin |}.
  cbn [transactionId mixIn outs foundMoney selectedTransfers].
  split; [reflexivity|]. split; [reflexivity|]. split; [reflexivity|].
  split; [reflexivity|]. split; [exact Hcount|]. split; [exact Hsel|].
  split; [exact Hle|]. split.
  { unfold sending_state.
    destruct (nth_error (m_transactions (m_transactionsCache w))
                (length (m_transactions (m_transactionsCache w)))) eqn:E;
      [|reflexivity].
    assert (Hsome : nth_error (m_transactions (m_transactionsCache w))
                      (length (m_transactions (m_transactionsCache w))) <> None)
      by congruence.
    apply nth_error_Some in Hsome. lia. }
  split.
  { unfold sending_state, addNewTransaction. simpl.
    rewrite nth_error_app2 by lia. rewrite Nat.sub_diag. reflexivity. }
  split; [reflexivity|]. split; [reflexivity|].
  intros rg' needed' addDust dust sel. unfold selectTransfersToSend.
  cbn [m_transferDetails m_transactionsCache with_cache].
  rewrite (collect_unused_same_unconfirmed (m_transactionsCache w)); reflexivity.
Qed.

Lemma makeSendRequest_with_decoys_reserves_nothing_witness :
  exists context,
    fst (makeSendRequest (H := scenarioExternals) firstIndex
           [mkTransfer "bob"%string 1000] 10 String.EmptyString 5 0
           (scenarioWallet [coin 2000 7]))
    = Ok (O, Some (WalletGetRandomOutsByAmountsRequest
                     (map td_amount (selectedTransfers context)) (u64 (5 + 1)) context))
    /\ selectedTransfers context = [coin 2000 7].
Proof.
  eassert (Hrun : makeSendRequest (H := scenarioExternals) firstIndex
                    [mkTransfer "bob"%string 1000] 10 String.EmptyString 5 0
                    (scenarioWallet [coin 2000 7])
                  = (Ok (O, _), _))
    by (vm_compute; reflexivity).
  pose proof Hrun as Hsame.
  apply (makeSendRequest_with_decoys_reserves_nothing (H := scenarioExternals))
    in Hrun; [|discriminate].
  destruct Hrun as (needed & context & Hreq & _ & _ & _ & Hcount & Hsel & _).
  exists context. split; [rewrite Hsame, Hreq; reflexivity|].
  vm_compute in Hcount. inversion Hcount; subst needed.
  vm_compute in Hsel. now inversion Hsel.
Defined.


(** ** How a validated send can fail *)

Lemma validateTransfersAddresses_inv `{Externals} transfers :
  validateTransfersAddresses transfers = Ok tt ->
  Forall (fun tr => validateDestinationAddress (address tr) = true) transfers.
Proof.
  induction transfers as [|tr rest IH]; simpl; intros Hv; [constructor|].
  destruct (validateDestinationAddress (address tr)) eqn:E; [|discriminate].
  constructor; [exact E | apply IH; exact Hv].
Qed.

Lemma splitDestinations_returns `{Externals} cache first count change policy :
  length (transfer_range cache first count) = transfer_rounds first count ->
  Forall (fun tr => validateDestinationAddress (address tr) = true)
         (transfer_range cache first count) ->
  0 <= dustThreshold policy ->
  exists dests, splitDestinations cache first count change policy = Ok dests.
Proof.
  intros Hlen Hvalid Hthr.
  destruct (digitSplitStrategy_returns cache first count change (dustThreshold policy)
              Hlen Hvalid) as [[dsts dust] Hd].
  destruct (digitSplitStrategy_change _ _ _ _ _ _ _ Hthr Hd)
    as (_ & _ & _ & _ & _ & _ & _ & Hdust).
  unfold splitDestinations. rewrite Hd. cbn [rbind fst snd].
  rewrite splitDestinations_dust_ok by (destruct Hdust; lia).
  eexists. reflexivity.
Qed.

(** The step of the [try] block that raised. *)
Lemma doSendTransaction_try_throws `{Externals} context w x w' :
  doSendTransaction_try context w = (Throw x, w') ->
  getTransaction (m_transactionsCache w) (transactionId context) = Throw x
  \/ exists transaction,
       getTransaction (m_transactionsCache w) (transactionId context) = Ok transaction
       /\ (prepareInputs (selectedTransfers context) (outs context) [] (mixIn context)
           = Throw x
           \/ exists prepared,
                prepareInputs (selectedTransfers context) (outs context) []
                              (mixIn context) = Ok prepared
                /\ (splitDestinations (m_transactionsCache w)
                      (firstTransferId transaction) (transferCount transaction)
                      (createChangeDestinations (m_account_address (m_keys w))
                         (u64 (- totalAmount transaction)) (foundMoney context)
                         AUTO_VAL_INIT_changeDts)
                      (dustPolicy context) = Throw x
                    \/ exists dests,
                         constructTx (m_keys w) (snd prepared) dests
                           (extra transaction) (unlockTime transaction)
                           (m_upperTransactionSizeLimit w) = Throw x)).
Proof.
  unfold doSendTransaction_try, bind, lift, modify, ret. intros Hrun.
  destruct (getTransaction (m_transactionsCache w) (transactionId context))
    as [transaction| |]; try discriminate;
    [|left; now inversion Hrun].
  right. exists transaction. split; [reflexivity|].
  destruct (prepareInputs (selectedTransfers context) (outs context) []
                          (mixIn context)) as [prepared| |]; try discriminate;
    [|left; now inversion Hrun].
  right. exists prepared. split; [reflexivity|].
  destruct (splitDestinations _ _ _ _ _) as [dests| |]; try discriminate;
    [|left; now inversion Hrun].
  right. exists dests.
  destruct (constructTx _ _ _ _ _ _) as [tx| |]; try discriminate.
  now inversion Hrun.
Qed.

(** X20.  How a validated send without decoys can fail.  When
    [makeSendRequest] accepts a request with mixin 0 and hands back no
    request, it has pushed exactly one completion event for the new
    send, the record is finalized with the event's code, and no coin
    is marked as spent.  The code is [TX_CANCELLED] when the sender is
    stopping; otherwise it is [INTERNAL_WALLET_ERROR], [construct_tx]
    having refused, or [TRANSACTION_SIZE_TOO_BIG], the blob having
    reached the size limit.  The record lookup, the inputs, the
    addresses and the dust cannot fail for a request that was
    validated. *)
Theorem makeSendRequest_fails_only_at_assembly `{Externals}
  (rg : nat -> nat) (transfers : list Transfer) (fee : Z) (extra0 : string)
  (unlock : Z) (w w' : Wallet) (id : TransactionId) :
  0 <= dustThreshold defaultDustPolicy ->
  makeSendRequest rg transfers fee extra0 0 unlock w = (Ok (id, None), w') ->
  exists ec,
    events w' = events w ++ [WalletSendTransactionCompletedEvent id (Some ec)]
    /\ sending_state w' id = Some (Finalized (Some ec))
    /\ spent_coins w' = spent_coins w
    /\ ((m_isStoping w = true /\ ec = TX_CANCELLED)
        \/ (m_isStoping w = false
            /\ exists sources dests,
                 match construct_tx (m_keys w) sources dests
                         (String.list_ascii_of_string extra0) unlock with
                 | None => ec = INTERNAL_WALLET_ERROR
                 | Some tx =>
                     m_upperTransactionSizeLimit w <= get_object_blobsize tx
                     /\ ec = TRANSACTION_SIZE_TOO_BIG
                 end)).
Proof.
  intros Hthr Hrun. apply makeSendRequest_inv in Hrun.
  destruct Hrun as (needed & found & selected & _ & Hval & _ & _ & _ & Hrest).
  cbn [Z.eqb negb] in Hrest. destruct Hrest as (request & Hdo & Hr).
  inversion Hr; subst id request. clear Hr.
  set (cache1 := snd (addNewTransaction (m_transactionsCache w) needed fee extra0
                        transfers unlock)) in *.
  set (w1 := with_cache w cache1) in *.
  set (id := length (m_transactions (m_transactionsCache w))) in *.
  assert (Hpending : sending_state w1 id = Some Pending).
  { unfold sending_state, w1, cache1, id, addNewTransaction. simpl.
    rewrite nth_error_app2 by lia. rewrite Nat.sub_diag. reflexivity. }
  assert (Hdone : forall ec,
             w' = push_complete_event w1 id (Some ec) ->
             events w' = events w ++ [WalletSendTransactionCompletedEvent id (Some ec)]
             /\ sending_state w' id = Some (Finalized (Some ec))
             /\ spent_coins w' = spent_coins w).
  { intros ec ->. split; [reflexivity|]. split.
    - apply (push_complete_event_state _ _ _ _ Hpending).
    - rewrite push_complete_event_spent. reflexivity. }
  revert Hdo. unfold doSendTransaction.
  cbn [transactionId]. fold id.
  assert (Hflag : m_isStoping w1 = m_isStoping w) by reflexivity.
  rewrite Hflag. destruct (m_isStoping w) eqn:Hstop.
  - intros Hdo.
    assert (Hw' : w' = push_complete_event w1 id (Some TX_CANCELLED)) by congruence.
    exists TX_CANCELLED. destruct (Hdone _ Hw') as (He & Hs & Hc).
    repeat split; try assumption. left. split; reflexivity.
  - match goal with
    | |- context [doSendTransaction_try ?c w1] => set (context := c) in *
    end.
    destruct (doSendTransaction_try context w1) as [[request|[ec|]|] w2] eqn:Htry;
      try discriminate.
    + (* a system_error *)
      intros Hdo.
      pose proof (doSendTransaction_try_outcome _ _ _ _ Htry) as Hsame.
      simpl in Hsame. subst w2.
      assert (Hw' : w' = push_complete_event w1 id (Some ec)) by congruence.
      exists ec. destruct (Hdone _ Hw') as (He & Hs & Hc).
      repeat split; try assumption. right. split; [reflexivity|].
      apply doSendTransaction_try_throws in Htry.
      cbn [m_transactionsCache m_keys m_upperTransactionSizeLimit w1 with_cache
           transactionId context selectedTransfers outs mixIn dustPolicy foundMoney]
        in Htry.
      fold id in Htry. unfold cache1, id in Htry.
      rewrite getTransaction_added in Htry.
      destruct Htry as [Hbad|(transaction & Hget & Htry)]; [discriminate|].
      inversion Hget; subst transaction. clear Hget.
      cbn [firstTransferId transferCount totalAmount extra unlockTime] in Htry.
      destruct Htry as [Hbad|(prepared & Hprep & Htry)].
      { destruct (prepareInputs_returns selected [] [] 0 (or_introl eq_refl)) as [r Hr].
        congruence. }
      destruct Htry as [Hbad|(dests & Htx)].
      { destruct (splitDestinations_returns
                    (snd (addNewTransaction (m_transactionsCache w) needed fee extra0
                            transfers unlock))
                    (length (m_transfers (m_transactionsCache w))) (length transfers)
                    (createChangeDestinations (m_account_address (m_keys w))
                       (u64 (- to_int64 (- to_int64 needed))) found
                       AUTO_VAL_INIT_changeDts)
                    defaultDustPolicy) as [r Hr].
        - apply transfer_range_added_within.
        - apply transfer_range_added_within. apply validateTransfersAddresses_inv.
          exact Hval.
        - exact Hthr.
        - congruence. }
      exists (snd prepared), dests. unfold constructTx in Htx.
      destruct (construct_tx _ _ _ _ _) as [tx|]; [|now inversion Htx].
      destruct (m_upperTransactionSizeLimit w <=? get_object_blobsize tx) eqn:Hsize;
        cbn [throwIf rbind] in Htx; [|discriminate].
      apply Z.leb_le in Hsize. split; [exact Hsize | now inversion Htx].
    + (* a std::exception *)
      intros _. exfalso.
      apply doSendTransaction_try_throws in Htry.
      cbn [m_transactionsCache m_keys m_upperTransactionSizeLimit w1 with_cache
           transactionId context selectedTransfers outs mixIn dustPolicy foundMoney]
        in Htry.
      fold id in Htry. unfold cache1, id in Htry.
      rewrite getTransaction_added in Htry.
      destruct Htry as [Hbad|(transaction & Hget & Htry)]; [discriminate|].
      inversion Hget; subst transaction. clear Hget.
      cbn [firstTransferId transferCount totalAmount extra unlockTime] in Htry.
      destruct Htry as [Hbad|(prepared & Hprep & Htry)].
      { destruct (prepareInputs_returns selected [] [] 0 (or_introl eq_refl)) as [r Hr].
        congruence. }
      destruct Htry as [Hbad|(dests & Htx)].
      { destruct (splitDestinations_returns
                    (snd (addNewTransaction (m_transactionsCache w) needed fee extra0
                            transfers unlock))
                    (length (m_transfers (m_transactionsCache w))) (length transfers)
                    (createChangeDestinations (m_account_address (m_keys w))
                       (u64 (- to_int64 (- to_int64 needed))) found
                       AUTO_VAL_INIT_changeDts)
                    defaultDustPolicy) as [r Hr].
        - apply transfer_range_added_within.
        - apply transfer_range_added_within. apply validateTransfersAddresses_inv.
          exact Hval.
        - exact Hthr.
        - congruence. }
      unfold constructTx in Htx.
      destruct (construct_tx _ _ _ _ _) as [tx|]; [|discriminate].
      destruct (m_upperTransactionSizeLimit w <=? get_object_blobsize tx);
        cbn [throwIf rbind] in Htx; discriminate.
Qed.

Lemma makeSendRequest_fails_only_at_assembly_witness :
  exists ec,
    events (snd (makeSendRequest (H := scenarioExternals) firstIndex
                   [mkTransfer "bob"%string 1000] 10 String.EmptyString 0 0
                   (stop (scenarioWallet [coin 2000 7]))))
    = [WalletSendTransactionCompletedEvent O (Some ec)].
Proof.
  eassert (Hrun : makeSendRequest (H := scenarioExternals) firstIndex
                    [mkTransfer "bob"%string 1000] 10 String.EmptyString 0 0
                    (stop (scenarioWallet [coin 2000 7]))
                  = (Ok (O, None), _))
    by (vm_compute; reflexivity).
  pose proof Hrun as Hsame.
  apply (makeSendRequest_fails_only_at_assembly (H := scenarioExternals)) in Hrun;
    [|simpl; lia].
  destruct Hrun as (ec & Hev & _). exists ec. rewrite Hsame. exact Hev.
Defined.


(** ** The transfers a record points at *)

Lemma transfers_from_past cache idx rounds :
  nth_error (m_transfers cache) idx = None ->
  transfers_from cache idx rounds = [].
Proof.
  intros Hnone. unfold transfers_from.
  rewrite skipn_all2 by (apply nth_error_None; exact Hnone).
  apply firstn_nil.
Qed.

Lemma digitSplitStrategy_transfers_bad `{Externals} cache thr count :
  forall idx acc,
    Exists (fun tr => parseAccountAddressString (address tr) = None)
           (transfers_from cache idx count) ->
    digitSplitStrategy_transfers cache idx count thr acc
    = Throw (system_error BAD_ADDRESS).
Proof.
  induction count as [|count IH]; intros idx acc Hex.
  - unfold transfers_from in Hex. simpl in Hex. inversion Hex.
  - cbn [digitSplitStrategy_transfers]. unfold getTransfer.
    destruct (nth_error (m_transfers cache) idx) as [tr|] eqn:Htr.
    + rewrite (transfers_from_cons _ _ _ _ Htr) in Hex. cbn [rbind].
      destruct (parseAccountAddressString (address tr)) as [a|] eqn:Hp;
        [|reflexivity].
      apply IH. inversion Hex as [? ? Hbad|? ? Hrest]; subst; [congruence | exact Hrest].
    + rewrite (transfers_from_past _ _ _ Htr) in Hex. inversion Hex.
Qed.

Lemma digitSplitStrategy_transfers_short `{Externals} cache thr count :
  forall idx acc,
    Forall (fun tr => parseAccountAddressString (address tr) <> None)
           (transfers_from cache idx count) ->
    (length (transfers_from cache idx count) < count)%nat ->
    digitSplitStrategy_transfers cache idx count thr acc = Throw std_exception.
Proof.
  induction count as [|count IH]; intros idx acc Hall Hlen; [lia|].
  cbn [digitSplitStrategy_transfers]. unfold getTransfer.
  destruct (nth_error (m_transfers cache) idx) as [tr|] eqn:Htr; [|reflexivity].
  rewrite (transfers_from_cons _ _ _ _ Htr) in Hall, Hlen. cbn [rbind].
  inversion Hall as [|? ? Hgood Hrest]; subst.
  destruct (parseAccountAddressString (address tr)) as [a|]; [|congruence].
  apply IH; [exact Hrest | simpl in Hlen; lia].
Qed.

(** X21.  What the record's transfers make of the split.  The loop
    runs over the range [first, first + count), its bound a sum of two
    [size_t].  The transfers of the range that the cache holds are
    parsed in order: one whose address does not parse raises
    [BAD_ADDRESS]; when all parse but the range runs past the
    transfers of the cache, the lookup raises a [std::exception];
    otherwise, the threshold not being negative, the split returns the
    destinations.  When the bound fits 64 bits the range has [count]
    rounds; when it wraps the loop never runs: no transfer is looked
    up, nothing is raised for them, and the result is the split of the
    change alone. *)
Theorem splitDestinations_outcome `{Externals}
  (cache : WalletUserTransactionsCache) (first : TransferId) (count : nat)
  (change : tx_destination_entry) (policy : TxDustPolicy) :
  (Exists (fun tr => parseAccountAddressString (address tr) = None)
          (transfer_range cache first count) ->
   splitDestinations cache first count change policy
   = Throw (system_error BAD_ADDRESS))
  /\ (Forall (fun tr => parseAccountAddressString (address tr) <> None)
             (transfer_range cache first count) ->
      ((length (transfer_range cache first count) < transfer_rounds first count)%nat ->
       splitDestinations cache first count change policy = Throw std_exception)
      /\ (length (transfer_range cache first count) = transfer_rounds first count ->
          0 <= dustThreshold policy ->
          exists dests, splitDestinations cache first count change policy = Ok dests))
  /\ (Z.of_nat first + Z.of_nat count < two64 ->
      transfer_rounds first count = count
      /\ transfer_range cache first count
         = firstn count (skipn first (m_transfers cache)))
  /\ (Z.of_nat count < two64 -> two64 <= Z.of_nat first + Z.of_nat count ->
      transfer_rounds first count = O
      /\ transfer_range cache first count = []
      /\ splitDestinations cache first count change policy
         = (let r := fold_left (change_handlers (addr change))
                       (decompose_amount_into_digits (dst_amount change)
                                                     (dustThreshold policy))
                       ([], 0) in
            splitDestinations_dust policy (fst r) (snd r))).
Proof.
  split; [|split; [intros Hall; split|split]].
  - intros Hex. unfold splitDestinations, digitSplitStrategy.
    now rewrite (digitSplitStrategy_transfers_bad _ _ _ _ _ Hex).
  - intros Hlen. unfold splitDestinations, digitSplitStrategy.
    now rewrite (digitSplitStrategy_transfers_short _ _ _ _ _ Hall Hlen).
  - intros Hlen Hthr. apply splitDestinations_returns; [exact Hlen| |exact Hthr].
    eapply Forall_impl; [|exact Hall]. intros tr Htr. unfold validateDestinationAddress.
    cbv beta in Htr.
    destruct (parseAccountAddressString (address tr)) eqn:E; [reflexivity | congruence].
  - intros Hfit. unfold transfer_range.
    rewrite (transfer_rounds_no_wrap _ _ Hfit). split; reflexivity.
  - intros Hcount Hwrap. unfold transfer_range, splitDestinations, digitSplitStrategy.
    rewrite (transfer_rounds_wrap _ _ Hcount Hwrap). repeat split.
Qed.

Lemma splitDestinations_outcome_witness :
  splitDestinations (H := scenarioExternals)
    (snd (addNewTransaction emptyCache 1010 10 String.EmptyString
            [mkTransfer "bob"%string 1000; mkTransfer String.EmptyString 5] 0))
    0%nat 2%nat AUTO_VAL_INIT_changeDts (@defaultDustPolicy scenarioExternals)
  = Throw (system_error BAD_ADDRESS)
  /\ splitDestinations (H := scenarioExternals) scenarioCache 0%nat 2%nat
       AUTO_VAL_INIT_changeDts (@defaultDustPolicy scenarioExternals)
     = Throw std_exception
  /\ splitDestinations (H := scenarioExternals) scenarioCache
       (Z.to_nat (two64 - 1)) 2%nat AUTO_VAL_INIT_changeDts
       (@defaultDustPolicy scenarioExternals)
     = Ok [].
Proof.
  split; [|split].
  - apply (splitDestinations_outcome (H := scenarioExternals)).
    apply Exists_cons_tl, Exists_cons_hd. reflexivity.
  - apply (splitDestinations_outcome (H := scenarioExternals)).
    + vm_compute. repeat constructor; discriminate.
    + vm_compute. lia.
  - destruct (splitDestinations_outcome (H := scenarioExternals) scenarioCache
                (Z.to_nat (two64 - 1)) 2%nat AUTO_VAL_INIT_changeDts
                (@defaultDustPolicy scenarioExternals)) as (_ & _ & _ & Hwrap).
    destruct Hwrap as (_ & _ & Hsplit).
    + rewrite two64_val. lia.
    + rewrite Z2Nat.id by (rewrite two64_val; lia). rewrite two64_val. lia.
    + rewrite Hsplit. reflexivity.
Defined.

(** ** The record of an assembled transaction *)




(** ** Completion events and the records *)

Lemma faithful_report_none id w w' :
  events w' = events w -> faithful_report id w w'.
Proof.
  intros Hev. exists []. rewrite app_nil_r. split; [exact Hev|].
  intros id' ec [].
Qed.

Lemma faithful_report_push id w ec :
  sending_state w id <> None ->
  faithful_report id w (push_complete_event w id ec).
Proof.
  intros Hrec. exists [WalletSendTransactionCompletedEvent id ec].
  split; [reflexivity|]. intros id' ec' [Heq|[]]. inversion Heq; subst id' ec'.
  split; [reflexivity|].
  destruct (sending_state w id) as [st|] eqn:Hst; [|congruence].
  exact (push_complete_event_state _ _ _ _ Hst).
Qed.

Lemma faithful_report_balance id w w' a p :
  events w' = events w ++ [WalletActualBalanceUpdatedEvent a;
                           WalletPendingBalanceUpdatedEvent p] ->
  faithful_report id w w'.
Proof.
  intros Hev. eexists. split; [exact Hev|].
  intros id' ec [Heq|[Heq|[]]]; discriminate.
Qed.

Lemma doSendTransaction_faithful `{Externals} context w r w' :
  sending_state w (transactionId context) <> None ->
  doSendTransaction context w = (r, w') ->
  faithful_report (transactionId context) w w'.
Proof.
  intros Hrec. unfold doSendTransaction.
  destruct (m_isStoping w).
  - intros Hrun. inversion Hrun; subst. apply faithful_report_push. exact Hrec.
  - destruct (doSendTransaction_try context w) as [[request|[ec|]|] w1] eqn:Htry;
      pose proof (doSendTransaction_try_outcome _ _ _ _ Htry) as Hout;
      cbv beta iota in Hout; intros Hrun; inversion Hrun; subst.
    + destruct Hout as (tx & outs' & a & p & _ & Hev & _).
      exact (faithful_report_balance _ _ _ _ _ Hev).
    + apply faithful_report_push. exact Hrec.
    + apply faithful_report_push. exact Hrec.
    + apply faithful_report_none. reflexivity.
Qed.

Lemma makeSendRequest_not_ok `{Externals} rg transfers fee extra0 mixin unlock w r w' :
  makeSendRequest rg transfers fee extra0 mixin unlock w = (r, w') ->
  (forall v, r <> Ok v) ->
  events w' = events w.
Proof.
  intros Hrun Hnot. revert Hrun.
  unfold makeSendRequest, bind, lift, ret, throwIf.
  destruct (is_empty transfers); [intros Hrun; now inversion Hrun|].
  destruct (validateTransfersAddresses transfers) as [[]| |];
    try (intros Hrun; now inversion Hrun).
  destruct (countNeededMoney fee transfers) as [needed| |];
    try (intros Hrun; now inversion Hrun).
  destruct (selectTransfersToSend _ _ _ _ _ _) as [[found selected]|];
    try (intros Hrun; now inversion Hrun).
  cbn [fst snd]. destruct (found <? needed); [intros Hrun; now inversion Hrun|].
  cbn [addNewTransaction]. destruct (negb (mixin =? 0)).
  - intros Hrun. inversion Hrun; subst. exfalso. eapply Hnot. reflexivity.
  - match goal with
    | |- context [doSendTransaction ?c ?w1] =>
        destruct (doSendTransaction c w1) as [[request|x|] w2] eqn:Hdo
    end; intros Hrun; inversion Hrun; subst.
    + exfalso. eapply Hnot. reflexivity.
    + pose proof (doSendTransaction_effect _ _ _ _ Hdo) as Heff. contradiction.
    + revert Hdo. unfold doSendTransaction. cbn [m_isStoping with_cache].
      destruct (m_isStoping w); [discriminate|].
      match goal with
      | |- context [doSendTransaction_try ?c ?w1] =>
          destruct (doSendTransaction_try c w1) as [[request|[ec|]|] w2] eqn:Htry
      end; try discriminate.
      intros Hdo. inversion Hdo; subst.
      pose proof (doSendTransaction_try_outcome _ _ _ _ Htry) as Hout.
      cbv beta iota in Hout. subst w'. reflexivity.
Qed.

(** X23.  Completion events and records agree.  Whatever a call of
    the sender does, the completion events it pushes are for its own
    send and the record of that send is then finalized with the code
    the event carries: for [doSendTransaction] and the two
    continuations when the cache holds the record of the context, and
    for [makeSendRequest] with the record it creates. *)
Theorem completion_events_match_records `{Externals}
  (context : SendTransactionContext) (w : Wallet) :
  (sending_state w (transactionId context) <> None ->
   (forall r w', doSendTransaction context w = (r, w') ->
                 faithful_report (transactionId context) w w')
   /\ (forall ec r w', sendTransactionRandomOutsByAmount context ec w = (r, w') ->
                       faithful_report (transactionId context) w w')
   /\ (forall ec r w', relayTransactionCallback context ec w = (r, w') ->
                       faithful_report (transactionId context) w w'))
  /\ (forall rg transfers fee extra0 mixin unlock r w',
         makeSendRequest rg transfers fee extra0 mixin unlock w = (r, w') ->
         faithful_report (length (m_transactions (m_transactionsCache w))) w w').
Proof.
  split.
  - intros Hrec. split; [|split].
    + intros r w' Hrun. exact (doSendTransaction_faithful _ _ _ _ Hrec Hrun).
    + intros ec r w'. unfold sendTransactionRandomOutsByAmount.
      destruct (m_isStoping w).
      * intros Hrun. inversion Hrun; subst. apply faithful_report_push. exact Hrec.
      * destruct ec as [e|].
        -- intros Hrun. inversion Hrun; subst. apply faithful_report_push. exact Hrec.
        -- destruct (existsb _ (outs context)).
           ++ intros Hrun. inversion Hrun; subst. apply faithful_report_push.
              exact Hrec.
           ++ intros Hrun. exact (doSendTransaction_faithful _ _ _ _ Hrec Hrun).
    + intros ec r w'. unfold relayTransactionCallback.
      destruct (m_isStoping w); intros Hrun; inversion Hrun; subst.
      * apply faithful_report_none. reflexivity.
      * apply faithful_report_push. exact Hrec.
  - intros rg transfers fee extra0 mixin unlock r w' Hrun.
    destruct r as [[id request]| |].
    + apply makeSendRequest_inv in Hrun.
      destruct Hrun as (needed & found & selected & _ & _ & _ & _ & _ & Hrest).
      cbv zeta in Hrest. cbn [transactionId] in Hrest.
      set (id0 := length (m_transactions (m_transactionsCache w))) in *.
      set (w1 := with_cache w (snd (addNewTransaction (m_transactionsCache w) needed
                                      fee extra0 transfers unlock))) in *.
      assert (Hrec : sending_state w1 id0 <> None).
      { unfold sending_state, w1, id0, addNewTransaction. simpl.
        rewrite nth_error_app2 by lia. rewrite Nat.sub_diag. discriminate. }
      destruct (negb (mixin =? 0)).
      * destruct Hrest as [_ ->]. apply faithful_report_none. reflexivity.
      * destruct Hrest as (request0 & Hdo & _).
        apply doSendTransaction_faithful in Hdo; [|exact Hrec].
        exact Hdo.
    + apply faithful_report_none.
      eapply makeSendRequest_not_ok; [exact Hrun | discriminate].
    + apply faithful_report_none.
      eapply makeSendRequest_not_ok; [exact Hrun | discriminate].
Qed.

Lemma completion_events_match_records_witness :
  faithful_report O scenarioC_wallet
    (push_complete_event scenarioC_wallet O (Some (NODE_ERROR 7))).
Proof.
  destruct (completion_events_match_records (H := scenarioExternals)
              scenarioC_context scenarioC_wallet) as [Hcont _].
  destruct Hcont as (_ & _ & Hrelay); [discriminate|].
  exact (Hrelay (Some (NODE_ERROR 7)) _ _ eq_refl).
Defined.
